(** * Xi: the node model, content hash, binary codec, evaluator and optimizer

    A shallow embedding of the reference implementation of the Xi graph
    language (xi.py, xi_deserialize.py, xi_match.py, xi_optimizer.py),
    followed by the properties established about it.

    Conventions.
    - Python [int] is [Z]; [bytes] is [list byte]; [str] is the list of its
      Unicode code points.
    - A Python exception is a value of [PyExn]; a computation that may raise
      returns [Res A].
    - A [float] is carried as its IEEE-754 binary64 bit pattern, which is all
      the codec and the hasher look at; the equality of two float payloads
      is decided on the bits. Arithmetic on floats is not part of this
      development and is reported as [Unsupported].
    - The interpreters are recursive Python methods; their embedding takes
      the remaining recursion depth as a [nat] and raises [RecursionError]
      when it is used up, as CPython does at its recursion limit. The depth
      counts the nested calls of [_eval]; the frames of the methods called
      in between are not counted.
    - The codec and the optimizer passes depend on object identity
      ([id(node)]); for them a graph lives in a store of objects and a node
      is an address in that store. The hasher and the interpreters only
      read structure, so they work on the tree a node unfolds to. *)

From stdpp Require Import base option list gmap.
From Stdlib Require Import ZArith Lia Bool.
From Stdlib.Strings Require Import Byte.
From Stdlib Require Import Decimal DecimalZ.

Local Open Scope Z_scope.

(* ================================================================== *)
(** ** Python exceptions and results *)
(* ================================================================== *)

(** The messages of [XiError], by the place that raises them. *)
Inductive XiMsg : Type :=
  | UnboundVariable        (* "Unbound variable: de Bruijn index ..." *)
  | CannotApply            (* "Cannot apply: ..." *)
  | CannotEvaluate         (* "Cannot evaluate: ..." *)
  | UnknownUnaryOp         (* "Unknown unary op: ..." *)
  | UnknownBinaryOp        (* "Unknown binary op: ..." *)
  | ReductionLimit         (* "Reduction limit exceeded" *)
  | MatchNonConstructor    (* "Match on non-constructor: ..." *)
  | ConstructorOutOfRange. (* "Constructor ... out of range (... branches)" *)

(** The messages of [DeserializeError]. *)
Inductive DesMsg : Type :=
  | FileTooShort           (* "File too short (... bytes)" *)
  | InvalidMagic           (* "Invalid magic: ..." *)
  | UnsupportedVersion     (* "Unsupported version: ..." *)
  | UnexpectedEOF          (* "Unexpected EOF at node ..." *)
  | UnknownTag.            (* "Unknown tag ... at byte ..." *)

Inductive PyExn : Type :=
  | XiError (m : XiMsg)
  | DeserializeError (m : DesMsg)
  | IndexError
  | TypeError
  | ValueError
  | OverflowError
  | ZeroDivisionError
  | UnicodeError
  | StructError
  | KeyError
  | RecursionError
  | Unsupported.           (* a computation outside this development:
                              float arithmetic and comparison, printf-style
                              formatting, the repr of an object *)

Inductive Res (A : Type) : Type :=
  | Ok (a : A)
  | Raise (e : PyExn).
Arguments Ok {A} a.
Arguments Raise {A} e.

Definition rbind {A B : Type} (r : Res A) (k : A -> Res B) : Res B :=
  match r with
  | Ok a => k a
  | Raise e => Raise e
  end.

Notation "'let*' x ':=' r 'in' k" := (rbind r (fun x => k))
  (at level 10, x pattern, r at level 100, k at level 200).

Definition is_ok {A : Type} (r : Res A) : bool :=
  match r with Ok _ => true | Raise _ => false end.

(** A codec error is an instance of [DeserializeError]; an evaluator error
    an instance of [XiError]. *)
Definition is_codec_error (e : PyExn) : bool :=
  match e with DeserializeError _ => true | _ => false end.

Definition is_xi_error (e : PyExn) : bool :=
  match e with XiError _ => true | _ => false end.

(* ================================================================== *)
(** ** Bytes and integers *)
(* ================================================================== *)

Definition Z_of_byte (b : byte) : Z := Z.of_N (Byte.to_N b).

Definition byte_of_Z (z : Z) : byte :=
  match Byte.of_N (Z.to_N (z mod 256)) with
  | Some b => b
  | None => x00
  end.

(** [bytes([z])]: one byte, [ValueError] outside [range(256)]. *)
Definition bytes1 (z : Z) : Res (list byte) :=
  if (0 <=? z) && (z <? 256) then Ok [byte_of_Z z] else Raise ValueError.

(** The [w] low-order bytes of [z], most significant first. *)
Fixpoint be_bytes (w : nat) (z : Z) : list byte :=
  match w with
  | O => []
  | S k => be_bytes k (z / 256) ++ [byte_of_Z (z mod 256)]
  end.

(** [z.to_bytes(w, 'big', signed=...)]. *)
Definition int_to_bytes (w : nat) (signed : bool) (z : Z) : Res (list byte) :=
  let m := 256 ^ Z.of_nat w in
  if signed then
    if (- (m / 2) <=? z) && (z <? m / 2) then Ok (be_bytes w (z mod m))
    else Raise OverflowError
  else
    if (0 <=? z) && (z <? m) then Ok (be_bytes w z)
    else Raise OverflowError.

(** [int.from_bytes(bs, 'big', signed=...)]; the empty string gives 0. *)
Definition int_from_bytes (signed : bool) (bs : list byte) : Z :=
  let u := fold_left (fun acc b => acc * 256 + Z_of_byte b) bs 0 in
  let m := 256 ^ Z.of_nat (length bs) in
  if signed && (m <=? 2 * u) then u - m else u.

(** [data[pos:pos+n]] for [0 <= pos]: slices never raise, they clip. *)
Definition slice (data : list byte) (pos n : nat) : list byte :=
  take n (drop pos data).

(** [a == b] on byte strings. *)
Fixpoint bytes_eqb (a b : list byte) : bool :=
  match a, b with
  | [], [] => true
  | x :: a', y :: b' => Byte.eqb x y && bytes_eqb a' b'
  | _, _ => false
  end.

(** [data[pos]]: [IndexError] past the end. *)
Definition byte_at (data : list byte) (pos : nat) : Res Z :=
  match data !! pos with
  | Some b => Ok (Z_of_byte b)
  | None => Raise IndexError
  end.

(* ================================================================== *)
(** ** Strings: UTF-8 *)
(* ================================================================== *)

(** A [str] is the list of its code points, each in [0, 0x10FFFF]. *)
Definition pystr : Type := list Z.

Definition is_surrogate (c : Z) : bool := (0xD800 <=? c) && (c <=? 0xDFFF).

(** The UTF-8 bytes of one code point; lone surrogates (which a Python
    [str] may hold) cannot be encoded. *)
Definition utf8_encode_cp (c : Z) : Res (list byte) :=
  if (c <? 0) || (0x10FFFF <? c) then Raise ValueError
  else if c <? 0x80 then Ok [byte_of_Z c]
  else if c <? 0x800 then
    Ok [byte_of_Z (Z.lor 0xC0 (Z.shiftr c 6));
        byte_of_Z (Z.lor 0x80 (Z.land c 0x3F))]
  else if is_surrogate c then Raise UnicodeError
  else if c <? 0x10000 then
    Ok [byte_of_Z (Z.lor 0xE0 (Z.shiftr c 12));
        byte_of_Z (Z.lor 0x80 (Z.land (Z.shiftr c 6) 0x3F));
        byte_of_Z (Z.lor 0x80 (Z.land c 0x3F))]
  else
    Ok [byte_of_Z (Z.lor 0xF0 (Z.shiftr c 18));
        byte_of_Z (Z.lor 0x80 (Z.land (Z.shiftr c 12) 0x3F));
        byte_of_Z (Z.lor 0x80 (Z.land (Z.shiftr c 6) 0x3F));
        byte_of_Z (Z.lor 0x80 (Z.land c 0x3F))].

(** [s.encode('utf-8')]. *)
Fixpoint utf8_encode (s : pystr) : Res (list byte) :=
  match s with
  | [] => Ok []
  | c :: s' =>
      let* bs := utf8_encode_cp c in
      let* rest := utf8_encode s' in
      Ok (bs ++ rest)
  end.

Definition is_cont (b : Z) : bool := (0x80 <=? b) && (b <? 0xC0).

(** [bs.decode('utf-8')], strict: overlong forms, surrogates, code points
    above 0x10FFFF and truncated sequences raise. The [nat] bounds the
    number of code points and is at most the number of bytes. *)
Fixpoint utf8_decode_aux (fuel : nat) (bs : list Z) : Res pystr :=
  match fuel with
  | O => match bs with [] => Ok [] | _ => Raise UnicodeError end
  | S fuel' =>
      match bs with
      | [] => Ok []
      | b0 :: r0 =>
          if b0 <? 0x80 then
            let* rest := utf8_decode_aux fuel' r0 in Ok (b0 :: rest)
          else if (0xC2 <=? b0) && (b0 <? 0xE0) then
            match r0 with
            | b1 :: r1 =>
                if is_cont b1 then
                  let* rest := utf8_decode_aux fuel' r1 in
                  Ok (Z.lor (Z.shiftl (Z.land b0 0x1F) 6) (Z.land b1 0x3F)
                        :: rest)
                else Raise UnicodeError
            | _ => Raise UnicodeError
            end
          else if (0xE0 <=? b0) && (b0 <? 0xF0) then
            match r0 with
            | b1 :: b2 :: r2 =>
                let c := Z.lor (Z.shiftl (Z.land b0 0x0F) 12)
                           (Z.lor (Z.shiftl (Z.land b1 0x3F) 6)
                                  (Z.land b2 0x3F)) in
                if is_cont b1 && is_cont b2 && (0x800 <=? c)
                   && negb (is_surrogate c) then
                  let* rest := utf8_decode_aux fuel' r2 in Ok (c :: rest)
                else Raise UnicodeError
            | _ => Raise UnicodeError
            end
          else if (0xF0 <=? b0) && (b0 <? 0xF5) then
            match r0 with
            | b1 :: b2 :: b3 :: r3 =>
                let c := Z.lor (Z.shiftl (Z.land b0 0x07) 18)
                           (Z.lor (Z.shiftl (Z.land b1 0x3F) 12)
                              (Z.lor (Z.shiftl (Z.land b2 0x3F) 6)
                                     (Z.land b3 0x3F))) in
                if is_cont b1 && is_cont b2 && is_cont b3
                   && (0x10000 <=? c) && (c <=? 0x10FFFF) then
                  let* rest := utf8_decode_aux fuel' r3 in Ok (c :: rest)
                else Raise UnicodeError
            | _ => Raise UnicodeError
            end
          else Raise UnicodeError
      end
  end.

Definition utf8_decode (bs : list byte) : Res pystr :=
  utf8_decode_aux (length bs) (map Z_of_byte bs).

(** The string of ASCII characters with the given byte values. *)
Definition ascii_str (bs : list byte) : pystr := map Z_of_byte bs.

(* ================================================================== *)
(** ** SHA-256 (hashlib.sha256), FIPS 180-4 *)
(* ================================================================== *)

Module Sha256.

Definition w32 (x : Z) : Z := Z.land x 0xFFFFFFFF.
Definition add32 (x y : Z) : Z := w32 (x + y).
Definition rotr (n x : Z) : Z :=
  w32 (Z.lor (Z.shiftr x n) (Z.shiftl x (32 - n))).
Definition shr (n x : Z) : Z := Z.shiftr x n.

Definition Ch (x y z : Z) : Z :=
  Z.lxor (Z.land x y) (Z.land (Z.lxor x 0xFFFFFFFF) z).
Definition Maj (x y z : Z) : Z :=
  Z.lxor (Z.lxor (Z.land x y) (Z.land x z)) (Z.land y z).
Definition Sigma0 (x : Z) : Z :=
  Z.lxor (Z.lxor (rotr 2 x) (rotr 13 x)) (rotr 22 x).
Definition Sigma1 (x : Z) : Z :=
  Z.lxor (Z.lxor (rotr 6 x) (rotr 11 x)) (rotr 25 x).
Definition sigma0 (x : Z) : Z :=
  Z.lxor (Z.lxor (rotr 7 x) (rotr 18 x)) (shr 3 x).
Definition sigma1 (x : Z) : Z :=
  Z.lxor (Z.lxor (rotr 17 x) (rotr 19 x)) (shr 10 x).

(** The constants are defined as the standard does (FIPS 180-4, 4.2.2 and
    5.3.3): the first 32 bits of the fractional parts of the cube roots of
    the first 64 primes, and of the square roots of the first 8. *)
Definition is_prime (n : Z) : bool :=
  (1 <? n)
  && forallb (fun d => negb (n mod d =? 0))
       (map Z.of_nat (seq 2 (Z.to_nat n - 2))).

Definition primes (count : nat) : list Z :=
  take count (List.filter is_prime (map Z.of_nat (seq 2 310))).

(** The largest [r' >= r] with [r' ^ e <= n] that differs from [r] in
    the [k] low-order bits only. *)
Fixpoint root_bits (e : Z) (k : nat) (n r : Z) : Z :=
  match k with
  | O => r
  | S k' =>
      let r' := r + 2 ^ Z.of_nat k' in
      root_bits e k' n (if r' ^ e <=? n then r' else r)
  end.

(** The first 32 bits of the fractional part of the [e]-th root of [p]. *)
Definition frac_root (e p : Z) : Z :=
  w32 (root_bits e 40 (p * 2 ^ (32 * e)) 0).

Definition K : list Z := Eval vm_compute in map (frac_root 3) (primes 64).

Definition H0 : list Z := Eval vm_compute in map (frac_root 2) (primes 8).

(** Message padding: a 1 bit, zeros up to 56 mod 64, the bit length on
    eight bytes. *)
Definition pad (msg : list byte) : list byte :=
  let l := Z.of_nat (length msg) in
  let zeros := Z.to_nat ((55 - l) mod 64) in
  msg ++ [x80] ++ replicate zeros x00 ++ be_bytes 8 (8 * l).

(** Big-endian 32-bit words of a byte string. *)
Fixpoint words (n : nat) (bs : list Z) : list Z :=
  match n with
  | O => []
  | S n' =>
      match bs with
      | a :: b :: c :: d :: rest =>
          (((a * 256 + b) * 256 + c) * 256 + d) :: words n' rest
      | _ => []
      end
  end.

Definition nthw (l : list Z) (i : nat) : Z := nth i l 0.

(** One round [t] of the compression function. [win] holds the sixteen
    schedule words [W(t) .. W(t+15)]. *)
Definition round (st : list Z * list Z) (k : Z) : list Z * list Z :=
  let '(v, win) := st in
  let a := nthw v 0 in let b := nthw v 1 in
  let c := nthw v 2 in let d := nthw v 3 in
  let e := nthw v 4 in let f := nthw v 5 in
  let g := nthw v 6 in let h := nthw v 7 in
  let w := nthw win 0 in
  let t1 := add32 (add32 (add32 (add32 h (Sigma1 e)) (Ch e f g)) k) w in
  let t2 := add32 (Sigma0 a) (Maj a b c) in
  let wnext := add32 (add32 (add32 (sigma1 (nthw win 14)) (nthw win 9))
                        (sigma0 (nthw win 1))) (nthw win 0) in
  ([add32 t1 t2; a; b; c; add32 d t1; e; f; g], drop 1 win ++ [wnext]).

Definition compress (h : list Z) (block : list Z) : list Z :=
  let '(v, _) := fold_left round K (h, block) in
  zip_with add32 h v.

Fixpoint blocks (n : nat) (h : list Z) (ws : list Z) : list Z :=
  match n with
  | O => h
  | S n' => blocks n' (compress h (take 16 ws)) (drop 16 ws)
  end.

Definition sha256 (msg : list byte) : list byte :=
  let p := map Z_of_byte (pad msg) in
  let ws := words (length p / 4) p in
  let h := blocks (length ws / 16) H0 ws in
  concat (map (be_bytes 4) h).

End Sha256.

(* ================================================================== *)
(** ** xi.py: core definitions *)
(* ================================================================== *)

(** [class Tag(IntEnum)]: the ten constructs. *)
Inductive Tag : Type :=
  | LAM | APP | PI | SIG | UNI | FIX | IND | EQ | EFF | PRIM.

Definition tag_code (t : Tag) : Z :=
  match t with
  | LAM => 0x0 | APP => 0x1 | PI => 0x2 | SIG => 0x3 | UNI => 0x4
  | FIX => 0x5 | IND => 0x6 | EQ => 0x7 | EFF => 0x8 | PRIM => 0x9
  end.

Definition tag_eqb (a b : Tag) : bool := tag_code a =? tag_code b.

(** [class PrimOp(IntEnum)], with the two codes xi_match.py adds. A node's
    [prim_op] is any integer (or [None]): the deserializer stores the raw
    op byte. *)
Module PrimOp.
Definition VAR        : Z := 0x00.
Definition PRINT      : Z := 0x01.
Definition STR_LIT    : Z := 0x02.
Definition INT_LIT    : Z := 0x03.
Definition FLOAT_LIT  : Z := 0x04.
Definition UNIT       : Z := 0x05.
Definition INT_ADD    : Z := 0x10.
Definition INT_SUB    : Z := 0x11.
Definition INT_MUL    : Z := 0x12.
Definition INT_DIV    : Z := 0x13.
Definition INT_MOD    : Z := 0x14.
Definition INT_NEG    : Z := 0x15.
Definition INT_EQ     : Z := 0x20.
Definition INT_LT     : Z := 0x21.
Definition INT_GT     : Z := 0x22.
Definition BOOL_TRUE  : Z := 0x30.
Definition BOOL_FALSE : Z := 0x31.
Definition BOOL_NOT   : Z := 0x32.
Definition BOOL_AND   : Z := 0x33.
Definition BOOL_OR    : Z := 0x34.
Definition STR_CONCAT : Z := 0x50.
Definition STR_LEN    : Z := 0x51.
End PrimOp.

Definition MATCH  : Z := 0x60.
Definition CONSTR : Z := 0x61.

Module Effect.
Definition PURE   : Z := 0x00.
Definition IO     : Z := 0x01.
Definition MUT    : Z := 0x02.
Definition NONDET : Z := 0x04.
Definition EXN    : Z := 0x08.
Definition CONC   : Z := 0x10.
End Effect.

Definition MAGIC : list byte := [xce; x9e].
Definition FORMAT_VERSION : Z := 0x01.

(** [op == P] for an optional op code. *)
Definition op_is (op : option Z) (p : Z) : bool :=
  match op with Some o => o =? p | None => false end.

(** The payload [Node.data]: [None], a [bool], an [int], a [float] (its
    bits) or a [str]. *)
Inductive Data : Type :=
  | DNone
  | DBool (b : bool)
  | DInt (z : Z)
  | DFloat (bits : Z)
  | DStr (s : pystr).

(** [@dataclass class Node]. *)
#[warnings="-register-all"]
Inductive Node : Type := mkNode {
  tag : Tag;
  children : list Node;
  prim_op : option Z;
  data : Data;
  effect : Z;
  universe_level : Z
}.

Definition arity (n : Node) : Z := Z.of_nat (length (children n)).

(** The header byte [tag << 4 | (arity & 0x0F)]. *)
Definition header_byte (t : Tag) (ar : Z) : Z :=
  Z.lor (Z.shiftl (tag_code t) 4) (Z.land ar 0x0F).

(** The bytes the hasher feeds for the payload of a Primitive node. *)
Definition hash_payload (op : option Z) (d : Data) : Res (list byte) :=
  match op with
  | None => Ok []
  | Some o =>
      let* ob := bytes1 o in
      let* db :=
        match d with
        | DNone => Ok []
        | DStr s => utf8_encode s
        | DInt z => int_to_bytes 8 true z
        | DBool b => int_to_bytes 8 true (Z.b2z b)
        | DFloat bits => Ok (be_bytes 8 bits)
        end in
      Ok (ob ++ db)
  end.

(** The bytes hashed for one node, given the digests of its children. *)
Definition hash_input (t : Tag) (ar : Z) (child_hashes : list byte)
    (op : option Z) (d : Data) (eff lvl : Z) : Res (list byte) :=
  let* hd := bytes1 (header_byte t ar) in
  let* p := if tag_eqb t PRIM then hash_payload op d else Ok [] in
  let* u := if tag_eqb t UNI then int_to_bytes 4 false lvl else Ok [] in
  let* e := if tag_eqb t EFF then bytes1 eff else Ok [] in
  Ok (hd ++ child_hashes ++ p ++ u ++ e).

(** [Node.content_hash], as a function of the tree: the recursion depth
    the method needs is not part of this definition ([Frames.content_hash]
    has it). *)
Fixpoint content_hash (n : Node) : Res (list byte) :=
  let* ch :=
    (fix hash_children (cs : list Node) : Res (list byte) :=
       match cs with
       | [] => Ok []
       | c :: cs' =>
           let* h := content_hash c in
           let* r := hash_children cs' in
           Ok (h ++ r)
       end) (children n) in
  let* input := hash_input (tag n) (arity n) ch (prim_op n) (data n)
                  (effect n) (universe_level n) in
  Ok (Sha256.sha256 input).

(** [class B]: the builder. *)
Module B.
Definition node (t : Tag) (cs : list Node) : Node :=
  mkNode t cs None DNone 0 0.
Definition var (index : Z) : Node :=
  mkNode PRIM [] (Some PrimOp.VAR) (DInt index) 0 0.
Definition lam (type_ann body : Node) : Node := node LAM [type_ann; body].
Definition app (func arg : Node) : Node := node APP [func; arg].
Definition pi (domain codomain : Node) : Node := node PI [domain; codomain].
Definition universe (level : Z) : Node := mkNode UNI [] None DNone 0 level.
Definition fix_ (type_ann body : Node) : Node := node FIX [type_ann; body].
Definition effect (expr : Node) (eff : Z) : Node :=
  mkNode EFF [expr] None DNone eff 0.
Definition lit (op : Z) (d : Data) : Node := mkNode PRIM [] (Some op) d 0 0.
Definition int_lit (value : Z) : Node := lit PrimOp.INT_LIT (DInt value).
Definition str_lit (value : pystr) : Node := lit PrimOp.STR_LIT (DStr value).
Definition prim (op : Z) : Node := lit op DNone.
Definition unit : Node := prim PrimOp.UNIT.
End B.

(* ================================================================== *)
(** ** Python values and the operators the evaluator applies to them *)
(* ================================================================== *)

(** What [_eval] returns: [None], a [bool], an [int], a [float], a [str],
    a [Node] (closures, types, unapplied primitives) or, in xi_match.py, a
    [Constructor] object with its [index] and [args]. *)
Inductive Value : Type :=
  | VNone
  | VBool (b : bool)
  | VInt (z : Z)
  | VFloat (bits : Z)
  | VStr (s : pystr)
  | VNode (n : Node)
  | VConstr (index : Data) (args : list Node).

Definition value_of_data (d : Data) : Value :=
  match d with
  | DNone => VNone
  | DBool b => VBool b
  | DInt z => VInt z
  | DFloat f => VFloat f
  | DStr s => VStr s
  end.

(** An [int] operand: [bool] is a subclass of [int]. *)
Definition as_int (v : Value) : option Z :=
  match v with
  | VInt z => Some z
  | VBool b => Some (Z.b2z b)
  | _ => None
  end.

Definition is_number (v : Value) : bool :=
  match v with VInt _ | VBool _ | VFloat _ => true | _ => false end.

Definition is_float (v : Value) : bool :=
  match v with VFloat _ => true | _ => false end.

(** The outcome of an arithmetic operator on operands that are not both
    [int]: a float computation when both are numbers and one is a float,
    otherwise a [TypeError]. *)
Definition non_int_arith (a b : Value) : Res Value :=
  if is_number a && is_number b && (is_float a || is_float b)
  then Raise Unsupported else Raise TypeError.

(** [str(z)] for an [int]. *)
Fixpoint uint_digits (u : Decimal.uint) : pystr :=
  match u with
  | Decimal.Nil => []
  | Decimal.D0 r => 48 :: uint_digits r
  | Decimal.D1 r => 49 :: uint_digits r
  | Decimal.D2 r => 50 :: uint_digits r
  | Decimal.D3 r => 51 :: uint_digits r
  | Decimal.D4 r => 52 :: uint_digits r
  | Decimal.D5 r => 53 :: uint_digits r
  | Decimal.D6 r => 54 :: uint_digits r
  | Decimal.D7 r => 55 :: uint_digits r
  | Decimal.D8 r => 56 :: uint_digits r
  | Decimal.D9 r => 57 :: uint_digits r
  end.

Definition str_of_int (z : Z) : pystr :=
  match Z.to_int z with
  | Decimal.Pos u => uint_digits u
  | Decimal.Neg u => 45 :: uint_digits u
  end.

(** [str(v)]; the [repr] of a float, a [Node] or a [Constructor] is not
    modelled. *)
Definition py_str (v : Value) : Res pystr :=
  match v with
  | VStr s => Ok s
  | VInt z => Ok (str_of_int z)
  | VBool true => Ok [84; 114; 117; 101]          (* "True" *)
  | VBool false => Ok [70; 97; 108; 115; 101]     (* "False" *)
  | VNone => Ok [78; 111; 110; 101]               (* "None" *)
  | VFloat _ | VNode _ | VConstr _ _ => Raise Unsupported
  end.

(** Truth value: a [Node] (a dataclass with neither [__bool__] nor
    [__len__]) and a [Constructor] are always true. *)
Definition truthy (v : Value) : bool :=
  match v with
  | VNone => false
  | VBool b => b
  | VInt z => negb (z =? 0)
  | VFloat bits => negb (Z.land bits 0x7FFFFFFFFFFFFFFF =? 0)
  | VStr s => negb (Nat.eqb (length s) 0)
  | VNode _ | VConstr _ _ => true
  end.

(** [x + y]. *)
Definition py_add (a b : Value) : Res Value :=
  match as_int a, as_int b with
  | Some x, Some y => Ok (VInt (x + y))
  | _, _ =>
      match a, b with
      | VStr s, VStr t => Ok (VStr (s ++ t))
      | _, _ => non_int_arith a b
      end
  end.

(** [x - y]. *)
Definition py_sub (a b : Value) : Res Value :=
  match as_int a, as_int b with
  | Some x, Some y => Ok (VInt (x - y))
  | _, _ => non_int_arith a b
  end.

(** [s * k] for a [str]: [k] copies, none when [k <= 0]. *)
Definition str_repeat (s : pystr) (k : Z) : pystr :=
  concat (replicate (Z.to_nat k) s).

(** [x * y]. *)
Definition py_mul (a b : Value) : Res Value :=
  match as_int a, as_int b with
  | Some x, Some y => Ok (VInt (x * y))
  | _, _ =>
      match a, as_int b, as_int a, b with
      | VStr s, Some k, _, _ => Ok (VStr (str_repeat s k))
      | _, _, Some k, VStr s => Ok (VStr (str_repeat s k))
      | _, _, _, _ => non_int_arith a b
      end
  end.

(** [x // y]: on integers, the quotient rounded toward minus infinity. *)
Definition py_floordiv (a b : Value) : Res Value :=
  match as_int a, as_int b with
  | Some x, Some y =>
      if y =? 0 then Raise ZeroDivisionError else Ok (VInt (x / y))
  | _, _ => non_int_arith a b
  end.

(** [x % y]: on integers, the remainder of [//]; on a [str] left operand
    it is printf-style formatting, which is not modelled. *)
Definition py_mod (a b : Value) : Res Value :=
  match as_int a, as_int b with
  | Some x, Some y =>
      if y =? 0 then Raise ZeroDivisionError else Ok (VInt (x mod y))
  | _, _ =>
      match a with
      | VStr _ => Raise Unsupported
      | _ => non_int_arith a b
      end
  end.

Definition data_as_int (d : Data) : option Z :=
  match d with
  | DInt z => Some z
  | DBool b => Some (Z.b2z b)
  | _ => None
  end.

Fixpoint pystr_eqb (s t : pystr) : bool :=
  match s, t with
  | [], [] => true
  | c :: s', d :: t' => (c =? d) && pystr_eqb s' t'
  | _, _ => false
  end.

(** A float, given by its bits, is a NaN; is [0.0] or [-0.0]. *)
Definition float_is_nan (bits : Z) : bool :=
  (Z.land (Z.shiftr bits 52) 0x7FF =? 0x7FF)
  && negb (Z.land bits 0xFFFFFFFFFFFFF =? 0).

Definition float_is_zero (bits : Z) : bool :=
  Z.land bits 0x7FFFFFFFFFFFFFFF =? 0.

(** [d1 == d2] on payloads, as the comparison of tuples, of lists and of
    dictionary keys applies it (to an identical object it answers [True]
    without calling [==]). Two floats are equal when neither is a NaN and
    they have the same bits or are both zeros; the answer for a NaN
    depends on the identity of the float objects, and is [None] here, as
    is the comparison of a float with an integer. *)
Definition data_eq (d1 d2 : Data) : option bool :=
  match data_as_int d1, data_as_int d2 with
  | Some x, Some y => Some (x =? y)
  | _, _ =>
      match d1, d2 with
      | DFloat a, DFloat b =>
          if float_is_nan a || float_is_nan b then None
          else Some ((a =? b) || (float_is_zero a && float_is_zero b))
      | DFloat _, (DInt _ | DBool _) => None
      | (DInt _ | DBool _), DFloat _ => None
      | DNone, DNone => Some true
      | DStr s, DStr t => Some (pystr_eqb s t)
      | _, _ => Some false
      end
  end.

Definition opt_eqb (a b : option Z) : bool :=
  match a, b with
  | Some x, Some y => x =? y
  | None, None => true
  | _, _ => false
  end.

(** [n1 == n2] on nodes: the [__eq__] a dataclass generates compares the
    tuples of fields [(tag, children, prim_op, data, effect,
    universe_level)], left to right, stopping at the first difference;
    two lists of different lengths are unequal without looking at their
    elements. *)
Fixpoint node_eq (n1 n2 : Node) : option bool :=
  if negb (tag_eqb (tag n1) (tag n2)) then Some false
  else if negb (Nat.eqb (length (children n1)) (length (children n2)))
  then Some false
  else
    match
      (fix children_eq (cs1 cs2 : list Node) : option bool :=
         match cs1, cs2 with
         | c1 :: r1, c2 :: r2 =>
             match node_eq c1 c2 with
             | Some true => children_eq r1 r2
             | other => other
             end
         | _, _ => Some true
         end) (children n1) (children n2)
    with
    | Some true =>
        if negb (opt_eqb (prim_op n1) (prim_op n2)) then Some false
        else
          match data_eq (data n1) (data n2) with
          | Some true =>
              Some ((effect n1 =? effect n2)
                    && (universe_level n1 =? universe_level n2))
          | other => other
          end
    | other => other
    end.

(** [x == y]. Two [Constructor] objects, which define no [__eq__], are
    compared by identity; the two operands of a binary primitive come from
    two evaluations and are never the same object. *)
Definition py_eq (a b : Value) : Res Value :=
  match as_int a, as_int b with
  | Some x, Some y => Ok (VBool (x =? y))
  | _, _ =>
      if is_number a && is_number b then Raise Unsupported
      else
        match a, b with
        | VNone, VNone => Ok (VBool true)
        | VStr s, VStr t => Ok (VBool (pystr_eqb s t))
        | VNode n1, VNode n2 =>
            match node_eq n1 n2 with
            | Some r => Ok (VBool r)
            | None => Raise Unsupported
            end
        | _, _ => Ok (VBool false)
        end
  end.

(** [s < t] on strings: lexicographic on code points. *)
Fixpoint pystr_ltb (s t : pystr) : bool :=
  match s, t with
  | _, [] => false
  | [], _ :: _ => true
  | c :: s', d :: t' => (c <? d) || ((c =? d) && pystr_ltb s' t')
  end.

(** [x < y]. *)
Definition py_lt (a b : Value) : Res Value :=
  match as_int a, as_int b with
  | Some x, Some y => Ok (VBool (x <? y))
  | _, _ =>
      match a, b with
      | VStr s, VStr t => Ok (VBool (pystr_ltb s t))
      | _, _ => non_int_arith a b
      end
  end.

(** [x > y]. *)
Definition py_gt (a b : Value) : Res Value := py_lt b a.

(** [x and y], [x or y]. *)
Definition py_and (a b : Value) : Value := if truthy a then b else a.
Definition py_or (a b : Value) : Value := if truthy a then a else b.

(** [-x]. *)
Definition py_neg (a : Value) : Res Value :=
  match as_int a with
  | Some x => Ok (VInt (- x))
  | None => if is_float a then Raise Unsupported else Raise TypeError
  end.

(** [len(x)]: only a [str] has a length among the values. *)
Definition py_len (a : Value) : Res Value :=
  match a with
  | VStr s => Ok (VInt (Z.of_nat (length s)))
  | _ => Raise TypeError
  end.

(* ================================================================== *)
(** ** xi.py: the interpreter *)
(* ================================================================== *)

(** The state of an interpreter object: its [reductions] counter and what
    it has printed so far. *)
Record IState : Type := mkIState {
  reductions : Z;
  printed : list Value
}.

Definition M (A : Type) : Type := IState -> Res (A * IState).

Definition ret {A : Type} (a : A) : M A := fun st => Ok (a, st).
Definition raise {A : Type} (e : PyExn) : M A := fun _ => Raise e.
Definition lift {A : Type} (r : Res A) : M A :=
  fun st => match r with Ok a => Ok (a, st) | Raise e => Raise e end.
Definition bind {A B : Type} (m : M A) (k : A -> M B) : M B :=
  fun st =>
    match m st with
    | Ok (a, st') => k a st'
    | Raise e => Raise e
    end.

Notation "'let!' x ':=' m 'in' k" := (bind m (fun x => k))
  (at level 10, x pattern, m at level 100, k at level 200).

(** [self.reductions += 1]. *)
Definition tick : M unit :=
  fun st => Ok (tt, mkIState (reductions st + 1) (printed st)).

(** [print(val)]. *)
Definition print (v : Value) : M unit :=
  fun st => Ok (tt, mkIState (reductions st) (printed st ++ [v])).

(** [n.children[i]]. *)
Definition child (n : Node) (i : nat) : Res Node :=
  match children n !! i with
  | Some c => Ok c
  | None => Raise IndexError
  end.

(** The string [f"𝒰{level}"] a Universe node evaluates to. *)
Definition universe_name (level : Z) : pystr := 0x1D4B0 :: str_of_int level.

Module Interpreter.

(** [_apply_unary]. *)
Definition _apply_unary (op : option Z) (val : Value) : M Value :=
  if op_is op PrimOp.PRINT then
    let! _ := print val in ret VNone
  else if op_is op PrimOp.INT_NEG then lift (py_neg val)
  else if op_is op PrimOp.BOOL_NOT then ret (VBool (negb (truthy val)))
  else if op_is op PrimOp.STR_LEN then lift (py_len val)
  else raise (XiError UnknownUnaryOp).

(** [_apply_binary]: a lookup in the table [ops]. *)
Definition _apply_binary (op : option Z) (a b : Value) : Res Value :=
  if op_is op PrimOp.INT_ADD then py_add a b
  else if op_is op PrimOp.INT_SUB then py_sub a b
  else if op_is op PrimOp.INT_MUL then py_mul a b
  else if op_is op PrimOp.INT_DIV then py_floordiv a b
  else if op_is op PrimOp.INT_MOD then py_mod a b
  else if op_is op PrimOp.INT_EQ then py_eq a b
  else if op_is op PrimOp.INT_LT then py_lt a b
  else if op_is op PrimOp.INT_GT then py_gt a b
  else if op_is op PrimOp.BOOL_AND then Ok (py_and a b)
  else if op_is op PrimOp.BOOL_OR then Ok (py_or a b)
  else if op_is op PrimOp.STR_CONCAT then
    let* s := py_str a in
    let* t := py_str b in
    Ok (VStr (s ++ t))
  else Raise (XiError UnknownBinaryOp).

(** [_substitute(node, idx, val)]. A variable node compares its payload
    with [idx]: [==] first, then [>], which raises on [None] and on a
    [str]. The recursion depth the method needs is not part of this
    definition ([Frames._substitute] has it). *)
Fixpoint _substitute (node : Node) (idx : Z) (val : Node) : Res Node :=
  if tag_eqb (tag node) PRIM && op_is (prim_op node) PrimOp.VAR then
    match data node with
    | DInt _ | DBool _ =>
        let d := default 0 (data_as_int (data node)) in
        if d =? idx then Ok val
        else if d >? idx then
          Ok (mkNode PRIM [] (Some PrimOp.VAR) (DInt (d - 1)) 0 0)
        else Ok node
    | DFloat _ => Raise Unsupported
    | DNone | DStr _ => Raise TypeError
    end
  else
    let* new_children :=
      (fix subst_children (i : nat) (cs : list Node) : Res (list Node) :=
         match cs with
         | [] => Ok []
         | c :: cs' =>
             let* c' :=
               if (tag_eqb (tag node) LAM || tag_eqb (tag node) FIX)
                  && Nat.eqb i 1
               then _substitute c (idx + 1) val
               else _substitute c idx val in
             let* r := subst_children (S i) cs' in
             Ok (c' :: r)
         end) O (children node) in
    Ok (mkNode (tag node) new_children (prim_op node) (data node)
          (effect node) (universe_level node)).

(** [_to_node]: the [isinstance(value, int)] test comes before the one
    for [bool], so a [bool] becomes an integer literal that carries it. *)
Definition _to_node (value : Value) : Node :=
  match value with
  | VNode n => n
  | VInt z => B.lit PrimOp.INT_LIT (DInt z)
  | VBool b => B.lit PrimOp.INT_LIT (DBool b)
  | VFloat f => B.lit PrimOp.FLOAT_LIT (DFloat f)
  | VStr s => B.str_lit s
  | VNone | VConstr _ _ => B.unit
  end.

Section Eval.
(** [self._eval] one recursion level deeper. *)
Variable _eval : Node -> M Value.

(** The body of [_eval], after [self.reductions += 1]. *)
Definition eval_node (n : Node) : M Value :=
  match tag n with
  | EFF =>
      let! c := lift (child n 0) in
      _eval c
  | APP =>
      let! func := lift (child n 0) in
      let! arg := lift (child n 1) in
      let! val := _eval arg in
      if tag_eqb (tag func) PRIM then
        _apply_unary (prim_op func) val
      else
        let! curried :=
          if tag_eqb (tag func) APP then
            let! f0 := lift (child func 0) in
            ret (if tag_eqb (tag f0) PRIM then Some f0 else None)
          else ret None in
        match curried with
        | Some f0 =>
            let! l := lift (child func 1) in
            let! lhs := _eval l in
            lift (_apply_binary (prim_op f0) lhs val)
        | None =>
            if tag_eqb (tag func) LAM then
              let! body := lift (child func 1) in
              let! substituted :=
                lift (_substitute body 0 (_to_node val)) in
              _eval substituted
            else raise (XiError CannotApply)
        end
  | PRIM =>
      if op_is (prim_op n) PrimOp.STR_LIT then ret (value_of_data (data n))
      else if op_is (prim_op n) PrimOp.INT_LIT
      then ret (value_of_data (data n))
      else if op_is (prim_op n) PrimOp.FLOAT_LIT
      then ret (value_of_data (data n))
      else if op_is (prim_op n) PrimOp.UNIT then ret VNone
      else if op_is (prim_op n) PrimOp.BOOL_TRUE then ret (VBool true)
      else if op_is (prim_op n) PrimOp.BOOL_FALSE then ret (VBool false)
      else if op_is (prim_op n) PrimOp.VAR
      then raise (XiError UnboundVariable)
      else ret (VNode n)
  | LAM => ret (VNode n)
  | FIX =>
      let! body := lift (child n 1) in
      let! unfolded := lift (_substitute body 0 n) in
      _eval unfolded
  | UNI => ret (VStr (universe_name (universe_level n)))
  | PI => ret (VNode n)
  | SIG | IND | EQ => raise (XiError CannotEvaluate)
  end.

Definition eval_step (n : Node) : M Value :=
  let! _ := tick in eval_node n.
End Eval.

(** [_eval], with [depth] recursion levels left. *)
Fixpoint _eval (depth : nat) (n : Node) : M Value :=
  match depth with
  | O => raise RecursionError
  | S depth' => eval_step (_eval depth') n
  end.

(** [run]: reset the counter, then evaluate. *)
Definition run (depth : nat) (node : Node) : M Value :=
  fun st => _eval depth node (mkIState 0 (printed st)).

End Interpreter.

(** A freshly created interpreter object, and the value a computation
    started on it returns. *)
Definition fresh : IState := mkIState 0 [].

Definition result {A : Type} (m : M A) : Res A :=
  let* (a, _) := m fresh in Ok a.

Definition result_value := @result Value.

(* ================================================================== *)
(** ** xi_match.py: constructors, match and the extended interpreter *)
(* ================================================================== *)

(** [constr(index, *args)]. *)
Definition constr (index : Data) (args : list Node) : Node :=
  fold_left B.app args (B.lit CONSTR index).

(** [match_expr(scrutinee, branches)]. *)
Definition match_expr (scrutinee : Node) (branches : list Node) : Node :=
  fold_left B.app branches
    (B.app (B.lit MATCH (DInt (Z.of_nat (length branches)))) scrutinee).

(** The loop shared by [Constructor.from_node], [_build_constructor] and
    [_decompose_match]:
    [while current.tag == APP: args.insert(0, current.children[1]);
     current = current.children[0]].
    It returns the head reached and the arguments collected. *)
Fixpoint app_spine (current : Node) (args : list Node)
    : Res (Node * list Node) :=
  match current with
  | mkNode APP (f :: a :: _) _ _ _ _ => app_spine f (a :: args)
  | mkNode APP _ _ _ _ _ => Raise IndexError
  | _ => Ok (current, args)
  end.

(** The loop of [_is_constr_chain]:
    [while current.tag == APP: current = current.children[0]]. *)
Fixpoint app_head (current : Node) : Res Node :=
  match current with
  | mkNode APP (f :: _) _ _ _ _ => app_head f
  | mkNode APP [] _ _ _ _ => Raise IndexError
  | _ => Ok current
  end.

(** [Constructor.from_node]: [None] when the head is not a constructor. *)
Definition from_node (node : Node) : Res (option (Data * list Node)) :=
  let* (current, args) := app_spine node [] in
  if tag_eqb (tag current) PRIM && op_is (prim_op current) CONSTR
  then Ok (Some (data current, args))
  else Ok None.

(** [_is_constr_chain]. *)
Definition _is_constr_chain (node : Node) : Res bool :=
  let* current := app_head node in
  Ok (tag_eqb (tag current) PRIM && op_is (prim_op current) CONSTR).

(** [apps[1:stop]]: a negative [stop] counts from the end. *)
Definition slice_from_1 (apps : list Node) (stop : Z) : list Node :=
  let len := Z.of_nat (length apps) in
  let stop' := if stop <? 0 then Z.max 0 (stop + len) else Z.min stop len in
  take (Z.to_nat (stop' - 1)) (drop 1 apps).

(** [_decompose_match]: the scrutinee and the branches, or [None]. *)
Definition _decompose_match (node : Node)
    : Res (option (Node * list Node)) :=
  let* (current, apps) := app_spine node [] in
  if tag_eqb (tag current) PRIM && op_is (prim_op current) MATCH then
    match data current with
    | DInt _ | DBool _ =>
        let num := default 0 (data_as_int (data current)) in
        if 1 + num <=? Z.of_nat (length apps) then
          match apps with
          | scrutinee :: _ => Ok (Some (scrutinee, slice_from_1 apps (1 + num)))
          | [] => Raise IndexError
          end
        else Ok None
    | DFloat _ => Raise Unsupported
    | DNone | DStr _ => Raise TypeError
    end
  else Ok None.

(** [node_label(n)] raises when it formats the op code of a Primitive
    node that has none. *)
Definition node_label_raises (n : Node) : bool :=
  tag_eqb (tag n) PRIM
  && match prim_op n with None => true | Some _ => false end.

Module MatchInterpreter.

Definition reduction_limit : Z := 5000000.

(** [self.reductions += 1], then the check against the limit. *)
Definition count_step : M unit :=
  let! _ := tick in
  fun st =>
    if reduction_limit <? reductions st
    then Raise (XiError ReductionLimit)
    else Ok (tt, st).

(** [_to_node]: a [Constructor] becomes its application chain. *)
Definition _to_node (value : Value) : Node :=
  match value with
  | VConstr index args => constr index args
  | _ => Interpreter._to_node value
  end.

Section Eval.
(** [self._eval] one recursion level deeper. *)
Variable _eval : Node -> M Value.

(** [[self._to_node(self._eval(a)) for a in args]]. *)
Fixpoint eval_args (args : list Node) : M (list Node) :=
  match args with
  | [] => ret []
  | a :: rest =>
      let! v := _eval a in
      let! vs := eval_args rest in
      ret (_to_node v :: vs)
  end.

(** [_build_constructor]. *)
Definition _build_constructor (node : Node) : M (Data * list Node) :=
  let! (current, args) := lift (app_spine node []) in
  let idx := data current in
  let! evaled := eval_args args in
  ret (idx, evaled).

(** [_reduce_match]. *)
Definition _reduce_match (scrutinee : Node) (branches : list Node)
    : M Value :=
  let! val := _eval scrutinee in
  let! (idx, args) :=
    match val with
    | VConstr index args => ret (index, args)
    | VNode n =>
        let! c := lift (from_node n) in
        match c with
        | Some (index, args) => ret (index, args)
        | None =>
            if node_label_raises n then raise TypeError
            else raise (XiError MatchNonConstructor)
        end
    | VBool b => ret (DInt (if b then 0 else 1), [])
    | VInt z => ret (DInt z, [])
    | VNone | VFloat _ | VStr _ => raise (XiError MatchNonConstructor)
    end in
  match idx with
  | DInt _ | DBool _ =>
      let i := default 0 (data_as_int idx) in
      if (i <? 0) || (Z.of_nat (length branches) <=? i) then
        raise (XiError ConstructorOutOfRange)
      else
        match branches !! Z.to_nat i with
        | Some branch => _eval (fold_left B.app args branch)
        | None => raise IndexError
        end
  | DFloat _ => raise Unsupported
  | DNone | DStr _ => raise TypeError
  end.

(** [_eval_app]. *)
Definition _eval_app (n : Node) : M Value :=
  let! func := lift (child n 0) in
  let! arg := lift (child n 1) in
  (* 1. Match expression? *)
  let! match_info := lift (_decompose_match n) in
  match match_info with
  | Some (scrutinee, branches) => _reduce_match scrutinee branches
  | None =>
  (* 2. Direct constructor *)
  if tag_eqb (tag func) PRIM && op_is (prim_op func) CONSTR then
    let! val := _eval arg in
    ret (VConstr (data func) [_to_node val])
  else
  (* 3. Multi-arg constructor chain *)
  let! chain := lift (_is_constr_chain func) in
  if chain then
    let! (index, args) := _build_constructor func in
    let! val := _eval arg in
    ret (VConstr index (args ++ [_to_node val]))
  else
  (* 4. Lambda *)
  if tag_eqb (tag func) LAM then
    let! val := _eval arg in
    let! body := lift (child func 1) in
    let! substituted :=
      lift (Interpreter._substitute body 0 (_to_node val)) in
    _eval substituted
  else
  (* 5. Direct unary primitive *)
  if tag_eqb (tag func) PRIM && negb (op_is (prim_op func) MATCH) then
    let! val := _eval arg in
    Interpreter._apply_unary (prim_op func) val
  else
  (* 6. Binary primitive *)
  let! binary :=
    if tag_eqb (tag func) APP then
      let! f0 := lift (child func 0) in
      ret (if tag_eqb (tag f0) PRIM
              && negb (op_is (prim_op f0) CONSTR)
              && negb (op_is (prim_op f0) MATCH)
           then Some (prim_op f0) else None)
    else ret None in
  match binary with
  | Some op =>
      let! val := _eval arg in
      let! l := lift (child func 1) in
      let! lhs := _eval l in
      lift (Interpreter._apply_binary op lhs val)
  | None =>
  (* 7. Evaluate func, then retry *)
  let! val := _eval arg in
  let! evaled_func := _eval func in
  match evaled_func with
  | VNode f => _eval (B.app f (_to_node val))
  | VConstr index args => ret (VConstr index (args ++ [_to_node val]))
  | _ => raise (XiError CannotApply)
  end
  end
  end.

(** The body of [_eval], after the counter and its limit. *)
Definition eval_node (n : Node) : M Value :=
  match tag n with
  | EFF =>
      let! c := lift (child n 0) in
      _eval c
  | PRIM =>
      if op_is (prim_op n) PrimOp.STR_LIT then ret (value_of_data (data n))
      else if op_is (prim_op n) PrimOp.INT_LIT
      then ret (value_of_data (data n))
      else if op_is (prim_op n) PrimOp.FLOAT_LIT
      then ret (value_of_data (data n))
      else if op_is (prim_op n) PrimOp.UNIT then ret VNone
      else if op_is (prim_op n) PrimOp.BOOL_TRUE then ret (VBool true)
      else if op_is (prim_op n) PrimOp.BOOL_FALSE then ret (VBool false)
      else if op_is (prim_op n) PrimOp.VAR
      then raise (XiError UnboundVariable)
      else ret (VNode n)
  | LAM => ret (VNode n)
  | UNI => ret (VStr (universe_name (universe_level n)))
  | PI | SIG => ret (VNode n)
  | IND => ret (VNode n)
  | FIX =>
      let! body := lift (child n 1) in
      let! unfolded := lift (Interpreter._substitute body 0 n) in
      _eval unfolded
  | APP => _eval_app n
  | EQ => raise (XiError CannotEvaluate)
  end.

Definition eval_step (n : Node) : M Value :=
  let! _ := count_step in eval_node n.
End Eval.

(** [_eval], with [depth] recursion levels left: a level is a call of
    [_eval]. An application goes through [_eval_app] before it comes back
    to [_eval], so in Python a level takes up to two frames here, where it
    takes one in [Interpreter]. *)
Fixpoint _eval (depth : nat) (n : Node) : M Value :=
  match depth with
  | O => raise RecursionError
  | S depth' => eval_step (_eval depth') n
  end.

(** [run], inherited from [Interpreter]. *)
Definition run (depth : nat) (node : Node) : M Value :=
  fun st => _eval depth node (mkIState 0 (printed st)).

End MatchInterpreter.

(** *** Standard types and recursive functions of xi_match.py *)

Definition NAT_ZERO : Node := constr (DInt 0) [].
Definition nat_succ (n : Node) : Node := constr (DInt 1) [n].

(** [nat(v)]. *)
Fixpoint nat_ (v : nat) : Node :=
  match v with
  | O => NAT_ZERO
  | S v' => nat_succ (nat_ v')
  end.

Definition nat_match (s zb sb : Node) : Node := match_expr s [zb; sb].

(** add = mu self. \n. \m. match n { zero -> m | succ k -> succ(self k m) } *)
Definition build_nat_add : Node :=
  let zero_branch := B.var 0 in
  let succ_branch :=
    B.lam (B.universe 0)
      (nat_succ (B.app (B.app (B.var 3) (B.var 0)) (B.var 1))) in
  let body :=
    B.lam (B.universe 0) (B.lam (B.universe 0)
      (nat_match (B.var 1) zero_branch succ_branch)) in
  B.fix_ (B.universe 0) body.

(** mul = mu self. \n. \m. match n { zero -> zero
                                   | succ k -> add m (self k m) } *)
Definition build_nat_mul : Node :=
  let add := build_nat_add in
  let succ_branch :=
    B.lam (B.universe 0)
      (B.app (B.app add (B.var 1))
             (B.app (B.app (B.var 3) (B.var 0)) (B.var 1))) in
  let body :=
    B.lam (B.universe 0) (B.lam (B.universe 0)
      (nat_match (B.var 1) NAT_ZERO succ_branch)) in
  B.fix_ (B.universe 0) body.

(** fact = mu self. \n. match n { zero -> 1
                                | succ k -> mul (succ k) (self k) } *)
Definition build_factorial : Node :=
  let mul := build_nat_mul in
  let succ_branch :=
    B.lam (B.universe 0)
      (B.app (B.app mul (nat_succ (B.var 0))) (B.app (B.var 2) (B.var 0))) in
  let body :=
    B.lam (B.universe 0)
      (nat_match (B.var 0) (nat_succ NAT_ZERO) succ_branch) in
  B.fix_ (B.universe 0) body.

(** [nat_to_int(interp, val)]: the loop runs at most [limit] times; a
    constructor argument is evaluated with [interp._eval]. *)
Fixpoint nat_to_int_loop (limit : nat) (depth : nat) (count : Z)
    (current : Value) : M Z :=
  match limit with
  | O => ret count
  | S limit' =>
      match current with
      | VConstr index args =>
          match data_eq index (DInt 0), data_eq index (DInt 1) with
          | Some true, _ => ret count
          | Some false, Some true =>
              match args with
              | a :: _ =>
                  let! v := MatchInterpreter._eval depth a in
                  nat_to_int_loop limit' depth (count + 1) v
              | [] => ret (count + 1)
              end
          | Some false, Some false => ret count
          | _, _ => raise Unsupported
          end
      | VNode n =>
          let! c := lift (from_node n) in
          match c with
          | Some (index, args) =>
              nat_to_int_loop limit' depth count (VConstr index args)
          | None => ret count
          end
      | VInt z => ret (count + z)
      | VBool b => ret (count + Z.b2z b)
      | VNone | VFloat _ | VStr _ => ret count
      end
  end.

Definition nat_to_int (depth : nat) (val : Value) : M Z :=
  nat_to_int_loop (Z.to_nat 100000) depth 0 val.

(* ================================================================== *)
(** ** Graphs as objects in a store *)
(* ================================================================== *)

(** A [Node] object: as [Node], with its children given by address. *)
Record Obj : Type := mkObj {
  o_tag : Tag;
  o_children : list nat;
  o_prim_op : option Z;
  o_data : Data;
  o_effect : Z;
  o_universe_level : Z
}.

(** The store: [id(node)] is the position of the object in it. Creating a
    node appends an object; nothing is ever removed or overwritten. *)
Definition Store : Type := list Obj.

Definition get (s : Store) (a : nat) : Res Obj :=
  match s !! a with
  | Some o => Ok o
  | None => Raise KeyError
  end.

(** [Node(...)]: the new store and the address of the new object. *)
Definition alloc (s : Store) (o : Obj) : Store * nat := (s ++ [o], length s).

(** Running [f] over a list, left to right, threading an accumulator and
    stopping at the first exception. *)
Fixpoint foldM {A X : Type} (f : A -> X -> Res A) (xs : list X) (a : A)
    : Res A :=
  match xs with
  | [] => Ok a
  | x :: xs' => let* a' := f a x in foldM f xs' a'
  end.

(** [mapM f xs]: [[f(x) for x in xs]]. *)
Fixpoint mapM {X Y : Type} (f : X -> Res Y) (xs : list X) : Res (list Y) :=
  match xs with
  | [] => Ok []
  | x :: xs' => let* y := f x in let* ys := mapM f xs' in Ok (y :: ys)
  end.

(** The tree an address unfolds to; [depth] bounds the recursion. *)
Fixpoint node_of (depth : nat) (s : Store) (a : nat) : Res Node :=
  match depth with
  | O => Raise RecursionError
  | S depth' =>
      let* o := get s a in
      let* cs := mapM (node_of depth' s) (o_children o) in
      Ok (mkNode (o_tag o) cs (o_prim_op o) (o_data o) (o_effect o)
            (o_universe_level o))
  end.

(** Building a tree in the store, one fresh object per node (no sharing),
    children first. *)
Fixpoint build (n : Node) (s : Store) : Store * nat :=
  let '(s', cs) :=
    (fix build_children (cs : list Node) (s : Store) : Store * list nat :=
       match cs with
       | [] => (s, [])
       | c :: cs' =>
           let '(s1, a) := build c s in
           let '(s2, r) := build_children cs' s1 in
           (s2, a :: r)
       end) (children n) s in
  alloc s' (mkObj (tag n) cs (prim_op n) (data n) (effect n)
              (universe_level n)).

(** [content_hash] of the node at an address. *)
Definition content_hash_at (depth : nat) (s : Store) (a : nat)
    : Res (list byte) :=
  let* n := node_of depth s a in content_hash n.

(* ================================================================== *)
(** ** xi.py: serialize *)
(* ================================================================== *)

(** [collect(node)]: post-order, each object once, by identity. *)
Fixpoint collect (depth : nat) (s : Store) (st : gset nat * list nat)
    (node : nat) : Res (gset nat * list nat) :=
  match depth with
  | O => Raise RecursionError
  | S depth' =>
      let '(visited, nodes) := st in
      if bool_decide (node ∈ visited) then Ok st
      else
        let* o := get s node in
        let* (visited', nodes') :=
          foldM (collect depth' s) (o_children o)
            ({[node]} ∪ visited, nodes) in
        Ok (visited', nodes' ++ [node])
  end.

(** [{id(n): i for i, n in enumerate(nodes)}]. *)
Definition enumerate_index (nodes : list nat) : gmap nat nat :=
  list_to_map (zip nodes (seq 0 (length nodes))).

Definition index_lookup (index_of : gmap nat nat) (a : nat) : Res Z :=
  match index_of !! a with
  | Some i => Ok (Z.of_nat i)
  | None => Raise KeyError
  end.

(** The payload bytes of a Primitive node with an op code. *)
Definition prim_payload (op : Z) (d : Data) : Res (list byte) :=
  let* ob := bytes1 op in
  let* db :=
    match d with
    | DNone => Ok []
    | DStr str =>
        let* enc := utf8_encode str in
        let* len := int_to_bytes 2 false (Z.of_nat (length enc)) in
        Ok (len ++ enc)
    | DInt _ | DBool _ =>
        let z := default 0 (data_as_int d) in
        if op =? PrimOp.INT_LIT then int_to_bytes 8 true z
        else if op =? PrimOp.VAR then int_to_bytes 2 false z
        else Ok []
    | DFloat bits => Ok (be_bytes 8 bits)
    end in
  Ok (ob ++ db).

(** The record of one node. *)
Definition node_record (index_of : gmap nat nat) (o : Obj)
    : Res (list byte) :=
  let* hd :=
    bytes1 (header_byte (o_tag o) (Z.of_nat (length (o_children o)))) in
  let* edges :=
    mapM (fun c => let* i := index_lookup index_of c in
                   int_to_bytes 2 false i) (o_children o) in
  let* p :=
    if tag_eqb (o_tag o) PRIM then
      match o_prim_op o with
      | Some op => prim_payload op (o_data o)
      | None => Ok []
      end
    else Ok [] in
  let* u :=
    if tag_eqb (o_tag o) UNI then int_to_bytes 2 false (o_universe_level o)
    else Ok [] in
  let* e := if tag_eqb (o_tag o) EFF then bytes1 (o_effect o) else Ok [] in
  Ok (hd ++ concat edges ++ p ++ u ++ e).

(** [serialize(root)]. *)
Definition serialize (depth : nat) (s : Store) (root : nat)
    : Res (list byte) :=
  let* (_, nodes) := collect depth s (∅, []) root in
  let index_of := enumerate_index nodes in
  let* count := int_to_bytes 2 false (Z.of_nat (length nodes)) in
  let* ri := index_lookup index_of root in
  let* rootb := int_to_bytes 2 false ri in
  let* records :=
    mapM (fun a => let* o := get s a in node_record index_of o) nodes in
  Ok (MAGIC ++ [byte_of_Z FORMAT_VERSION] ++ count ++ rootb
        ++ concat records).

(* ================================================================== *)
(** ** xi_deserialize.py *)
(* ================================================================== *)

Definition tag_map (tag_val : Z) : option Tag :=
  if tag_val =? 0 then Some LAM else if tag_val =? 1 then Some APP
  else if tag_val =? 2 then Some PI else if tag_val =? 3 then Some SIG
  else if tag_val =? 4 then Some UNI else if tag_val =? 5 then Some FIX
  else if tag_val =? 6 then Some IND else if tag_val =? 7 then Some EQ
  else if tag_val =? 8 then Some EFF else if tag_val =? 9 then Some PRIM
  else None.

(** [struct.unpack('>d', bs)]: exactly eight bytes. *)
Definition unpack_double (bs : list byte) : Res Z :=
  if Nat.eqb (length bs) 8 then Ok (int_from_bytes false bs)
  else Raise StructError.

(** Reading [arity] child indices from [pos]. *)
Fixpoint read_children (data : list byte) (arity : nat) (pos : nat)
    : list nat * nat :=
  match arity with
  | O => ([], pos)
  | S k =>
      let idx := Z.to_nat (int_from_bytes false (slice data pos 2)) in
      let '(rest, pos') := read_children data k (pos + 2) in
      (idx :: rest, pos')
  end.

(** The payload of a Primitive node at [pos]: op code, data, new [pos]. *)
Definition read_prim (data : list byte) (pos : nat)
    : Res (Z * Data * nat) :=
  let* prim_op := byte_at data pos in
  let pos := (pos + 1)%nat in
  if prim_op =? PrimOp.INT_LIT then
    Ok (prim_op, DInt (int_from_bytes true (slice data pos 8)), (pos + 8)%nat)
  else if prim_op =? PrimOp.FLOAT_LIT then
    let* bits := unpack_double (slice data pos 8) in
    Ok (prim_op, DFloat bits, (pos + 8)%nat)
  else if prim_op =? PrimOp.STR_LIT then
    let str_len := Z.to_nat (int_from_bytes false (slice data pos 2)) in
    let pos := (pos + 2)%nat in
    let* str := utf8_decode (slice data pos str_len) in
    Ok (prim_op, DStr str, (pos + str_len)%nat)
  else if prim_op =? PrimOp.VAR then
    Ok (prim_op, DInt (int_from_bytes false (slice data pos 2)),
        (pos + 2)%nat)
  else Ok (prim_op, DNone, pos).

(** One iteration of the reading loop: the node record at [pos]. The
    object's children are its [_child_indices] for now. *)
Definition read_node (data : list byte) (pos : nat) : Res (Obj * nat) :=
  if (length data <=? pos)%nat then Raise (DeserializeError UnexpectedEOF)
  else
    let* tag_arity := byte_at data pos in
    let pos := (pos + 1)%nat in
    let tag_val := Z.land (Z.shiftr tag_arity 4) 0x0F in
    let arity := Z.land tag_arity 0x0F in
    match tag_map tag_val with
    | None => Raise (DeserializeError UnknownTag)
    | Some tag =>
        let '(child_indices, pos) :=
          read_children data (Z.to_nat arity) pos in
        match tag with
        | PRIM =>
            let* (prim_op, node_data, pos) := read_prim data pos in
            Ok (mkObj tag child_indices (Some prim_op) node_data 0 0, pos)
        | UNI =>
            let universe_level := int_from_bytes false (slice data pos 2) in
            Ok (mkObj tag child_indices None DNone 0 universe_level,
                (pos + 2)%nat)
        | EFF =>
            let* effect := byte_at data pos in
            Ok (mkObj tag child_indices None DNone effect 0, (pos + 1)%nat)
        | _ => Ok (mkObj tag child_indices None DNone 0 0, pos)
        end
    end.

(** [for i in range(node_count)]: the table [nodes]. *)
Fixpoint read_nodes (data : list byte) (node_count : nat) (pos : nat)
    (nodes : list Obj) : Res (list Obj) :=
  match node_count with
  | O => Ok nodes
  | S k =>
      let* (node, pos') := read_node data pos in
      read_nodes data k pos' (nodes ++ [node])
  end.

(** [node.children = [nodes[idx] for idx in node._child_indices]]: every
    index must be in the table. *)
Definition resolve (nodes : list Obj) : Res unit :=
  foldM (fun _ node =>
           foldM (fun _ idx =>
                    if (idx <? length nodes)%nat then Ok tt
                    else Raise IndexError) (o_children node) tt)
        nodes tt.

(** [deserialize(data)]: the objects it creates, which are the entries of
    its node table in order, and the address of the one it returns. *)
Definition deserialize (data : list byte) : Res (Store * nat) :=
  if (length data <? 7)%nat then Raise (DeserializeError FileTooShort)
  else if negb (bytes_eqb (slice data 0 2) MAGIC)
  then Raise (DeserializeError InvalidMagic)
  else
    let* version := byte_at data 2 in
    if negb (version =? FORMAT_VERSION)
    then Raise (DeserializeError UnsupportedVersion)
    else
      let node_count := Z.to_nat (int_from_bytes false (slice data 3 2)) in
      let root_index := Z.to_nat (int_from_bytes false (slice data 5 2)) in
      let* nodes := read_nodes data node_count 7 [] in
      let* _ := resolve nodes in
      if (root_index <? length nodes)%nat then Ok (nodes, root_index)
      else Raise IndexError.

(* ================================================================== *)
(** ** xi_optimizer.py *)
(* ================================================================== *)

(** [class OptimizerStats]. *)
Record OptimizerStats : Type := mkStats {
  dead_eliminated : Z;
  cse_shared : Z;
  constants_folded : Z
}.

(** *** Pass 1: dead node elimination *)

(** The loop [while stack: node = stack.pop(); ...] that collects the ids
    reachable from the stack. [bound] is a bound on the number of
    iterations. *)
Fixpoint reach_loop (bound : nat) (s : Store) (stack : list nat)
    (visited : gset nat) : Res (gset nat) :=
  match bound with
  | O => Ok visited
  | S bound' =>
      match reverse stack with
      | [] => Ok visited
      | node :: rest =>
          let stack' := reverse rest in
          if bool_decide (node ∈ visited)
          then reach_loop bound' s stack' visited
          else
            let* o := get s node in
            reach_loop bound' s (stack' ++ o_children o)
              ({[node]} ∪ visited)
      end
  end.

(** Every iteration pops one entry, and an object pushes its children at
    most once: one more than the number of edges of the store bounds the
    number of iterations. *)
Definition loop_bound (s : Store) : nat :=
  S (foldr (fun o acc => (length (o_children o) + acc)%nat) O s).

(** [_collect_reachable(root)]. *)
Definition _collect_reachable (s : Store) (root : nat) : Res (gset nat) :=
  reach_loop (loop_bound s) s [root] ∅.

(** [eliminate_dead_nodes(root, stats)]: both counts are taken from the
    root, and the root is returned as it is. *)
Definition eliminate_dead_nodes (s : Store) (root : nat)
    (stats : OptimizerStats) : Res (nat * Z * OptimizerStats) :=
  let* all_nodes := reach_loop (loop_bound s) s [root] ∅ in
  let* reachable := _collect_reachable s root in
  let removed := Z.of_nat (size all_nodes) - Z.of_nat (size reachable) in
  Ok (root, removed,
      mkStats (dead_eliminated stats + removed) (cse_shared stats)
        (constants_folded stats)).

(** *** Pass 2: common subexpression elimination *)

(** The structural key: one of four tuples. *)
Inductive Key : Type :=
  | KPrim (op : option Z) (d : Data) (ar : nat)  (* (PRIM, op, data, arity) *)
  | KUni (level : Z)                             (* (UNI, level) *)
  | KEff (eff : Z) (child_keys : list nat)       (* (EFF, effect, ids) *)
  | KNode (t : Tag) (child_keys : list nat).     (* (tag, ids) *)

(** [_structural_key(node)]. *)
Definition _structural_key (node : Obj) : Key :=
  match o_tag node with
  | PRIM => KPrim (o_prim_op node) (o_data node) (length (o_children node))
  | UNI => KUni (o_universe_level node)
  | EFF => KEff (o_effect node) (o_children node)
  | t => KNode t (o_children node)
  end.

(** Equality of keys as dictionary keys: tuples of different shapes
    differ; payloads compare with [==]. *)
Definition key_eq (k1 k2 : Key) : option bool :=
  match k1, k2 with
  | KPrim op1 d1 a1, KPrim op2 d2 a2 =>
      if negb (opt_eqb op1 op2) then Some false
      else
        match data_eq d1 d2 with
        | Some true => Some (Nat.eqb a1 a2)
        | other => other
        end
  | KUni l1, KUni l2 => Some (l1 =? l2)
  | KEff e1 c1, KEff e2 c2 => Some ((e1 =? e2) && bool_decide (c1 = c2))
  | KNode t1 c1, KNode t2 c2 => Some (tag_eqb t1 t2 && bool_decide (c1 = c2))
  | _, _ => Some false
  end.

(** [canonical.get(key)] in the dictionary [canonical]. *)
Fixpoint canonical_lookup (canonical : list (Key * nat)) (key : Key)
    : Res (option nat) :=
  match canonical with
  | [] => Ok None
  | (k, v) :: rest =>
      match key_eq k key with
      | Some true => Ok (Some v)
      | Some false => canonical_lookup rest key
      | None => Raise Unsupported
      end
  end.

(** The state of the loop of [cse]. *)
Record CseState : Type := mkCse {
  cse_store : Store;
  canonical : list (Key * nat);
  replacement : gmap nat nat;
  shared_count : Z
}.

(** One iteration of [for node in order]. *)
Definition cse_step (st : CseState) (node : nat) : Res CseState :=
  let s := cse_store st in
  let* o := get s node in
  (* First, replace children with canonical versions *)
  let new_children :=
    map (fun c => default c (replacement st !! c)) (o_children o) in
  let changed := negb (bool_decide (new_children = o_children o)) in
  let '(s', new_node) :=
    if changed then
      alloc s (mkObj (o_tag o) new_children (o_prim_op o) (o_data o)
                 (o_effect o) (o_universe_level o))
    else (s, node) in
  let* o' := get s' new_node in
  (* Compute structural key with canonical children *)
  let key := _structural_key o' in
  let* found := canonical_lookup (canonical st) key in
  match found with
  | Some c =>
      Ok (mkCse s' (canonical st) (<[node := c]> (replacement st))
            (shared_count st + 1))
  | None =>
      Ok (mkCse s' (canonical st ++ [(key, new_node)])
            (<[node := new_node]> (replacement st)) (shared_count st))
  end.

(** [cse(root, stats)]. *)
Definition cse (depth : nat) (s : Store) (root : nat)
    (stats : OptimizerStats) : Res (Store * nat * OptimizerStats) :=
  let* (_, order) := collect depth s (∅, []) root in
  let* st := foldM cse_step order (mkCse s [] ∅ 0) in
  Ok (cse_store st, default root (replacement st !! root),
      mkStats (dead_eliminated stats) (cse_shared stats + shared_count st)
        (constants_folded stats)).

(** *** Pass 3: constant folding *)

Definition _FOLDABLE_BINARY : list Z :=
  [PrimOp.INT_ADD; PrimOp.INT_SUB; PrimOp.INT_MUL; PrimOp.INT_DIV;
   PrimOp.INT_MOD; PrimOp.INT_LT; PrimOp.INT_GT; PrimOp.INT_EQ;
   PrimOp.STR_CONCAT].

Definition _FOLDABLE_UNARY : list Z :=
  [PrimOp.INT_NEG; PrimOp.BOOL_NOT; PrimOp.STR_LEN].

(** [op in ops] for an op code that may be [None]. *)
Definition op_in (op : option Z) (ops : list Z) : bool :=
  match op with
  | Some o => existsb (Z.eqb o) ops
  | None => false
  end.

(** [_is_literal(node)]. *)
Definition _is_literal (node : Obj) : bool :=
  tag_eqb (o_tag node) PRIM
  && op_in (o_prim_op node)
       [PrimOp.INT_LIT; PrimOp.STR_LIT; PrimOp.FLOAT_LIT;
        PrimOp.BOOL_TRUE; PrimOp.BOOL_FALSE; PrimOp.UNIT].

(** [_literal_value(node)]. *)
Definition _literal_value (node : Obj) : Value :=
  if op_is (o_prim_op node) PrimOp.INT_LIT then value_of_data (o_data node)
  else if op_is (o_prim_op node) PrimOp.STR_LIT
  then value_of_data (o_data node)
  else if op_is (o_prim_op node) PrimOp.FLOAT_LIT
  then value_of_data (o_data node)
  else if op_is (o_prim_op node) PrimOp.BOOL_TRUE then VBool true
  else if op_is (o_prim_op node) PrimOp.BOOL_FALSE then VBool false
  else VNone.

(** [_value_to_node(val)]: the new literal object, or [None]. *)
Definition _value_to_node (val : Value) : option Obj :=
  match val with
  | VBool b =>
      Some (mkObj PRIM []
              (Some (if b then PrimOp.BOOL_TRUE else PrimOp.BOOL_FALSE))
              DNone 0 0)
  | VInt z => Some (mkObj PRIM [] (Some PrimOp.INT_LIT) (DInt z) 0 0)
  | VStr str => Some (mkObj PRIM [] (Some PrimOp.STR_LIT) (DStr str) 0 0)
  | VFloat f => Some (mkObj PRIM [] (Some PrimOp.FLOAT_LIT) (DFloat f) 0 0)
  | VNone | VNode _ | VConstr _ _ => None
  end.

(** [s.children[i]] for the object at an address. *)
Definition child_at (s : Store) (a : nat) (i : nat) : Res nat :=
  let* o := get s a in
  match o_children o !! i with
  | Some c => Ok c
  | None => Raise IndexError
  end.

(** The state [fold] threads: the store, the [cache] and the count of
    folded constants. *)
Record FoldState : Type := mkFold {
  fold_store : Store;
  cache : gmap nat nat;
  folded_count : Z
}.

(** The condition of the binary rule, [@(@(prim, lit), lit)]: the
    operator and both operands when it holds. The conjuncts are tested
    left to right. *)
Definition binary_redex (s : Store) (result : nat)
    : Res (option (option Z * Value * Value)) :=
  let* r := get s result in
  if negb (tag_eqb (o_tag r) APP) then Ok None
  else
    let* f := child_at s result 0 in
    let* fo := get s f in
    if negb (tag_eqb (o_tag fo) APP) then Ok None
    else
      let* p := child_at s f 0 in
      let* po := get s p in
      if negb (tag_eqb (o_tag po) PRIM
               && op_in (o_prim_op po) _FOLDABLE_BINARY) then Ok None
      else
        let* l := child_at s f 1 in
        let* lo := get s l in
        if negb (_is_literal lo) then Ok None
        else
          let* a := child_at s result 1 in
          let* ao := get s a in
          if negb (_is_literal ao) then Ok None
          else Ok (Some (o_prim_op po, _literal_value lo, _literal_value ao)).

(** The condition of the unary rule, [@(prim, lit)]. *)
Definition unary_redex (s : Store) (result : nat)
    : Res (option (option Z * Value)) :=
  let* r := get s result in
  if negb (tag_eqb (o_tag r) APP) then Ok None
  else
    let* p := child_at s result 0 in
    let* po := get s p in
    if negb (tag_eqb (o_tag po) PRIM
             && op_in (o_prim_op po) _FOLDABLE_UNARY) then Ok None
    else
      let* a := child_at s result 1 in
      let* ao := get s a in
      if negb (_is_literal ao) then Ok None
      else Ok (Some (o_prim_op po, _literal_value ao)).

(** [try: val = ...; folded = _value_to_node(val) ... except Exception:
    pass]: the literal to put in place of the redex, if any. *)
Definition try_fold (computed : Res Value) : Res (option Obj) :=
  match computed with
  | Ok val => Ok (_value_to_node val)
  | Raise Unsupported => Raise Unsupported
  | Raise _ => Ok None
  end.

(** What [fold] does with [result] once the children are folded. *)
Definition fold_result (st : FoldState) (nid result : nat) : Res (FoldState * nat) :=
  let s := fold_store st in
  let keep :=
    Ok (mkFold s (<[nid := result]> (cache st)) (folded_count st), result) in
  let replace_by (o : Obj) :=
    let '(s', folded) := alloc s o in
    Ok (mkFold s' (<[nid := folded]> (cache st)) (folded_count st + 1),
        folded) in
  let unary :=
    let* u := unary_redex s result in
    match u with
    | Some (op, arg) =>
        let* folded :=
          try_fold (result_value (Interpreter._apply_unary op arg)) in
        match folded with
        | Some o => replace_by o
        | None => keep
        end
    | None => keep
    end in
  let* b := binary_redex s result in
  match b with
  | Some (op, lhs, rhs) =>
      let* folded := try_fold (Interpreter._apply_binary op lhs rhs) in
      match folded with
      | Some o => replace_by o
      | None => unary
      end
  | None => unary
  end.

(** [fold(node)], the inner function of [constant_fold]. *)
Fixpoint fold (depth : nat) (st : FoldState) (node : nat)
    : Res (FoldState * nat) :=
  match depth with
  | O => Raise RecursionError
  | S depth' =>
      match cache st !! node with
      | Some r => Ok (st, r)
      | None =>
          let* o := get (fold_store st) node in
          (* Recursively fold children first *)
          let* (st1, new_children) :=
            foldM (fun '(st, acc) c =>
                     let* (st', c') := fold depth' st c in
                     Ok (st', acc ++ [c']))
                  (o_children o) (st, []) in
          let changed := negb (bool_decide (new_children = o_children o)) in
          let '(s', result) :=
            if changed then
              alloc (fold_store st1)
                (mkObj (o_tag o) new_children (o_prim_op o) (o_data o)
                   (o_effect o) (o_universe_level o))
            else (fold_store st1, node) in
          fold_result (mkFold s' (cache st1) (folded_count st1)) node result
      end
  end.

(** [constant_fold(root, stats)]. *)
Definition constant_fold (depth : nat) (s : Store) (root : nat)
    (stats : OptimizerStats) : Res (Store * nat * OptimizerStats) :=
  let* (st, r) := fold depth (mkFold s ∅ 0) root in
  Ok (fold_store st, r,
      mkStats (dead_eliminated stats) (cse_shared stats)
        (constants_folded stats + folded_count st)).

(** *** The combined optimizer *)

Inductive Pass : Type := dce | cse_pass | fold_pass.

(** [optimize(root, passes)]. *)
Definition optimize_passes (depth : nat) (s : Store) (root : nat)
    (passes : list Pass) : Res (Store * nat * OptimizerStats) :=
  foldM (fun '(s, node, stats) p =>
           match p with
           | dce =>
               let* (node', _, stats') := eliminate_dead_nodes s node stats in
               Ok (s, node', stats')
           | cse_pass => cse depth s node stats
           | fold_pass => constant_fold depth s node stats
           end)
        passes (s, root, mkStats 0 0 0).

(** [optimize(root)] with the default [passes]: fold, cse, dce. *)
Definition optimize (depth : nat) (s : Store) (root : nat)
    : Res (Store * nat * OptimizerStats) :=
  optimize_passes depth s root [fold_pass; cse_pass; dce].

(* ================================================================== *)
(** * Vocabulary of the statements *)
(* ================================================================== *)

(** The curried application of a binary primitive to two integer
    literals. *)
Definition binop (op : Z) (a b : Z) : Node :=
  B.app (B.app (B.prim op) (B.int_lit a)) (B.int_lit b).

(** Unfolding the monad and one level of either interpreter. *)
Ltac munfold :=
  cbv beta delta [bind lift ret raise tick print MatchInterpreter.count_step
    MatchInterpreter.eval_step MatchInterpreter.eval_node
    MatchInterpreter._eval_app Interpreter.eval_step Interpreter.eval_node];
  cbn.

(** Discharging the checks of the reduction counter against its limit
    when the counter is a known number. *)
Ltac within_limit :=
  unfold MatchInterpreter.reduction_limit;
  repeat match goal with
  | |- context [Z.ltb 5000000 ?x] =>
      let E := fresh "E" in
      assert (E : Z.ltb 5000000 x = false) by (vm_compute; reflexivity);
      rewrite E; clear E; cbn
  end.

(** [q] and [r] are the quotient of [a] by [b] rounded toward minus
    infinity and the remainder that goes with it: [r] is zero or has the
    sign of the divisor [b]. *)
Definition floor_div_mod (a b q r : Z) : Prop :=
  a = b * q + r /\ (0 <= r < b \/ b < r <= 0).

(** A node is the match primitive declaring [N] branches. *)
Definition is_match_prim (head : Node) (N : nat) : Prop :=
  tag head = PRIM /\ prim_op head = Some MATCH
  /\ data head = DInt (Z.of_nat N).

(** [branches[i]] when [i] is in range, the out-of-range error
    otherwise. *)
Definition select_branch (branches : list Node) (i : Z) : Res Node :=
  if i <? 0 then Raise (XiError ConstructorOutOfRange)
  else
    match branches !! Z.to_nat i with
    | Some branch => Ok branch
    | None => Raise (XiError ConstructorOutOfRange)
    end.

(** What a constructor expression evaluates to: the constructor node
    itself when it has no argument, a [Constructor] object otherwise. *)
Definition constr_value (index : Data) (args vs : list Node) : Value :=
  match args with
  | [] => VNode (B.lit CONSTR index)
  | _ => VConstr index vs
  end.

(** The steps of evaluating [match(constructor(i, a...), branches)]: two
    counted steps (the match node, then its scrutinee), the arguments
    [a...] evaluated left to right and turned into nodes, the selection of
    [branches[i]], and the evaluation of that branch applied in turn to
    those nodes. *)
Definition match_constructor_steps (depth : nat) (i : Z)
    (args branches : list Node) : M Value :=
  let! _ := MatchInterpreter.count_step in
  let! _ := MatchInterpreter.count_step in
  let! vs := MatchInterpreter.eval_args (MatchInterpreter._eval depth) args in
  let! branch := lift (select_branch branches i) in
  MatchInterpreter._eval (S depth) (fold_left B.app vs branch).

(** The recursion limit xi_match.py sets, as a number of nested calls of
    [_eval]. *)
Definition recursion_limit : nat := Z.to_nat 50000.

(** [nat_to_int(interp, interp.run(expr))] on a new interpreter. *)
Definition nat_result (expr : Node) : Res Z :=
  result (let! v := MatchInterpreter.run recursion_limit expr in
          nat_to_int recursion_limit v).

(** The round-trip property at one graph: serializing it and
    deserializing the bytes gives a node with the same content hash. *)
Definition roundtrip_preserves_hash (depth : nat) (s : Store) (root : nat)
    : Prop :=
  exists (bs : list byte) (s' : Store) (root' : nat) (h : list byte),
    serialize depth s root = Ok bs
    /\ deserialize bs = Ok (s', root')
    /\ content_hash_at depth s root = Ok h
    /\ content_hash_at depth s' root' = Ok h.

(** The store and the address a tree is built at, starting from the
    empty store. *)
Definition store_of (n : Node) : Store := fst (build n []).
Definition root_of (n : Node) : nat := snd (build n []).

(** Hash preservation by CSE at one graph. *)
Definition cse_preserves_hash (depth : nat) (s : Store) (root : nat) : Prop :=
  exists (s' : Store) (root' : nat) (stats : OptimizerStats) (h : list byte),
    cse depth s root (mkStats 0 0 0) = Ok (s', root', stats)
    /\ content_hash_at depth s root = Ok h
    /\ content_hash_at depth s' root' = Ok h.

(** The graph of [s ++ s], in which the two operands are one and the same
    string-literal object [s] of 13 characters: the objects, in the order
    serialize emits them, and the address of the root. *)
Definition shared_concat : Store :=
  [mkObj PRIM [] (Some PrimOp.STR_CONCAT) DNone 0 0;
   mkObj PRIM [] (Some PrimOp.STR_LIT) (DStr (replicate 13 97)) 0 0;
   mkObj APP [0; 1]%nat None DNone 0 0;
   mkObj APP [2; 1]%nat None DNone 0 0].

(** The unsigned value of a byte string. *)
Definition be_value (bs : list byte) : Z :=
  fold_left (fun acc b => acc * 256 + Z_of_byte b) bs 0.


(** *** Trees and what the binary format can carry *)

(** The number of nodes of a tree, and the number of nodes on its longest
    path from the root. *)
Fixpoint size (n : Node) : nat :=
  S (foldr (fun c acc => (size c + acc)%nat) O (children n)).

Fixpoint height (n : Node) : nat :=
  S (foldr (fun c acc => Nat.max (height c) acc) O (children n)).

(** [build] on a list of children, left to right. *)
Fixpoint build_list (cs : list Node) (s : Store) : Store * list nat :=
  match cs with
  | [] => (s, [])
  | c :: cs' =>
      let '(s1, a) := build c s in
      let '(s2, r) := build_list cs' s1 in
      (s2, a :: r)
  end.

(** The payload the codec writes for an op code, and reads back: a 64-bit
    signed integer under the integer-literal op, the eight bytes of a float
    under the float-literal op, a string of at most 65535 UTF-8 bytes
    under the string-literal op, a 16-bit index under the variable op, and
    nothing under any other op. *)
Definition payload_ok (op : Z) (d : Data) : bool :=
  (0 <=? op) && (op <? 256)
  && (if op =? PrimOp.INT_LIT then
        match d with
        | DInt z => (- 2 ^ 63 <=? z) && (z <? 2 ^ 63)
        | _ => false
        end
      else if op =? PrimOp.FLOAT_LIT then
        match d with
        | DFloat bits => (0 <=? bits) && (bits <? 2 ^ 64)
        | _ => false
        end
      else if op =? PrimOp.STR_LIT then
        match d with
        | DStr str =>
            match utf8_encode str with
            | Ok enc => Z.of_nat (length enc) <? 65536
            | Raise _ => false
            end
        | _ => false
        end
      else if op =? PrimOp.VAR then
        match d with
        | DInt z => (0 <=? z) && (z <? 65536)
        | _ => false
        end
      else
        match d with DNone => true | _ => false end).

Definition no_payload (op : option Z) (d : Data) : bool :=
  match op, d with None, DNone => true | _, _ => false end.

(** The fields of a node that the format carries for its tag are in
    range, and the others have the default the constructor gives them. *)
Definition fields_ok (t : Tag) (op : option Z) (d : Data) (e l : Z) : bool :=
  match t with
  | PRIM =>
      match op with
      | Some o => payload_ok o d && (e =? 0) && (l =? 0)
      | None => false
      end
  | UNI => no_payload op d && (e =? 0) && (0 <=? l) && (l <? 65536)
  | EFF => no_payload op d && (0 <=? e) && (e <? 256) && (l =? 0)
  | _ => no_payload op d && (e =? 0) && (l =? 0)
  end.

(** A tree every node of which has at most 15 children and fields the
    format carries. *)
Fixpoint encodable (n : Node) : bool :=
  (length (children n) <=? 15)%nat
  && fields_ok (tag n) (prim_op n) (data n) (effect n) (universe_level n)
  && forallb encodable (children n).

(** An object at position [i] of a node table: it has at most 15
    children, each at a position before [i], and fields the format
    carries. *)
Definition obj_ok (i : nat) (o : Obj) : bool :=
  (length (o_children o) <=? 15)%nat
  && fields_ok (o_tag o) (o_prim_op o) (o_data o) (o_effect o)
       (o_universe_level o)
  && forallb (fun c => (c <? i)%nat) (o_children o).

Definition table_ok (s : Store) : Prop :=
  forall (i : nat) (o : Obj), s !! i = Some o -> obj_ok i o = true.

(** The store holds the graph of [root] as serialize lays it out: the
    traversal visits the objects in the order of their addresses, and
    there is no other object. *)
Definition in_table_form (depth : nat) (s : Store) (root : nat) : Prop :=
  exists visited : gset nat,
    collect depth s (∅, []) root = Ok (visited, seq 0 (length s)).

(** The bytes [bs] stand in [data] at position [pos]. *)
Definition at_pos (data : list byte) (pos : nat) (bs : list byte) : Prop :=
  exists rest : list byte, drop pos data = bs ++ rest.

(** The number of nodes of a list of trees, and the height of the
    tallest. *)
Definition sizes (cs : list Node) : nat :=
  foldr (fun c acc => (size c + acc)%nat) O cs.

Definition heights (cs : list Node) : nat :=
  foldr (fun c acc => Nat.max (height c) acc) O cs.

(** The exceptions deserialize lets escape: its own [DeserializeError],
    the [IndexError] of an index past the end of the buffer or of the node
    table, [struct.error] and [UnicodeDecodeError]. *)
Definition deserialize_raises (e : PyExn) : bool :=
  match e with
  | DeserializeError _ | IndexError | StructError | UnicodeError => true
  | _ => false
  end.

(** The errors of the loop that reads the node table. *)
Definition read_raises (e : PyExn) : bool :=
  match e with
  | DeserializeError UnexpectedEOF | DeserializeError UnknownTag
  | IndexError | StructError | UnicodeError => true
  | _ => false
  end.

(** *** The counter and the output of an interpreter *)

(** A computation that returns has only moved the counter forward, to a
    value within [bound] if it has moved it at all, and has only added to
    the output. *)
Definition advances {A : Type} (bound : Z -> Prop) (m : M A) : Prop :=
  forall (st : IState) (a : A) (st' : IState),
    m st = Ok (a, st') ->
    reductions st <= reductions st'
    /\ (bound (reductions st') \/ reductions st' = reductions st)
    /\ exists out : list Value, printed st' = printed st ++ out.

(** *** Values *)

(** The nodes [Interpreter._eval] returns as they are: closures, product
    types, and Primitive nodes that are neither a literal nor a
    variable. *)
Definition self_evaluating (n : Node) : bool :=
  match tag n with
  | LAM | PI => true
  | PRIM =>
      negb (op_in (prim_op n)
              [PrimOp.STR_LIT; PrimOp.INT_LIT; PrimOp.FLOAT_LIT; PrimOp.UNIT;
               PrimOp.BOOL_TRUE; PrimOp.BOOL_FALSE; PrimOp.VAR])
  | _ => false
  end.

(** What [Interpreter._eval] returns: [None], a [bool], an [int], a
    [float], a [str], or a node of the kind above. *)
Definition is_result (v : Value) : bool :=
  match v with
  | VNode n => self_evaluating n
  | VConstr _ _ => false
  | _ => true
  end.

(** Every value a computation returns satisfies [P]. *)
Definition returns {A : Type} (P : A -> Prop) (m : M A) : Prop :=
  forall (st : IState) (a : A) (st' : IState), m st = Ok (a, st') -> P a.

(** Whenever the computation [base] returns with the reduction counter
    within the limit of the extended interpreter, the computation [ext]
    returns the same value in the same state. *)
Definition refines {A : Type} (base ext : M A) : Prop :=
  forall (st : IState) (a : A) (st' : IState),
    base st = Ok (a, st') ->
    reductions st' <= MatchInterpreter.reduction_limit ->
    ext st = Ok (a, st').

(** *** Variables *)

(** Every variable of the term has an integer index below [k], counting
    the binders above it: the body of a Lambda or Fixpoint node (its
    second child) is under one more binder. *)
Fixpoint closed_below (k : Z) (n : Node) : bool :=
  if tag_eqb (tag n) PRIM && op_is (prim_op n) PrimOp.VAR then
    match data_as_int (data n) with
    | Some i => i <? k
    | None => false
    end
  else
    (fix closed_children (i : nat) (cs : list Node) : bool :=
       match cs with
       | [] => true
       | c :: cs' =>
           (if (tag_eqb (tag n) LAM || tag_eqb (tag n) FIX) && Nat.eqb i 1
            then closed_below (k + 1) c
            else closed_below k c)
           && closed_children (S i) cs'
       end) O (children n).

(** *** Natural numbers as constructors *)

(** What [nat(v)] evaluates to: the node of zero, or a [Constructor] with
    index 1 whose argument is the node of the predecessor. *)
Definition nat_value (v : nat) : Value :=
  match v with
  | O => VNode NAT_ZERO
  | S k => VConstr (DInt 1) [nat_ k]
  end.

(** [0 + 1 + ... + v]. *)
Definition triangle (v : nat) : Z := Z.of_nat v * (Z.of_nat v + 1) / 2.

(** The state after [k] more reductions. *)
Definition after (k : Z) (st : IState) : IState :=
  mkIState (reductions st + k) (printed st).

(** *** Graphs in a store *)

(** Every child address of every object is an address of the store. *)
Definition closed_store (s : Store) : Prop :=
  forall (a : nat) (o : Obj),
    s !! a = Some o -> Forall (fun c => (c < length s)%nat) (o_children o).

(** [b] is a child of the object at [a]. *)
Definition edge (s : Store) (a b : nat) : Prop :=
  exists o : Obj, s !! a = Some o /\ b ∈ o_children o.

(** The invariant of the cache of [fold]: the store is closed and the
    cache holds addresses of the store. *)
Definition fold_inv (st : FoldState) : Prop :=
  closed_store (fold_store st)
  /\ forall n r : nat,
       cache st !! n = Some r -> (r < length (fold_store st))%nat.

(** The invariant of the loop of [cse]: the store is closed, and the
    replacements and the canonical nodes are addresses of the store. *)
Definition cse_inv (st : CseState) : Prop :=
  closed_store (cse_store st)
  /\ (forall n r : nat,
        replacement st !! n = Some r -> (r < length (cse_store st))%nat)
  /\ Forall (fun kv => (snd kv < length (cse_store st))%nat) (canonical st).

(** The number of entries the objects outside [visited] can still push on
    the stack of [_collect_reachable]: the sum of their numbers of
    children. [base] is the address of the first object of [s]. *)
Fixpoint pending (s : list Obj) (base : nat) (visited : gset nat) : nat :=
  match s with
  | [] => O
  | o :: rest =>
      ((if bool_decide (base ∈ visited) then O else length (o_children o))
       + pending rest (S base) visited)%nat
  end.

(** The invariant of the loop of [_collect_reachable]: the stack holds
    addresses that can be reached from the root, so does [visited], and
    the children of a visited object are visited or wait on the stack. *)
Definition reach_inv (s : Store) (root : nat) (stack : list nat)
    (visited : gset nat) : Prop :=
  Forall (fun a => (a < length s)%nat) stack
  /\ (forall a : nat, a ∈ visited -> rtc (edge s) root a)
  /\ (forall a : nat, a ∈ stack -> rtc (edge s) root a)
  /\ (forall a b : nat,
        a ∈ visited -> edge s a b -> b ∈ visited \/ b ∈ stack)
  /\ (root ∈ visited \/ root ∈ stack).

(** A payload that is [None], an [int] or a [str]. *)
Definition plain_data (d : Data) : Prop :=
  match d with
  | DNone | DInt _ | DStr _ => True
  | _ => False
  end.

(** An object as the builders ([B], [constr], [match_expr]) make it: only
    the fields of its tag are set, the others keep the defaults of
    [Node]; a primitive and a universe have no children. *)
Definition builder_form (o : Obj) : Prop :=
  match o_tag o with
  | PRIM =>
      o_children o = [] /\ plain_data (o_data o)
      /\ o_effect o = 0 /\ o_universe_level o = 0
  | UNI =>
      o_children o = [] /\ o_prim_op o = None /\ o_data o = DNone
      /\ o_effect o = 0
  | EFF =>
      o_prim_op o = None /\ o_data o = DNone /\ o_universe_level o = 0
  | _ =>
      o_prim_op o = None /\ o_data o = DNone /\ o_effect o = 0
      /\ o_universe_level o = 0
  end.

(** The invariant of the loop of [cse] on a graph in builder form:
    a replacement unfolds to the tree of the node it replaces, and the
    canonical table maps the key of an object to that object. *)
Definition cse_tree_inv (s0 : Store) (st : CseState) : Prop :=
  s0 `prefix_of` cse_store st
  /\ Forall builder_form (cse_store st)
  /\ (forall (n r : nat),
        replacement st !! n = Some r ->
        forall (d : nat) (t : Node),
          node_of d s0 n = Ok t -> node_of d (cse_store st) r = Ok t)
  /\ Forall (fun kv => exists o : Obj,
                cse_store st !! snd kv = Some o
                /\ fst kv = _structural_key o) (canonical st).

(** *** Recursion depth *)

(** Whenever the computation [m1] returns, the computation [m2] returns
    the same value in the same state, or it raises [RecursionError]: the
    two differ in nothing but the recursion depth they are given. *)
Definition agrees {A : Type} (m1 m2 : M A) : Prop :=
  forall (st : IState) (r : A * IState),
    m1 st = Ok r -> m2 st = Ok r \/ m2 st = Raise RecursionError.

(** [Node.content_hash] and [Interpreter._substitute] are recursive
    methods as well. Here they are with the Python frames they use made
    explicit: [depth] is the number of frames that can still be entered;
    the method takes one for itself at every level of the tree, and a call
    it makes on the way takes one while it lasts: the property [arity] in
    [content_hash], the constructor [Node(...)] in [_substitute]. Apart
    from [RecursionError] they are the definitions above. *)
Module Frames.

(** [Node.content_hash]: [self.arity] is read first, for the header
    byte. *)
Fixpoint content_hash (depth : nat) (n : Node) : Res (list byte) :=
  match depth with
  | O => Raise RecursionError
  | S depth' =>
      match depth' with
      | O => Raise RecursionError
      | S _ =>
          let* ch :=
            (fix hash_children (cs : list Node) : Res (list byte) :=
               match cs with
               | [] => Ok []
               | c :: cs' =>
                   let* h := content_hash depth' c in
                   let* r := hash_children cs' in
                   Ok (h ++ r)
               end) (children n) in
          let* input := hash_input (tag n) (arity n) ch (prim_op n) (data n)
                          (effect n) (universe_level n) in
          Ok (Sha256.sha256 input)
      end
  end.

(** [Node(...)] with [left] frames left. *)
Definition make_node (left : nat) (n : Node) : Res Node :=
  match left with
  | O => Raise RecursionError
  | S _ => Ok n
  end.

(** [Interpreter._substitute]. *)
Fixpoint _substitute (depth : nat) (node : Node) (idx : Z) (val : Node)
    : Res Node :=
  match depth with
  | O => Raise RecursionError
  | S depth' =>
      if tag_eqb (tag node) PRIM && op_is (prim_op node) PrimOp.VAR then
        match data node with
        | DInt _ | DBool _ =>
            let d := default 0 (data_as_int (data node)) in
            if d =? idx then Ok val
            else if d >? idx then
              make_node depth'
                (mkNode PRIM [] (Some PrimOp.VAR) (DInt (d - 1)) 0 0)
            else Ok node
        | DFloat _ => Raise Unsupported
        | DNone | DStr _ => Raise TypeError
        end
      else
        let* new_children :=
          (fix subst_children (i : nat) (cs : list Node) : Res (list Node) :=
             match cs with
             | [] => Ok []
             | c :: cs' =>
                 let* c' :=
                   if (tag_eqb (tag node) LAM || tag_eqb (tag node) FIX)
                      && Nat.eqb i 1
                   then _substitute depth' c (idx + 1) val
                   else _substitute depth' c idx val in
                 let* r := subst_children (S i) cs' in
                 Ok (c' :: r)
             end) O (children node) in
        make_node depth'
          (mkNode (tag node) new_children (prim_op node) (data node)
             (effect node) (universe_level node))
  end.

End Frames.
(* ================================================================== *)
(** * Properties *)
(* ================================================================== *)

(** ** The hash function *)

(** The digests of the empty string and of "abc" (FIPS 180-4 test
    vectors), read as numbers. *)
Example sha256_test_vectors :
  int_from_bytes false (Sha256.sha256 [])
  = 0xe3b0c44298fc1c149afbf4c8996fb92427ae41e4649b934ca495991b7852b855
  /\ int_from_bytes false (Sha256.sha256 ["a"; "b"; "c"]%byte)
     = 0xba7816bf8f01cfea414140de5dae2223b00361a396177a9cb410ff61f20015ad.
Proof. split; vm_compute; reflexivity. Qed.

(** ** The documented scenarios *)

(** [serialize(int_lit(42))] starts with the magic and the version. *)
Example serialize_int_42 :
  serialize 1 (store_of (B.int_lit 42)) (root_of (B.int_lit 42))
  = Ok (MAGIC ++ [x01; x00; x01; x00; x00; x90; x03;
                  x00; x00; x00; x00; x00; x00; x00; x2a]).
Proof. vm_compute. reflexivity. Qed.

(** [3 + 5] is 8, and [(\x. x + x) 21] is 42, in both interpreters. *)
Example eval_scenarios :
  let sum := binop PrimOp.INT_ADD 3 5 in
  let double :=
    B.lam (B.universe 0)
      (B.app (B.app (B.prim PrimOp.INT_ADD) (B.var 0)) (B.var 0)) in
  result (Interpreter.run 2 sum) = Ok (VInt 8)
  /\ result (MatchInterpreter.run 2 sum) = Ok (VInt 8)
  /\ result (Interpreter.run 3 (B.app double (B.int_lit 21))) = Ok (VInt 42)
  /\ result (MatchInterpreter.run 3 (B.app double (B.int_lit 21)))
     = Ok (VInt 42).
Proof. repeat split; vm_compute; reflexivity. Qed.

(** The checks of the demo of xi_match.py on Bool, Nat and Option. *)
Example match_scenarios :
  let id_fn := B.lam (B.universe 0) (B.var 0) in
  result (MatchInterpreter.run 3
            (match_expr (constr (DInt 0) []) [B.int_lit 1; B.int_lit 0]))
  = Ok (VInt 1)
  /\ result (MatchInterpreter.run 3
               (match_expr (constr (DInt 1) []) [B.int_lit 1; B.int_lit 0]))
     = Ok (VInt 0)
  /\ nat_result (nat_match (nat_ 5) NAT_ZERO id_fn) = Ok 4
  /\ nat_result (B.app (B.app build_nat_add (nat_ 2)) (nat_ 3)) = Ok 5
  /\ result (MatchInterpreter.run 4
               (match_expr (constr (DInt 1) [B.int_lit 7])
                  [B.int_lit 42; id_fn]))
     = Ok (VInt 7).
Proof. repeat split; vm_compute; reflexivity. Qed.

(** ** Integer division and modulus *)

Lemma run_binop_int (depth : nat) (op : Z) (a b : Z) :
  result (Interpreter.run (S (S depth)) (binop op a b))
  = Interpreter._apply_binary (Some op) (VInt a) (VInt b).
Proof.
  unfold result, Interpreter.run, binop. cbn.
  destruct (Interpreter._apply_binary (Some op) (VInt a) (VInt b)); reflexivity.
Qed.

Lemma match_run_binop_int (depth : nat) (op : Z) (a b : Z) :
  op <> CONSTR -> op <> MATCH ->
  result (MatchInterpreter.run (S (S depth)) (binop op a b))
  = Interpreter._apply_binary (Some op) (VInt a) (VInt b).
Proof.
  intros Hc Hm.
  unfold result, MatchInterpreter.run, binop, fresh.
  unfold MatchInterpreter._eval; fold MatchInterpreter._eval.
  munfold.
  destruct (Z.eqb_spec op CONSTR) as [|_]; [contradiction|].
  destruct (Z.eqb_spec op MATCH) as [|_]; [contradiction|].
  cbn. within_limit.
  destruct (Interpreter._apply_binary (Some op) (VInt a) (VInt b)); reflexivity.
Qed.

(** C10. For integers [a] and [b <> 0] the division primitive applied to
    the literals [a] and [b] evaluates to the floor of [a / b] and the
    modulus primitive to the remainder with the sign of the divisor, in
    both interpreters; for [b = 0] both raise [ZeroDivisionError], which
    is not a [XiError]. *)
Theorem C10_int_div_mod (depth : nat) (a b : Z) :
  (b <> 0 ->
   exists q r : Z,
     floor_div_mod a b q r
     /\ result (Interpreter.run (S (S depth)) (binop PrimOp.INT_DIV a b))
        = Ok (VInt q)
     /\ result (Interpreter.run (S (S depth)) (binop PrimOp.INT_MOD a b))
        = Ok (VInt r)
     /\ result (MatchInterpreter.run (S (S depth)) (binop PrimOp.INT_DIV a b))
        = Ok (VInt q)
     /\ result (MatchInterpreter.run (S (S depth)) (binop PrimOp.INT_MOD a b))
        = Ok (VInt r))
  /\ (b = 0 ->
      result (Interpreter.run (S (S depth)) (binop PrimOp.INT_DIV a b))
      = Raise ZeroDivisionError
      /\ result (Interpreter.run (S (S depth)) (binop PrimOp.INT_MOD a b))
         = Raise ZeroDivisionError
      /\ result (MatchInterpreter.run (S (S depth)) (binop PrimOp.INT_DIV a b))
         = Raise ZeroDivisionError
      /\ result (MatchInterpreter.run (S (S depth)) (binop PrimOp.INT_MOD a b))
         = Raise ZeroDivisionError
      /\ is_xi_error ZeroDivisionError = false).
Proof.
  rewrite !run_binop_int, !match_run_binop_int by discriminate.
  cbn. split.
  - intros Hb. exists (a / b), (a mod b).
    destruct (Z.eqb_spec b 0) as [|_]; [contradiction|].
    repeat split.
    + apply Z.div_mod; assumption.
    + destruct (Z_lt_le_dec 0 b) as [Hpos|Hneg].
      * left. apply Z.mod_pos_bound; assumption.
      * right. apply Z.mod_neg_bound; lia.
  - intros ->. cbn. repeat split.
Qed.

(** C10 at [a = -7], [b = 2]: the quotient is [-4], the remainder [1]. *)
Lemma C10_int_div_mod_witness :
  (2 <> 0) /\
  exists q r : Z,
    floor_div_mod (-7) 2 q r
    /\ result (Interpreter.run 2 (binop PrimOp.INT_DIV (-7) 2)) = Ok (VInt q)
    /\ result (Interpreter.run 2 (binop PrimOp.INT_MOD (-7) 2)) = Ok (VInt r)
    /\ result (MatchInterpreter.run 2 (binop PrimOp.INT_DIV (-7) 2))
       = Ok (VInt q)
    /\ result (MatchInterpreter.run 2 (binop PrimOp.INT_MOD (-7) 2))
       = Ok (VInt r).
Proof.
  split; [lia | apply (proj1 (C10_int_div_mod 0 (-7) 2)); lia].
Defined.

(** ** Application chains *)

Lemma app_spine_chain (xs : list Node) :
  forall (h : Node) (acc : list Node),
    app_spine (fold_left B.app xs h) acc = app_spine h (xs ++ acc).
Proof.
  induction xs as [|x xs IH]; intros h acc; [reflexivity|].
  cbn [fold_left]. rewrite IH. reflexivity.
Qed.

Lemma app_head_chain (xs : list Node) :
  forall h : Node, app_head (fold_left B.app xs h) = app_head h.
Proof.
  induction xs as [|x xs IH]; intros h; [reflexivity|].
  cbn [fold_left]. rewrite IH. reflexivity.
Qed.

(** A chain with at least one argument is an application node built by
    [B.app]. *)
Lemma chain_is_app (xs : list Node) :
  forall (h x : Node), exists f a : Node,
    fold_left B.app (x :: xs) h = B.app f a.
Proof.
  induction xs as [|y ys IH]; intros h x.
  - exists h, x. reflexivity.
  - destruct (IH (B.app h x) y) as (f & a & E).
    exists f, a. exact E.
Qed.

(** The head of a chain stops [app_spine] when it is not an application. *)
Lemma app_spine_head (h : Node) (args : list Node) :
  tag h <> APP -> app_spine h args = Ok (h, args).
Proof.
  destruct h as [t cs op d e l]; cbn.
  destruct t; intros Ht; (reflexivity || contradiction).
Qed.

Lemma slice_from_1_exact (scrut : Node) (rest : list Node) (N : nat) :
  (N <= length rest)%nat ->
  slice_from_1 (scrut :: rest) (1 + Z.of_nat N) = take N rest.
Proof.
  intros HN. unfold slice_from_1.
  assert (E1 : (1 + Z.of_nat N <? 0) = false) by (apply Z.ltb_ge; lia).
  rewrite E1. cbn [drop].
  rewrite length_cons.
  replace (Z.to_nat (Z.min (1 + Z.of_nat N) (Z.of_nat (S (length rest))) - 1))
    with N by lia.
  reflexivity.
Qed.

(** ** Match decomposition *)

Lemma decompose_match_chain (head scrut : Node) (rest : list Node) (N : nat) :
  is_match_prim head N ->
  _decompose_match (fold_left B.app (scrut :: rest) head)
  = Ok (if (N <=? length rest)%nat then Some (scrut, take N rest) else None).
Proof.
  intros (Ht & Hop & Hd).
  unfold _decompose_match. rewrite app_spine_chain, app_nil_r.
  rewrite app_spine_head by (rewrite Ht; discriminate).
  cbn. rewrite Ht, Hop, Hd. cbn.
  destruct (Nat.leb_spec N (length rest)) as [Hle|Hgt].
  - assert (E : (1 + Z.of_nat N <=? Z.of_nat (S (length rest))) = true)
      by (apply Z.leb_le; lia).
    rewrite E. rewrite slice_from_1_exact by assumption. reflexivity.
  - assert (E : (1 + Z.of_nat N <=? Z.of_nat (S (length rest))) = false)
      by (apply Z.leb_gt; lia).
    rewrite E. reflexivity.
Qed.

Lemma eval_app_match_chain (head scrut : Node) (rest : list Node) (N : nat)
    (ev : Node -> M Value) (st : IState) :
  is_match_prim head N -> (N <= length rest)%nat ->
  MatchInterpreter._eval_app ev (fold_left B.app (scrut :: rest) head) st
  = MatchInterpreter._reduce_match ev scrut (take N rest) st.
Proof.
  intros Hm HN.
  unfold MatchInterpreter._eval_app.
  rewrite (decompose_match_chain _ _ _ N Hm).
  destruct (chain_is_app rest head scrut) as (f & a & ->).
  apply Nat.leb_le in HN. rewrite HN. reflexivity.
Qed.

(** When the head of a chain is neither an application nor the match
    primitive, match decomposition does not fire. *)
Lemma decompose_match_other_head (head scrut : Node) (rest : list Node) :
  tag head <> APP ->
  tag head <> PRIM \/ prim_op head <> Some MATCH ->
  _decompose_match (fold_left B.app (scrut :: rest) head) = Ok None.
Proof.
  intros Happ Hnot.
  unfold _decompose_match. rewrite app_spine_chain, app_nil_r.
  rewrite app_spine_head by assumption. cbn.
  destruct head as [t cs op d e l]; cbn in *.
  destruct t; try reflexivity.
  destruct Hnot as [Hnot|Hnot]; [contradiction|].
  destruct op as [o|]; cbn; [|reflexivity].
  destruct (Z.eqb_spec o MATCH) as [->|_]; [contradiction|reflexivity].
Qed.

(** C5 fails on [(if 1 < 2 then \y. y + 1 else \y. y) 5], the match on
    two branches applied to [5]: the chain headed by the match primitive
    has [1 + 2 + 1] arguments, not [1 + 2]. Match decomposition fires on
    it all the same, with the scrutinee and the two branches, and the
    argument [5] is dropped: the application evaluates to the closure
    [\y. y + 1], which is what the match alone evaluates to, where the
    selected branch applied to [5] evaluates to [6]. (For every chain,
    [decompose_match_chain] and [eval_app_match_chain] above: with [N]
    branches declared and more than [1 + N] arguments, the rule fires on
    the first [1 + N] and the evaluation never looks at the others.) *)
Theorem C5_match_drops_extra_argument (depth : nat) :
  let inc := B.lam (B.universe 0)
               (B.app (B.app (B.prim PrimOp.INT_ADD) (B.var 0))
                  (B.int_lit 1)) in
  let idf := B.lam (B.universe 0) (B.var 0) in
  let cond := binop PrimOp.INT_LT 1 2 in
  let m := match_expr cond [inc; idf] in
  _decompose_match (B.app m (B.int_lit 5)) = Ok (Some (cond, [inc; idf]))
  /\ result (MatchInterpreter.run (4 + depth) (B.app m (B.int_lit 5)))
     = Ok (VNode inc)
  /\ result (MatchInterpreter.run (4 + depth) m) = Ok (VNode inc)
  /\ result (MatchInterpreter.run (4 + depth) (B.app inc (B.int_lit 5)))
     = Ok (VInt 6).
Proof. cbv zeta. repeat split; vm_compute; reflexivity. Qed.

(** ** Match reduction *)

Lemma bind_ext {A B' : Type} (m : M A) (k1 k2 : A -> M B') (st : IState) :
  (forall a st', k1 a st' = k2 a st') -> bind m k1 st = bind m k2 st.
Proof.
  intros H. unfold bind. destruct (m st) as [[a st']|e]; [apply H|reflexivity].
Qed.

Lemma match_eval_S (depth : nat) (n : Node) (st : IState) :
  MatchInterpreter._eval (S depth) n st
  = (let! _ := MatchInterpreter.count_step in
     MatchInterpreter.eval_node (MatchInterpreter._eval depth) n) st.
Proof. reflexivity. Qed.

(** Evaluating a match expression: one counted step, then match
    reduction of the scrutinee against the branches. *)
Lemma eval_match_expr (depth : nat) (scrut : Node) (branches : list Node)
    (st : IState) :
  MatchInterpreter._eval (S depth) (match_expr scrut branches) st
  = (let! _ := MatchInterpreter.count_step in
     MatchInterpreter._reduce_match (MatchInterpreter._eval depth)
       scrut branches) st.
Proof.
  rewrite match_eval_S. apply bind_ext. intros _ st'.
  unfold match_expr.
  change (fold_left B.app branches
            (B.app (B.lit MATCH (DInt (Z.of_nat (length branches)))) scrut))
    with (fold_left B.app (scrut :: branches)
            (B.lit MATCH (DInt (Z.of_nat (length branches))))).
  destruct (chain_is_app branches
              (B.lit MATCH (DInt (Z.of_nat (length branches)))) scrut)
    as (f & a & E).
  assert (Hnode : forall ev,
    MatchInterpreter.eval_node ev
      (fold_left B.app (scrut :: branches)
         (B.lit MATCH (DInt (Z.of_nat (length branches)))))
    = MatchInterpreter._eval_app ev
      (fold_left B.app (scrut :: branches)
         (B.lit MATCH (DInt (Z.of_nat (length branches)))))).
  { intros ev. rewrite E. reflexivity. }
  rewrite Hnode.
  rewrite (eval_app_match_chain _ _ _ (length branches)).
  - rewrite firstn_all. reflexivity.
  - repeat split.
  - reflexivity.
Qed.

Lemma select_branch_spec (branches : list Node) (i : Z) :
  select_branch branches i
  = if (i <? 0) || (Z.of_nat (length branches) <=? i)
    then Raise (XiError ConstructorOutOfRange)
    else
      match branches !! Z.to_nat i with
      | Some branch => Ok branch
      | None => Raise IndexError
      end.
Proof.
  unfold select_branch.
  destruct (Z.ltb_spec i 0) as [Hneg|Hpos]; [reflexivity|]. cbn [orb].
  destruct (Z.leb_spec (Z.of_nat (length branches)) i) as [Hout|Hin].
  - rewrite (proj2 (lookup_ge_None branches (Z.to_nat i))) by lia.
    reflexivity.
  - destruct (lookup_lt_is_Some_2 branches (Z.to_nat i)) as [b ->]; [lia|].
    reflexivity.
Qed.

(** Match reduction once the scrutinee has given the index [i] and the
    constructor arguments [args]. *)
Lemma reduce_match_dispatch (ev : Node -> M Value) (branches : list Node)
    (i : Z) (args : list Node) (st : IState) :
  (match DInt i with
   | DInt _ | DBool _ =>
       let i' := default 0 (data_as_int (DInt i)) in
       if (i' <? 0) || (Z.of_nat (length branches) <=? i') then
         raise (XiError ConstructorOutOfRange)
       else
         match branches !! Z.to_nat i' with
         | Some branch => ev (fold_left B.app args branch)
         | None => raise IndexError
         end
   | DFloat _ => raise Unsupported
   | DNone | DStr _ => raise TypeError
   end) st
  = (let! branch := lift (select_branch branches i) in
     ev (fold_left B.app args branch)) st.
Proof.
  cbn. unfold bind, lift. rewrite select_branch_spec.
  destruct ((i <? 0) || (Z.of_nat (length branches) <=? i)); [reflexivity|].
  destruct (branches !! Z.to_nat i); reflexivity.
Qed.

(** C9. When the scrutinee of a match expression evaluates to a boolean,
    [True] selects branch 0 and [False] branch 1; when it evaluates to an
    integer [k], it selects branch [k]; the selected branch is evaluated
    as it is, applied to no argument; and when the index derived this way
    is out of range, evaluation fails with the out-of-range error. *)
Theorem C9_match_on_native_value (depth : nat) (scrut : Node)
    (branches : list Node) (st st1 st2 : IState) :
  MatchInterpreter.count_step st = Ok (tt, st1) ->
  (forall b : bool,
     MatchInterpreter._eval depth scrut st1 = Ok (VBool b, st2) ->
     MatchInterpreter._eval (S depth) (match_expr scrut branches) st
     = match select_branch branches (if b then 0 else 1) with
       | Ok branch => MatchInterpreter._eval depth branch st2
       | Raise e => Raise e
       end)
  /\ (forall k : Z,
        MatchInterpreter._eval depth scrut st1 = Ok (VInt k, st2) ->
        MatchInterpreter._eval (S depth) (match_expr scrut branches) st
        = match select_branch branches k with
          | Ok branch => MatchInterpreter._eval depth branch st2
          | Raise e => Raise e
          end).
Proof.
  intros Hstep. split.
  - intros b Hs. rewrite eval_match_expr.
    unfold bind at 1. rewrite Hstep.
    unfold MatchInterpreter._reduce_match, bind at 1. rewrite Hs.
    unfold bind at 1. cbn [ret].
    rewrite (reduce_match_dispatch _ branches (if b then 0 else 1) [] st2).
    unfold bind, lift.
    destruct (select_branch branches (if b then 0 else 1)); reflexivity.
  - intros k Hs. rewrite eval_match_expr.
    unfold bind at 1. rewrite Hstep.
    unfold MatchInterpreter._reduce_match, bind at 1. rewrite Hs.
    unfold bind at 1. cbn [ret].
    rewrite (reduce_match_dispatch _ branches k [] st2).
    unfold bind, lift.
    destruct (select_branch branches k); reflexivity.
Qed.

(** C9 at [match true { 1 | 0 }], whose scrutinee is the literal [True]:
    branch 0 is evaluated. *)
Lemma C9_match_on_native_value_witness :
  let st := fresh in
  let st1 := mkIState 1 [] in
  let st2 := mkIState 2 [] in
  let scrut := B.prim PrimOp.BOOL_TRUE in
  let branches := [B.int_lit 1; B.int_lit 0] in
  MatchInterpreter.count_step st = Ok (tt, st1)
  /\ MatchInterpreter._eval 1 scrut st1 = Ok (VBool true, st2)
  /\ MatchInterpreter._eval 2 (match_expr scrut branches) st
     = MatchInterpreter._eval 1 (B.int_lit 1) st2.
Proof.
  cbv zeta.
  assert (H1 : MatchInterpreter.count_step fresh = Ok (tt, mkIState 1 []))
    by (vm_compute; reflexivity).
  assert (H2 : MatchInterpreter._eval 1 (B.prim PrimOp.BOOL_TRUE)
                 (mkIState 1 []) = Ok (VBool true, mkIState 2 []))
    by (vm_compute; reflexivity).
  split; [exact H1|]. split; [exact H2|].
  exact (proj1 (C9_match_on_native_value 1 (B.prim PrimOp.BOOL_TRUE)
                  [B.int_lit 1; B.int_lit 0] fresh (mkIState 1 [])
                  (mkIState 2 []) H1) true H2).
Defined.

(** ** Match on a constructor *)

Lemma eval_args_snoc (ev : Node -> M Value) (xs : list Node) (a : Node) :
  forall st : IState,
    MatchInterpreter.eval_args ev (xs ++ [a]) st
    = (let! vs := MatchInterpreter.eval_args ev xs in
       let! v := ev a in
       ret (vs ++ [MatchInterpreter._to_node v])) st.
Proof.
  induction xs as [|x xs IH]; intros st.
  - cbn. unfold bind, ret. destruct (ev a st) as [[v st']|e]; reflexivity.
  - change ((x :: xs) ++ [a]) with (x :: (xs ++ [a])).
    simpl MatchInterpreter.eval_args. unfold bind.
    destruct (ev x st) as [[v st1]|e]; [|reflexivity].
    rewrite IH. unfold bind.
    destruct (MatchInterpreter.eval_args ev xs st1) as [[vs st2]|e];
      [|reflexivity].
    unfold ret.
    destruct (ev a st2) as [[w st3]|e]; reflexivity.
Qed.

Lemma eval_node_constr (ev : Node -> M Value) (index : Data)
    (args : list Node) (st : IState) :
  MatchInterpreter.eval_node ev (constr index args) st
  = (let! vs := MatchInterpreter.eval_args ev args in
     ret (constr_value index args vs)) st.
Proof.
  destruct args as [|a0 args0] using rev_ind; [reflexivity|]. clear IHargs0.
  rename args0 into xs, a0 into a.
  assert (Hval : forall vs, constr_value index (xs ++ [a]) vs = VConstr index vs).
  { intros vs. destruct xs; reflexivity. }
  unfold constr. rewrite fold_left_app. cbn [fold_left].
  change (MatchInterpreter.eval_node ev
            (B.app (fold_left B.app xs (B.lit CONSTR index)) a))
    with (MatchInterpreter._eval_app ev
            (B.app (fold_left B.app xs (B.lit CONSTR index)) a)).
  unfold MatchInterpreter._eval_app.
  cbn [child children B.app B.node lookup list_lookup lift bind].
  assert (Hdec : _decompose_match
                   (B.app (fold_left B.app xs (B.lit CONSTR index)) a)
                 = Ok None).
  { unfold _decompose_match. cbn [app_spine B.app B.node].
    rewrite app_spine_chain. reflexivity. }
  unfold bind at 1, lift at 1. cbn [child children B.app B.node].
  cbn [lookup list_lookup].
  unfold bind at 1, lift at 1. cbn [child children B.app B.node].
  cbn [lookup list_lookup].
  rewrite Hdec. cbv beta iota.
  destruct xs as [|y ys].
  - cbn. unfold bind, ret.
    destruct (ev a st) as [[v st']|e]; reflexivity.
  - assert (Htag : tag (fold_left B.app (y :: ys) (B.lit CONSTR index)) = APP).
    { destruct (chain_is_app ys (B.lit CONSTR index) y) as (f & b & ->).
      reflexivity. }
    rewrite Htag.
    change (tag_eqb APP PRIM) with false. cbn [andb].
    unfold bind at 1.
    unfold _is_constr_chain. rewrite app_head_chain. cbn [app_head B.lit].
    cbn [rbind tag prim_op tag_eqb tag_code].
    change (op_is (Some CONSTR) CONSTR) with true.
    change (tag_code PRIM =? tag_code PRIM) with true. cbn [andb].
    unfold MatchInterpreter._build_constructor.
    unfold bind at 1. unfold bind at 1. unfold lift at 1.
    rewrite app_spine_chain, app_nil_r. cbn [app_spine B.lit data].
    change (tag_eqb PRIM PRIM && true) with true. cbv beta iota.
    unfold bind at 3. rewrite eval_args_snoc.
    unfold bind, ret.
    destruct (MatchInterpreter.eval_args ev (y :: ys) st) as [[vs st']|e];
      [|reflexivity].
    destruct (ev a st') as [[v st'']|e]; [|reflexivity].
    rewrite Hval. reflexivity.
Qed.

Lemma eval_match_constructor (depth : nat) (i : Z)
    (args branches : list Node) (st : IState) :
  MatchInterpreter._eval (S (S depth))
    (match_expr (constr (DInt i) args) branches) st
  = match_constructor_steps depth i args branches st.
Proof.
  rewrite eval_match_expr. unfold match_constructor_steps.
  apply bind_ext. intros _ st1.
  unfold MatchInterpreter._reduce_match.
  unfold bind at 1. rewrite match_eval_S.
  unfold bind at 1 4.
  destruct (MatchInterpreter.count_step st1) as [[[] st2]|e]; [|reflexivity].
  rewrite eval_node_constr. unfold bind at 1 4.
  destruct (MatchInterpreter.eval_args (MatchInterpreter._eval depth) args st2)
    as [[vs st3]|e] eqn:Hargs; [|reflexivity].
  unfold ret at 1. unfold bind at 1.
  assert (Hsel :
    (match constr_value (DInt i) args vs with
     | VConstr index args0 => ret (index, args0)
     | VNode n =>
         let! c := lift (from_node n) in
         match c with
         | Some (index, args0) => ret (index, args0)
         | None =>
             if node_label_raises n then raise TypeError
             else raise (XiError MatchNonConstructor)
         end
     | VBool b => ret (DInt (if b then 0 else 1), [])
     | VInt z => ret (DInt z, [])
     | VNone | VFloat _ | VStr _ => raise (XiError MatchNonConstructor)
     end) st3 = Ok ((DInt i, vs), st3)).
  { destruct args as [|a args'].
    - cbn in Hargs. injection Hargs as <- <-. reflexivity.
    - reflexivity. }
  rewrite Hsel.
  apply reduce_match_dispatch.
Qed.

(** C4 (as amended). Evaluating [match(constructor(i, a...), branches)]
    first evaluates the arguments [a...] left to right, and fails if one
    of them fails. It then fails when [i < 0] or [i >= len(branches)], and
    otherwise equals evaluating [branches[i]] applied in turn to the nodes
    of the values of [a...]. *)
Theorem C4_match_on_constructor (depth : nat) (i : Z)
    (args branches : list Node) (st : IState) :
  MatchInterpreter._eval (S (S depth))
    (match_expr (constr (DInt i) args) branches) st
  = match_constructor_steps depth i args branches st
  /\ (i < 0 \/ Z.of_nat (length branches) <= i ->
      is_ok (MatchInterpreter._eval (S (S depth))
               (match_expr (constr (DInt i) args) branches) st) = false)
  /\ (forall (branch : Node) (st2 st3 : IState) (vs : list Node),
        0 <= i -> branches !! Z.to_nat i = Some branch ->
        (let! _ := MatchInterpreter.count_step in
         MatchInterpreter.count_step) st = Ok (tt, st2) ->
        MatchInterpreter.eval_args (MatchInterpreter._eval depth) args st2
        = Ok (vs, st3) ->
        MatchInterpreter._eval (S (S depth))
          (match_expr (constr (DInt i) args) branches) st
        = MatchInterpreter._eval (S depth) (fold_left B.app vs branch) st3).
Proof.
  split; [apply eval_match_constructor|]. split.
  - intros Hout. rewrite eval_match_constructor.
    unfold match_constructor_steps, bind, lift.
    destruct (MatchInterpreter.count_step st) as [[[] st1]|e]; [|reflexivity].
    destruct (MatchInterpreter.count_step st1) as [[[] st2]|e]; [|reflexivity].
    destruct (MatchInterpreter.eval_args _ args st2) as [[vs st3]|e];
      [|reflexivity].
    rewrite select_branch_spec.
    assert (E : (i <? 0) || (Z.of_nat (length branches) <=? i) = true).
    { apply orb_true_iff. destruct Hout as [H|H];
        [left; apply Z.ltb_lt | right; apply Z.leb_le]; assumption. }
    rewrite E. reflexivity.
  - intros branch st2 st3 vs Hi Hb Hsteps Hargs.
    rewrite eval_match_constructor.
    unfold match_constructor_steps.
    unfold bind in Hsteps. unfold bind at 1 2.
    destruct (MatchInterpreter.count_step st) as [[[] st1]|e];
      [|discriminate].
    rewrite Hsteps. unfold bind at 1. rewrite Hargs.
    unfold bind, lift, select_branch.
    assert (E : (i <? 0) = false) by (apply Z.ltb_ge; assumption).
    rewrite E, Hb. reflexivity.
Qed.

(** C4 at [match(constructor(1, 7), [42, \x. x])]: the argument [7] is
    evaluated, then branch 1 is applied to it. *)
Lemma C4_match_on_constructor_witness :
  let branches := [B.int_lit 42; B.lam (B.universe 0) (B.var 0)] in
  0 <= 1
  /\ branches !! Z.to_nat 1 = Some (B.lam (B.universe 0) (B.var 0))
  /\ (let! _ := MatchInterpreter.count_step in
      MatchInterpreter.count_step) fresh = Ok (tt, mkIState 2 [])
  /\ MatchInterpreter.eval_args (MatchInterpreter._eval 1) [B.int_lit 7]
       (mkIState 2 []) = Ok ([B.int_lit 7], mkIState 3 [])
  /\ MatchInterpreter._eval 3
       (match_expr (constr (DInt 1) [B.int_lit 7]) branches) fresh
     = MatchInterpreter._eval 2
         (fold_left B.app [B.int_lit 7] (B.lam (B.universe 0) (B.var 0)))
         (mkIState 3 []).
Proof.
  cbv zeta.
  assert (H0 : 0 <= 1) by lia.
  assert (H1 : [B.int_lit 42; B.lam (B.universe 0) (B.var 0)] !! Z.to_nat 1
               = Some (B.lam (B.universe 0) (B.var 0))) by reflexivity.
  assert (H2 : (let! _ := MatchInterpreter.count_step in
                MatchInterpreter.count_step) fresh = Ok (tt, mkIState 2 []))
    by (vm_compute; reflexivity).
  assert (H3 : MatchInterpreter.eval_args (MatchInterpreter._eval 1)
                 [B.int_lit 7] (mkIState 2 [])
               = Ok ([B.int_lit 7], mkIState 3 []))
    by (vm_compute; reflexivity).
  split; [exact H0|]. split; [exact H1|]. split; [exact H2|].
  split; [exact H3|].
  exact (proj2 (proj2 (C4_match_on_constructor 1 1 [B.int_lit 7]
                         [B.int_lit 42; B.lam (B.universe 0) (B.var 0)]
                         fresh))
           (B.lam (B.universe 0) (B.var 0)) (mkIState 2 []) (mkIState 3 [])
           [B.int_lit 7] H0 H1 H2 H3).
Defined.

(** The claim as first stated fails. Take the one branch to be the match
    primitive declaring two branches, and the constructor arguments to be
    a scrutinee, the literal 7 and an unbound variable. The branch applied
    to the arguments is a match expression that never looks at its second
    branch, and evaluates to 7; the match on the constructor evaluates
    every argument first, and fails on the unbound variable. The index 0
    is in range. *)
Lemma C4_counterexample :
  let branches := [B.lit MATCH (DInt 2)] in
  let args := [constr (DInt 0) []; B.int_lit 7; B.var 0] in
  0 <= 0 < Z.of_nat (length branches)
  /\ forall depth : nat,
       result (MatchInterpreter.run (3 + depth)
                 (match_expr (constr (DInt 0) args) branches))
       = Raise (XiError UnboundVariable)
       /\ result (MatchInterpreter.run (3 + depth)
                    (fold_left B.app args (B.lit MATCH (DInt 2))))
          = Ok (VInt 7).
Proof.
  cbv zeta. split; [cbn; lia|].
  intros depth. split; vm_compute; reflexivity.
Qed.

(** ** Fixpoints *)

(** C8. Evaluating a Fixpoint node is one counted step followed by the
    evaluation of its body in which the Fixpoint node itself has been
    substituted for de Bruijn index 0, in both interpreters; and the
    factorial defined with a fixpoint, applied to 5, evaluates to 120. *)
Theorem C8_fixpoint_unfold :
  (forall (depth : nat) (ty body : Node) (rest : list Node)
          (op : option Z) (d : Data) (e l : Z) (st : IState),
     let n := mkNode FIX (ty :: body :: rest) op d e l in
     Interpreter._eval (S depth) n st
     = (let! _ := tick in
        let! unfolded := lift (Interpreter._substitute body 0 n) in
        Interpreter._eval depth unfolded) st
     /\ MatchInterpreter._eval (S depth) n st
        = (let! _ := MatchInterpreter.count_step in
           let! unfolded := lift (Interpreter._substitute body 0 n) in
           MatchInterpreter._eval depth unfolded) st)
  /\ nat_result (B.app build_factorial (nat_ 5)) = Ok 120.
Proof.
  split.
  - intros depth ty body rest op d e l st n. split; reflexivity.
  - vm_compute. reflexivity.
Qed.

(** ** The binary codec *)

Lemma bytes_eqb_eq (a : list byte) :
  forall b : list byte, bytes_eqb a b = true -> a = b.
Proof.
  induction a as [|x a IH]; intros [|y b] H; try discriminate; [reflexivity|].
  cbn in H. apply andb_true_iff in H as [Hxy Hab].
  apply Byte.byte_dec_bl in Hxy. subst y. f_equal. apply IH. exact Hab.
Qed.

Lemma Z_of_byte_range (b : byte) : 0 <= Z_of_byte b < 256.
Proof.
  unfold Z_of_byte. pose proof (Byte.to_N_bounded b) as H. lia.
Qed.

Lemma Z_of_byte_of_Z (z : Z) : 0 <= z < 256 -> Z_of_byte (byte_of_Z z) = z.
Proof.
  intros Hz. unfold byte_of_Z, Z_of_byte.
  rewrite Z.mod_small by assumption.
  destruct (Byte.of_N (Z.to_N z)) as [b|] eqn:E.
  - apply Byte.to_of_N in E. rewrite E. lia.
  - apply Byte.of_N_None_iff in E. lia.
Qed.

Lemma length_be_bytes (w : nat) : forall z : Z, length (be_bytes w z) = w.
Proof.
  induction w as [|w IH]; intros z; [reflexivity|].
  cbn [be_bytes]. rewrite length_app, IH. cbn. lia.
Qed.

Lemma be_value_be_bytes (w : nat) :
  forall z : Z, 0 <= z < 256 ^ Z.of_nat w -> be_value (be_bytes w z) = z.
Proof.
  unfold be_value.
  induction w as [|w IH]; intros z Hz.
  - cbn in *. lia.
  - cbn [be_bytes]. rewrite fold_left_app. cbn [fold_left].
    rewrite Nat2Z.inj_succ, Z.pow_succ_r in Hz by lia.
    rewrite IH.
    + rewrite Z_of_byte_of_Z by (apply Z.mod_pos_bound; lia).
      pose proof (Z.div_mod z 256). lia.
    + split; [apply Z.div_pos; lia|].
      apply Z.div_lt_upper_bound; lia.
Qed.

(** Serializing a store that holds one object without children. *)
Lemma serialize_leaf (depth : nat) (o : Obj) :
  o_children o = [] ->
  serialize (S depth) [o] 0
  = (let* record := node_record (enumerate_index [0%nat]) o in
     Ok (MAGIC ++ [x01; x00; x01; x00; x00] ++ record ++ [])).
Proof.
  intros Hc. unfold serialize.
  assert (Hcollect : collect (S depth) [o] (∅, []) 0
                     = Ok ({[0%nat]} ∪ ∅, [0%nat])).
  { cbn [collect]. rewrite bool_decide_eq_false_2 by set_solver.
    cbn. rewrite Hc. reflexivity. }
  rewrite Hcollect. cbn [rbind].
  change (int_to_bytes 2 false (Z.of_nat (length [0%nat])))
    with (Ok [x00; x01] : Res (list byte)).
  cbn [rbind].
  change (index_lookup (enumerate_index [0%nat]) 0) with (Ok 0 : Res Z).
  cbn [rbind].
  change (int_to_bytes 2 false 0) with (Ok [x00; x00] : Res (list byte)).
  cbn [rbind mapM get lookup list_lookup].
  destruct (node_record (enumerate_index [0%nat]) o) as [record|e];
    reflexivity.
Qed.

Lemma int_from_bytes_unsigned (w : nat) (z : Z) :
  0 <= z < 256 ^ Z.of_nat w -> int_from_bytes false (be_bytes w z) = z.
Proof.
  intros Hz. unfold int_from_bytes. cbn [andb].
  apply (be_value_be_bytes w z Hz).
Qed.

Lemma int_from_bytes_signed (w : nat) (z : Z) :
  (0 < w)%nat ->
  - (256 ^ Z.of_nat w / 2) <= z < 256 ^ Z.of_nat w / 2 ->
  int_from_bytes true (be_bytes w (z mod 256 ^ Z.of_nat w)) = z.
Proof.
  intros Hw Hz. unfold int_from_bytes. cbn [andb].
  rewrite length_be_bytes.
  set (m := 256 ^ Z.of_nat w) in *.
  assert (Hm : 0 < m) by (apply Z.pow_pos_nonneg; lia).
  assert (Heven : m = 2 * (m / 2)).
  { unfold m. destruct w as [|w']; [lia|].
    rewrite Nat2Z.inj_succ, Z.pow_succ_r by lia.
    replace (256 * 256 ^ Z.of_nat w') with ((128 * 256 ^ Z.of_nat w') * 2)
      by lia.
    rewrite Z.div_mul by lia. lia. }
  change (fold_left (fun acc b => acc * 256 + Z_of_byte b)
            (be_bytes w (z mod m)) 0)
    with (be_value (be_bytes w (z mod m))).
  rewrite be_value_be_bytes by (apply Z.mod_pos_bound; exact Hm).
  destruct (Z_lt_le_dec z 0) as [Hneg|Hpos].
  - assert (E : z mod m = z + m).
    { symmetry. apply (Z.mod_unique _ _ (-1)); lia. }
    rewrite E.
    rewrite (proj2 (Z.leb_le m (2 * (z + m)))) by lia. lia.
  - rewrite Z.mod_small by lia.
    rewrite (proj2 (Z.leb_gt m (2 * z))) by lia. reflexivity.
Qed.

Lemma bytes1_in_range (z : Z) :
  0 <= z < 256 -> bytes1 z = Ok [byte_of_Z z].
Proof.
  intros Hz. unfold bytes1.
  rewrite (proj2 (Z.leb_le 0 z)), (proj2 (Z.ltb_lt z 256)) by lia.
  reflexivity.
Qed.

(** What the codec does to a Primitive leaf whose op code is none of the
    four the deserializer reads a payload for: an integer payload is not
    written, and the node comes back without it. *)
Lemma roundtrip_drops_int_payload (depth : nat) (op z : Z) :
  0 <= op < 256 ->
  op <> PrimOp.VAR -> op <> PrimOp.STR_LIT ->
  op <> PrimOp.INT_LIT -> op <> PrimOp.FLOAT_LIT ->
  let n := B.lit op (DInt z) in
  serialize (S depth) (store_of n) (root_of n)
  = Ok (MAGIC ++ [x01; x00; x01; x00; x00; x90; byte_of_Z op])
  /\ (let* (s', root') :=
        deserialize (MAGIC ++ [x01; x00; x01; x00; x00; x90; byte_of_Z op]) in
      node_of (S depth) s' root') = Ok (B.lit op DNone).
Proof.
  intros Hop Hvar Hstr Hint Hfloat n. split.
  - change (store_of n) with [mkObj PRIM [] (Some op) (DInt z) 0 0].
    change (root_of n) with 0%nat.
    rewrite serialize_leaf by reflexivity.
    unfold node_record. cbn [o_tag o_children o_prim_op o_data length mapM].
    change (bytes1 (header_byte PRIM (Z.of_nat 0)))
      with (Ok [x90] : Res (list byte)).
    cbn [rbind tag_eqb tag_code].
    change (9 =? 9) with true. change (9 =? 4) with false.
    change (9 =? 8) with false. cbv beta iota.
    unfold prim_payload. rewrite bytes1_in_range by assumption.
    cbn [rbind data_as_int default].
    rewrite (proj2 (Z.eqb_neq op PrimOp.INT_LIT)) by assumption.
    rewrite (proj2 (Z.eqb_neq op PrimOp.VAR)) by assumption.
    reflexivity.
  - assert (Hb : Z_of_byte (byte_of_Z op) = op)
      by (apply Z_of_byte_of_Z; assumption).
    revert Hb. generalize (byte_of_Z op) as b. intros b Hb.
    unfold deserialize, read_node, read_prim, byte_at. cbn.
    change (Z.to_nat ((0 * 256 + 0) * 256 + 1)) with 1%nat.
    change (Z.to_nat ((0 * 256 + 0) * 256 + 0)) with 0%nat.
    cbn. unfold read_node, read_prim, byte_at. cbn.
    change (tag_map (Z.land (Z.shiftr 144 4) 15)) with (Some PRIM).
    change (Z.to_nat (Z.land 144 15)) with 0%nat.
    cbn.
    rewrite Hb.
    rewrite (proj2 (Z.eqb_neq op PrimOp.INT_LIT)) by assumption.
    rewrite (proj2 (Z.eqb_neq op PrimOp.FLOAT_LIT)) by assumption.
    rewrite (proj2 (Z.eqb_neq op PrimOp.STR_LIT)) by assumption.
    rewrite (proj2 (Z.eqb_neq op PrimOp.VAR)) by assumption.
    reflexivity.
Qed.

(** An integer literal that fits 64 bits survives the round trip
    unchanged. *)
Lemma roundtrip_int_lit (depth : nat) (z : Z) :
  - 2 ^ 63 <= z < 2 ^ 63 ->
  let n := B.int_lit z in
  (let* bs := serialize (S depth) (store_of n) (root_of n) in
   let* (s', root') := deserialize bs in
   node_of (S depth) s' root') = Ok n.
Proof.
  intros Hz n.
  change (store_of n) with [mkObj PRIM [] (Some PrimOp.INT_LIT) (DInt z) 0 0].
  change (root_of n) with 0%nat.
  rewrite serialize_leaf by reflexivity.
  unfold node_record, prim_payload, int_to_bytes. cbn -[be_bytes].
  change (256 ^ Z.of_nat 8) with (2 ^ 64).
  change (2 ^ 64 / 2) with (2 ^ 63).
  rewrite (proj2 (Z.leb_le (- 2 ^ 63) z)), (proj2 (Z.ltb_lt z (2 ^ 63)))
    by lia.
  change (bytes1 (header_byte PRIM (Z.of_nat 0)))
    with (Ok [x90] : Res (list byte)).
  change (byte_of_Z PrimOp.INT_LIT) with x03.
  cbn -[be_bytes deserialize].
  assert (Hval : int_from_bytes true (be_bytes 8 (z mod 2 ^ 64)) = z).
  { apply (int_from_bytes_signed 8 z); [lia|].
    change (256 ^ Z.of_nat 8 / 2) with (2 ^ 63). lia. }
  pose proof (length_be_bytes 8 (z mod 2 ^ 64)) as Hlen.
  revert Hval Hlen. generalize (be_bytes 8 (z mod 2 ^ 64)) as bs.
  intros bs Hval Hlen.
  do 8 (destruct bs as [|? bs]; [discriminate Hlen|]).
  destruct bs; [|discriminate Hlen]. clear Hlen.
  unfold deserialize, read_node, read_prim, byte_at. cbn.
  change (Z.to_nat ((0 * 256 + 0) * 256 + 1)) with 1%nat.
  change (Z.to_nat ((0 * 256 + 0) * 256 + 0)) with 0%nat.
  cbn. unfold read_node, read_prim, byte_at. cbn.
  change (tag_map (Z.land (Z.shiftr 144 4) 15)) with (Some PRIM).
  change (Z.to_nat (Z.land 144 15)) with 0%nat.
  cbn. cbn in Hval. rewrite Hval. reflexivity.
Qed.

(** The nodes of the round-trip tests of the test suite keep their
    content hash. *)
Example roundtrip_tests :
  Forall (fun n => roundtrip_preserves_hash 5 (store_of n) (root_of n))
    [B.int_lit 42; B.int_lit (-7); B.int_lit 0;
     B.str_lit (ascii_str ["h"; "e"; "l"; "l"; "o"]%byte); B.str_lit [];
     B.app (B.app (B.prim PrimOp.INT_ADD) (B.int_lit 3)) (B.int_lit 5);
     B.effect (B.app (B.prim PrimOp.PRINT)
                 (B.str_lit (ascii_str ["h"; "i"]%byte))) Effect.IO;
     B.lam (B.universe 0) (B.var 0)].
Proof.
  repeat constructor; cbv zeta;
    (eexists; eexists; eexists; eexists;
     split; [vm_compute; reflexivity|];
     split; [vm_compute; reflexivity|];
     split; vm_compute; reflexivity).
Qed.

(** C1 fails on the constructor node [constr(1)], a Primitive node whose
    op code (0x61) carries the integer payload 1: serialize writes the op
    byte and no payload, deserialize gives back the node with no payload,
    and the content hash, which covers the payload, differs. *)
Theorem C1_roundtrip_loses_constructor_index (depth : nat) :
  let n := constr (DInt 1) [] in
  serialize (S depth) (store_of n) (root_of n)
  = Ok (MAGIC ++ [x01; x00; x01; x00; x00; x90; x61])
  /\ (let* (s', root') :=
        deserialize (MAGIC ++ [x01; x00; x01; x00; x00; x90; x61]) in
      node_of (S depth) s' root') = Ok (B.lit CONSTR DNone)
  /\ ~ roundtrip_preserves_hash (S depth) (store_of n) (root_of n).
Proof.
  cbv zeta.
  assert (Hser : serialize (S depth) (store_of (constr (DInt 1) []))
                   (root_of (constr (DInt 1) []))
                 = Ok (MAGIC ++ [x01; x00; x01; x00; x00; x90; x61]))
    by (vm_compute; reflexivity).
  split; [exact Hser|]. split; [vm_compute; reflexivity|].
  intros (bs & s' & root' & h & H1 & H2 & H3 & H4).
  rewrite Hser in H1. injection H1 as <-.
  vm_compute in H2. injection H2 as <- <-.
  vm_compute in H3. vm_compute in H4.
  injection H3 as <-. discriminate H4.
Qed.

(** What deserialize checks: a buffer of fewer than 7 bytes, a wrong
    magic and an unsupported version are each reported by a
    [DeserializeError] of their own. *)
Lemma deserialize_too_short (data : list byte) :
  (length data < 7)%nat ->
  deserialize data = Raise (DeserializeError FileTooShort).
Proof.
  intros H. unfold deserialize.
  rewrite (proj2 (Nat.ltb_lt _ _) H). reflexivity.
Qed.

Lemma deserialize_bad_magic (data : list byte) :
  (7 <= length data)%nat -> slice data 0 2 <> MAGIC ->
  deserialize data = Raise (DeserializeError InvalidMagic).
Proof.
  intros Hlen Hmagic. unfold deserialize.
  rewrite (proj2 (Nat.ltb_ge _ _) Hlen).
  destruct (bytes_eqb (slice data 0 2) MAGIC) eqn:E; [|reflexivity].
  apply bytes_eqb_eq in E. contradiction.
Qed.

Lemma deserialize_bad_version (data : list byte) (v : byte) :
  (7 <= length data)%nat -> slice data 0 2 = MAGIC ->
  data !! 2%nat = Some v -> Z_of_byte v <> FORMAT_VERSION ->
  deserialize data = Raise (DeserializeError UnsupportedVersion).
Proof.
  intros Hlen Hmagic Hv Hne. unfold deserialize.
  rewrite (proj2 (Nat.ltb_ge _ _) Hlen), Hmagic.
  unfold byte_at. rewrite Hv. cbn.
  destruct (Z.eqb_spec (Z_of_byte v) FORMAT_VERSION); [contradiction|].
  reflexivity.
Qed.

Lemma read_node_eof (data : list byte) (pos : nat) :
  (length data <= pos)%nat ->
  read_node data pos = Raise (DeserializeError UnexpectedEOF).
Proof.
  intros H. unfold read_node.
  rewrite (proj2 (Nat.leb_le _ _) H). reflexivity.
Qed.

(** A node that is its own child unfolds to no tree: hashing or
    evaluating it recurses without end. *)
Lemma self_child_unfolds_forever (o : Obj) (depth : nat) :
  o_children o = [0%nat] -> node_of depth [o] 0 = Raise RecursionError.
Proof.
  intros Hc. induction depth as [|depth IH]; [reflexivity|].
  cbn [node_of get lookup list_lookup rbind]. rewrite Hc.
  cbn [mapM]. rewrite IH. reflexivity.
Qed.

(** C2 fails on five buffers.
    - One node, root index 5: what is raised is the [IndexError] of the
      final table lookup, not a codec error.
    - One node with child index 7: [IndexError] again.
    - Two nodes, the first an Effect node whose child index 1 refers to
      the node after it: a node is returned.
    - One Effect node whose child index 0 refers to the node itself: a
      node is returned, and it is its own child.
    - One integer-literal node cut off after its op byte: a node is
      returned, the literal 0. *)
Theorem C2_deserialize_unchecked_indices :
  deserialize [xce; x9e; x01; x00; x01; x00; x05; x90; x05] = Raise IndexError
  /\ deserialize [xce; x9e; x01; x00; x01; x00; x00; x81; x00; x07; x00]
     = Raise IndexError
  /\ is_codec_error IndexError = false
  /\ deserialize [xce; x9e; x01; x00; x02; x00; x00;
                  x81; x00; x01; x01; x90; x05]
     = Ok ([mkObj EFF [1%nat] None DNone 1 0;
            mkObj PRIM [] (Some PrimOp.UNIT) DNone 0 0], 0%nat)
  /\ deserialize [xce; x9e; x01; x00; x01; x00; x00; x81; x00; x00; x00]
     = Ok ([mkObj EFF [0%nat] None DNone 0 0], 0%nat)
  /\ (forall depth : nat,
        node_of depth [mkObj EFF [0%nat] None DNone 0 0] 0
        = Raise RecursionError)
  /\ deserialize [xce; x9e; x01; x00; x01; x00; x00; x90; x03]
     = Ok ([mkObj PRIM [] (Some PrimOp.INT_LIT) (DInt 0) 0 0], 0%nat).
Proof.
  repeat split; try (vm_compute; reflexivity).
  intros depth. apply self_child_unfolds_forever. reflexivity.
Qed.

(** ** The optimizer *)

(** C3 fails on two graphs.
    - [eq (\_. 1 + 2) (\_. 3)]: the interpreter compares the two closures
      as nodes, field by field, and returns [False]; constant folding
      rewrites the body [1 + 2] to [3], the two closures become equal, and
      the optimized graph evaluates to [True].
    - [(1 + 2) 3], the sum applied to an argument: evaluation fails with
      "Cannot apply"; the optimized graph is [3 3], the application of a
      literal, and evaluation fails with "Unknown unary op". *)
Theorem C3_optimize_changes_value (depth : nat) :
  let sum := binop PrimOp.INT_ADD 1 2 in
  let n := B.app (B.app (B.prim PrimOp.INT_EQ) (B.lam (B.universe 0) sum))
             (B.lam (B.universe 0) (B.int_lit 3)) in
  let closure := B.lam (B.universe 0) (B.int_lit 3) in
  let m := B.app sum (B.int_lit 3) in
  (result (Interpreter.run (8 + depth) n) = Ok (VBool false)
   /\ (let* (s', root', _) :=
         optimize (8 + depth) (store_of n) (root_of n) in
       node_of (8 + depth) s' root')
      = Ok (B.app (B.app (B.prim PrimOp.INT_EQ) closure) closure)
   /\ result (Interpreter.run (8 + depth)
                (B.app (B.app (B.prim PrimOp.INT_EQ) closure) closure))
      = Ok (VBool true))
  /\ (result (Interpreter.run (8 + depth) m) = Raise (XiError CannotApply)
      /\ (let* (s', root', _) :=
            optimize (8 + depth) (store_of m) (root_of m) in
          node_of (8 + depth) s' root')
         = Ok (B.app (B.int_lit 3) (B.int_lit 3))
      /\ result (Interpreter.run (8 + depth)
                   (B.app (B.int_lit 3) (B.int_lit 3)))
         = Raise (XiError UnknownUnaryOp)).
Proof.
  cbv zeta. repeat split; vm_compute; reflexivity.
Qed.

(** C6 fails on two graphs.
    - [@(p1, p2)], where [p1] and [p2] are Primitive nodes with the op
      code of print and one child each, the literals 1 and 2. The key of a
      Primitive node holds its op code, its payload and the number of its
      children, not the children: [p2] is replaced by [p1], the result is
      [@(p1, p1)], and the content hash changes.
    - [@(0.0, -0.0)], two float literals without children: the payloads
      of the two keys are equal as floats, the second literal is replaced
      by the first, and the content hash, which covers the bits of the
      float, changes. *)
Theorem C6_cse_merges_distinct_primitives (depth : nat) :
  let p1 := mkNode PRIM [B.int_lit 1] (Some PrimOp.PRINT) DNone 0 0 in
  let p2 := mkNode PRIM [B.int_lit 2] (Some PrimOp.PRINT) DNone 0 0 in
  let n := B.app p1 p2 in
  let zero := B.lit PrimOp.FLOAT_LIT (DFloat 0) in
  let minus_zero := B.lit PrimOp.FLOAT_LIT (DFloat 0x8000000000000000) in
  let m := B.app zero minus_zero in
  ((let* (s', root', _) :=
      cse (4 + depth) (store_of n) (root_of n) (mkStats 0 0 0) in
    node_of (4 + depth) s' root') = Ok (B.app p1 p1)
   /\ ~ cse_preserves_hash (4 + depth) (store_of n) (root_of n))
  /\ ((let* (s', root', _) :=
         cse (4 + depth) (store_of m) (root_of m) (mkStats 0 0 0) in
       node_of (4 + depth) s' root') = Ok (B.app zero zero)
      /\ ~ cse_preserves_hash (4 + depth) (store_of m) (root_of m)).
Proof.
  cbv zeta. split; (split; [vm_compute; reflexivity|]);
    intros (s' & root' & stats & h & H1 & H2 & H3);
    vm_compute in H1; injection H1 as <- <- <-;
    vm_compute in H2; vm_compute in H3;
    injection H2 as <-; discriminate H3.
Qed.

(** C7 fails on two graphs.
    - [s ++ s] with [s] shared: the graph serializes to 36 bytes, in
      which the 13 characters of [s] occur once; folding replaces it by a
      literal of 26 characters, which serializes to 37 bytes.
    - [2^62 * 4]: the graph serializes to 39 bytes; folding replaces it
      by the literal [2^64], which does not fit the eight bytes of an
      integer literal, and serialize raises [OverflowError]. *)
Theorem C7_fold_grows_serialized_size (depth : nat) :
  let product := binop PrimOp.INT_MUL (2 ^ 62) 4 in
  ((let* bs := serialize (3 + depth) shared_concat 3 in
    Ok (length bs)) = Ok 36%nat
   /\ (let* (s', root', _) :=
         constant_fold (3 + depth) shared_concat 3 (mkStats 0 0 0) in
       node_of (3 + depth) s' root') = Ok (B.str_lit (replicate 26 97))
   /\ (let* (s', root', _) :=
         constant_fold (3 + depth) shared_concat 3 (mkStats 0 0 0) in
       let* bs' := serialize (3 + depth) s' root' in
       Ok (length bs')) = Ok 37%nat)
  /\ ((let* bs := serialize (3 + depth) (store_of product) (root_of product) in
       Ok (length bs)) = Ok 39%nat
      /\ (let* (s', root', _) :=
            constant_fold (3 + depth) (store_of product) (root_of product)
              (mkStats 0 0 0) in
          node_of (3 + depth) s' root') = Ok (B.int_lit (2 ^ 64))
      /\ (let* (s', root', _) :=
            constant_fold (3 + depth) (store_of product) (root_of product)
              (mkStats 0 0 0) in
          serialize (3 + depth) s' root') = Raise OverflowError).
Proof.
  cbv zeta. repeat split; vm_compute; reflexivity.
Qed.

(* ================================================================== *)
(** * Further properties *)
(* ================================================================== *)

(** ** UTF-8: decoding what was encoded *)

Lemma lor_disjoint (q k y : Z) :
  0 <= k -> 0 <= y < 2 ^ k -> Z.lor (q * 2 ^ k) y = q * 2 ^ k + y.
Proof.
  intros Hk Hy.
  assert (E : Z.land (q * 2 ^ k) y = 0).
  { apply Z.bits_inj'. intros n Hn. rewrite Z.land_spec, Z.bits_0.
    destruct (Z_lt_le_dec n k) as [Hlt|Hge].
    - rewrite Z.mul_pow2_bits_low by assumption. reflexivity.
    - rewrite <- (Z.mod_small y (2 ^ k)) by assumption.
      rewrite Z.mod_pow2_bits_high by lia. apply andb_false_r. }
  pose proof (Z.add_lor_land (q * 2 ^ k) y) as H. rewrite E in H. lia.
Qed.

Lemma land_low (q k y : Z) :
  0 <= k -> 0 <= y < 2 ^ k -> Z.land (q * 2 ^ k + y) (Z.ones k) = y.
Proof.
  intros Hk Hy. rewrite Z.land_ones by assumption.
  rewrite Z.add_comm, Z.mod_add by lia. apply Z.mod_small. assumption.
Qed.

(** Decoding the bytes of one code point, followed by [rest], gives the
    code point back, followed by what [rest] decodes to. *)
Lemma utf8_decode_cp (c : Z) (bs : list byte) :
  utf8_encode_cp c = Ok bs ->
  forall (fuel : nat) (rest : list Z),
    utf8_decode_aux (S fuel) (map Z_of_byte bs ++ rest)
    = (let* r := utf8_decode_aux fuel rest in Ok (c :: r)).
Proof.
  unfold utf8_encode_cp, is_surrogate.
  destruct (Z.ltb_spec c 0) as [|H0]; [discriminate|].
  destruct (Z.ltb_spec 0x10FFFF c) as [|Hmax]; [discriminate|]. cbn [orb].
  destruct (Z.ltb_spec c 0x80) as [H1|H1].
  { intros [= <-] fuel rest. cbn [map Datatypes.app].
    rewrite Z_of_byte_of_Z by lia. cbn [utf8_decode_aux].
    rewrite (proj2 (Z.ltb_lt c 0x80)) by assumption. reflexivity. }
  destruct (Z.ltb_spec c 0x800) as [H2|H2].
  { intros [= <-] fuel rest. cbn [map Datatypes.app].
    rewrite Z.shiftr_div_pow2 by lia.
    change 0x3F with (Z.ones 6). rewrite Z.land_ones by lia.
    change (2 ^ 6) with 64.
    pose proof (Z.div_mod c 64 ltac:(lia)) as Hc.
    pose proof (Z.mod_pos_bound c 64 ltac:(lia)) as Hy.
    assert (Hx : 2 <= c / 64 < 32)
      by (split; [apply Z.div_le_lower_bound | apply Z.div_lt_upper_bound]; lia).
    set (x := c / 64) in *. set (y := c mod 64) in *.
    change 0xC0 with (6 * 2 ^ 5). change 0x80 with (2 * 2 ^ 6).
    rewrite !lor_disjoint by (change (2 ^ 5) with 32; change (2 ^ 6) with 64; lia).
    rewrite !Z_of_byte_of_Z
      by (change (2 ^ 5) with 32; change (2 ^ 6) with 64; lia).
    cbn [utf8_decode_aux]. unfold is_cont.
    change (Z.ones 6) with 63.
    change 0x1F with (Z.ones 5). change 63 with (Z.ones 6).
    rewrite !land_low by (change (2 ^ 5) with 32; change (2 ^ 6) with 64; lia).
    rewrite Z.shiftl_mul_pow2 by lia.
    rewrite lor_disjoint by (change (2 ^ 6) with 64; lia).
    change (2 ^ 5) with 32. change (2 ^ 6) with 64.
    rewrite (proj2 (Z.ltb_ge (6 * 32 + x) 128)) by lia.
    rewrite (proj2 (Z.leb_le 194 (6 * 32 + x))) by lia.
    rewrite (proj2 (Z.ltb_lt (6 * 32 + x) 224)) by lia.
    rewrite (proj2 (Z.leb_le 128 (2 * 64 + y))) by lia.
    rewrite (proj2 (Z.ltb_lt (2 * 64 + y) 192)) by lia.
    cbn [andb]. replace (x * 64 + y) with c by lia. reflexivity. }
  destruct ((0xD800 <=? c) && (c <=? 0xDFFF)) eqn:Hsur; [discriminate|].
  destruct (Z.ltb_spec c 0x10000) as [H3|H3].
  { intros [= <-] fuel rest. cbn [map Datatypes.app].
    rewrite !Z.shiftr_div_pow2 by lia.
    change 0x3F with (Z.ones 6). rewrite !Z.land_ones by lia.
    change (2 ^ 6) with 64. change (2 ^ 12) with 4096.
    pose proof (Z.div_mod c 64 ltac:(lia)) as Hc.
    pose proof (Z.mod_pos_bound c 64 ltac:(lia)) as Hz.
    pose proof (Z.div_mod (c / 64) 64 ltac:(lia)) as Hc'.
    pose proof (Z.mod_pos_bound (c / 64) 64 ltac:(lia)) as Hy.
    assert (Hdd : c / 4096 = c / 64 / 64)
      by (rewrite Z.div_div by lia; reflexivity).
    rewrite Hdd.
    assert (Hx : 0 <= c / 64 / 64 < 16).
    { split; [apply Z.div_pos; [apply Z.div_pos|]; lia|].
      apply Z.div_lt_upper_bound; [lia|].
      apply Z.div_lt_upper_bound; lia. }
    set (x := c / 64 / 64) in *. set (y := (c / 64) mod 64) in *.
    set (z := c mod 64) in *.
    change 0xE0 with (14 * 2 ^ 4). change 0x80 with (2 * 2 ^ 6).
    rewrite !lor_disjoint by (change (2 ^ 4) with 16; change (2 ^ 6) with 64; lia).
    rewrite !Z_of_byte_of_Z
      by (change (2 ^ 4) with 16; change (2 ^ 6) with 64; lia).
    cbn [utf8_decode_aux]. unfold is_cont, is_surrogate.
    change (Z.ones 6) with 63.
    change 0x0F with (Z.ones 4). change 63 with (Z.ones 6).
    rewrite !land_low by (change (2 ^ 4) with 16; change (2 ^ 6) with 64; lia).
    rewrite !Z.shiftl_mul_pow2 by lia.
    rewrite (lor_disjoint y 6 z) by (change (2 ^ 6) with 64; lia).
    rewrite (lor_disjoint x 12 (y * 2 ^ 6 + z))
      by (change (2 ^ 6) with 64; change (2 ^ 12) with 4096; lia).
    change (2 ^ 4) with 16. change (2 ^ 6) with 64. change (2 ^ 12) with 4096.
    replace (x * 4096 + (y * 64 + z)) with c by lia.
    rewrite (proj2 (Z.ltb_ge (14 * 16 + x) 128)) by lia.
    rewrite (proj2 (Z.leb_le 194 (14 * 16 + x))) by lia.
    rewrite (proj2 (Z.ltb_ge (14 * 16 + x) 224)) by lia.
    rewrite (proj2 (Z.leb_le 224 (14 * 16 + x))) by lia.
    rewrite (proj2 (Z.ltb_lt (14 * 16 + x) 240)) by lia.
    rewrite (proj2 (Z.leb_le 128 (2 * 64 + y))) by lia.
    rewrite (proj2 (Z.ltb_lt (2 * 64 + y) 192)) by lia.
    rewrite (proj2 (Z.leb_le 128 (2 * 64 + z))) by lia.
    rewrite (proj2 (Z.ltb_lt (2 * 64 + z) 192)) by lia.
    rewrite (proj2 (Z.leb_le 2048 c)) by lia.
    rewrite Hsur. reflexivity. }
  intros [= <-] fuel rest. cbn [map Datatypes.app].
  rewrite !Z.shiftr_div_pow2 by lia.
  change 0x3F with (Z.ones 6). rewrite !Z.land_ones by lia.
  change (2 ^ 6) with 64. change (2 ^ 12) with (64 * 64).
  change (2 ^ 18) with (64 * 64 * 64).
  rewrite <- !Z.div_div by lia.
  pose proof (Z.div_mod c 64 ltac:(lia)) as Hc.
  pose proof (Z.mod_pos_bound c 64 ltac:(lia)) as Hw.
  pose proof (Z.div_mod (c / 64) 64 ltac:(lia)) as Hc'.
  pose proof (Z.mod_pos_bound (c / 64) 64 ltac:(lia)) as Hz.
  pose proof (Z.div_mod (c / 64 / 64) 64 ltac:(lia)) as Hc''.
  pose proof (Z.mod_pos_bound (c / 64 / 64) 64 ltac:(lia)) as Hy.
  assert (Hx : 0 <= c / 64 / 64 / 64 < 5).
  { split; [repeat apply Z.div_pos; lia|].
    repeat (apply Z.div_lt_upper_bound; [lia|]). lia. }
  set (x := c / 64 / 64 / 64) in *. set (y := (c / 64 / 64) mod 64) in *.
  set (z := (c / 64) mod 64) in *. set (w := c mod 64) in *.
  change 0xF0 with (30 * 2 ^ 3). change 0x80 with (2 * 2 ^ 6).
  rewrite !lor_disjoint by (change (2 ^ 3) with 8; change (2 ^ 6) with 64; lia).
  rewrite !Z_of_byte_of_Z
    by (change (2 ^ 3) with 8; change (2 ^ 6) with 64; lia).
  cbn [utf8_decode_aux]. unfold is_cont.
  change (Z.ones 6) with 63.
  change 0x07 with (Z.ones 3). change 63 with (Z.ones 6).
  rewrite !land_low by (change (2 ^ 3) with 8; change (2 ^ 6) with 64; lia).
  rewrite !Z.shiftl_mul_pow2 by lia.
  rewrite (lor_disjoint z 6 w) by (change (2 ^ 6) with 64; lia).
  rewrite (lor_disjoint y 12 (z * 2 ^ 6 + w))
    by (change (2 ^ 6) with 64; change (2 ^ 12) with 4096; lia).
  rewrite (lor_disjoint x 18 (y * 2 ^ 12 + (z * 2 ^ 6 + w)))
    by (change (2 ^ 6) with 64; change (2 ^ 12) with 4096;
        change (2 ^ 18) with 262144; lia).
  change (2 ^ 3) with 8. change (2 ^ 6) with 64. change (2 ^ 12) with 4096.
  change (2 ^ 18) with 262144.
  replace (x * 262144 + (y * 4096 + (z * 64 + w))) with c by lia.
  rewrite (proj2 (Z.ltb_ge (30 * 8 + x) 128)) by lia.
  rewrite (proj2 (Z.leb_le 194 (30 * 8 + x))) by lia.
  rewrite (proj2 (Z.ltb_ge (30 * 8 + x) 224)) by lia.
  rewrite (proj2 (Z.leb_le 224 (30 * 8 + x))) by lia.
  rewrite (proj2 (Z.ltb_ge (30 * 8 + x) 240)) by lia.
  rewrite (proj2 (Z.leb_le 240 (30 * 8 + x))) by lia.
  rewrite (proj2 (Z.ltb_lt (30 * 8 + x) 245)) by lia.
  rewrite (proj2 (Z.leb_le 128 (2 * 64 + y))) by lia.
  rewrite (proj2 (Z.ltb_lt (2 * 64 + y) 192)) by lia.
  rewrite (proj2 (Z.leb_le 128 (2 * 64 + z))) by lia.
  rewrite (proj2 (Z.ltb_lt (2 * 64 + z) 192)) by lia.
  rewrite (proj2 (Z.leb_le 128 (2 * 64 + w))) by lia.
  rewrite (proj2 (Z.ltb_lt (2 * 64 + w) 192)) by lia.
  rewrite (proj2 (Z.leb_le 65536 c)) by lia.
  rewrite (proj2 (Z.leb_le c 1114111)) by lia.
  reflexivity.
Qed.

Lemma utf8_encode_cons (c : Z) (s : pystr) (enc : list byte) :
  utf8_encode (c :: s) = Ok enc ->
  exists bs rest,
    utf8_encode_cp c = Ok bs /\ utf8_encode s = Ok rest /\ enc = bs ++ rest
    /\ (0 < length bs)%nat.
Proof.
  cbn [utf8_encode]. destruct (utf8_encode_cp c) as [bs|] eqn:Ec; [|discriminate].
  cbn [rbind]. destruct (utf8_encode s) as [rest|]; [|discriminate].
  intros [= <-]. exists bs, rest. repeat split.
  revert Ec. unfold utf8_encode_cp.
  repeat match goal with
         | |- context [if ?b then _ else _] => destruct b
         end; intros [= <-]; cbn; lia.
Qed.

Lemma utf8_encode_length (s : pystr) :
  forall enc, utf8_encode s = Ok enc -> (length s <= length enc)%nat.
Proof.
  induction s as [|c s IH]; intros enc H; [cbn; lia|].
  apply utf8_encode_cons in H as (bs & rest & _ & Hs & -> & Hlen).
  specialize (IH rest Hs). rewrite length_app. cbn [length]. lia.
Qed.

Lemma utf8_decode_encode_aux (s : pystr) :
  forall enc, utf8_encode s = Ok enc ->
  forall fuel, (length s <= fuel)%nat ->
    utf8_decode_aux fuel (map Z_of_byte enc) = Ok s.
Proof.
  induction s as [|c s IH]; intros enc H fuel Hfuel.
  - injection H as <-. destruct fuel; reflexivity.
  - apply utf8_encode_cons in H as (bs & rest & Hc & Hs & -> & _).
    destruct fuel as [|fuel]; [cbn in Hfuel; lia|].
    rewrite map_app, (utf8_decode_cp c bs Hc).
    rewrite (IH rest Hs) by (cbn in Hfuel; lia). reflexivity.
Qed.

(** [s.encode('utf-8').decode('utf-8') == s]. *)
Lemma utf8_decode_encode (s : pystr) (enc : list byte) :
  utf8_encode s = Ok enc -> utf8_decode enc = Ok s.
Proof.
  intros H. unfold utf8_decode.
  apply (utf8_decode_encode_aux s enc H). apply utf8_encode_length, H.
Qed.

(** ** Trees and stores *)

(** Induction on trees, with the hypothesis for every child. *)
Lemma Node_ind' (P : Node -> Prop) :
  (forall t cs op d e l, Forall P cs -> P (mkNode t cs op d e l)) ->
  forall n : Node, P n.
Proof.
  intros H. fix IH 1. intros [t cs op d e l]. apply H.
  induction cs as [|c cs IHcs]; constructor; [apply IH | exact IHcs].
Qed.

Lemma build_unfold (n : Node) (s : Store) :
  build n s
  = (let '(s', cs) := build_list (children n) s in
     alloc s' (mkObj (tag n) cs (prim_op n) (data n) (effect n)
                 (universe_level n))).
Proof.
  destruct n as [t cs op d e l]. cbn [build children tag prim_op data effect universe_level].
  match goal with
  | |- (let '(_, _) := ?f cs s in _) = _ =>
      assert (E : forall cs s, f cs s = build_list cs s)
  end.
  { clear. induction cs as [|c cs IH]; intros s; [reflexivity|].
    cbn [build_list]. destruct (build c s) as [s1 a]. rewrite IH. reflexivity. }
  rewrite E. reflexivity.
Qed.

(** Induction on the run of [build]: a property [P] of (tree, store
    before, store after, address) that is kept by the allocation of a
    parent after its children. *)
Lemma build_ind (P : Node -> Store -> Store -> nat -> Prop)
    (Q : list Node -> Store -> Store -> list nat -> Prop) :
  (forall s, Q [] s s []) ->
  (forall c cs s s1 a s2 r,
     P c s s1 a -> Q cs s1 s2 r -> Q (c :: cs) s s2 (a :: r)) ->
  (forall n s s' addrs,
     Q (children n) s s' addrs ->
     P n s (s' ++ [mkObj (tag n) addrs (prim_op n) (data n) (effect n)
                     (universe_level n)]) (length s')) ->
  forall (n : Node) (s : Store), P n s (fst (build n s)) (snd (build n s)).
Proof.
  intros Hnil Hcons Hnode.
  induction n as [t cs op d e l IH] using Node_ind'. intros s.
  rewrite build_unfold. cbn [children tag prim_op data effect universe_level].
  assert (HQ : forall s, Q cs s (fst (build_list cs s)) (snd (build_list cs s))).
  { clear s. induction IH as [|c cs Hc _ IHcs]; intros s; [apply Hnil|].
    cbn [build_list]. specialize (Hc s).
    destruct (build c s) as [s1 a]. specialize (IHcs s1).
    destruct (build_list cs s1) as [s2 r]. cbn [fst snd] in *.
    eapply Hcons; eassumption. }
  specialize (HQ s). destruct (build_list cs s) as [s' addrs].
  cbn [fst snd alloc] in *.
  apply (Hnode (mkNode t cs op d e l)). exact HQ.
Qed.

(** [build] appends to the store: one object per node, the root last. *)
Lemma build_extends (n : Node) (s : Store) :
  exists objs : list Obj,
    fst (build n s) = s ++ objs
    /\ length objs = size n
    /\ snd (build n s) = (length s + size n - 1)%nat.
Proof.
  revert n s.
  apply (build_ind
    (fun n s s' a => exists objs, s' = s ++ objs /\ length objs = size n
                                  /\ a = (length s + size n - 1)%nat)
    (fun cs s s' _ => exists objs, s' = s ++ objs
       /\ length objs = foldr (fun c acc => (size c + acc)%nat) O cs)).
  - intros s. exists []. rewrite app_nil_r. split; reflexivity.
  - intros c cs s s1 a s2 r (o1 & -> & L1 & _) (o2 & -> & L2).
    exists (o1 ++ o2). rewrite <- app_assoc. split; [reflexivity|].
    rewrite length_app. cbn [foldr]. lia.
  - intros n s s' addrs (o & -> & L).
    exists (o ++ [mkObj (tag n) addrs (prim_op n) (data n) (effect n)
                    (universe_level n)]).
    rewrite <- app_assoc. split; [reflexivity|].
    destruct n as [t cs op d e l]. cbn [size children] in *.
    rewrite !length_app. cbn [length]. split; lia.
Qed.

(** ** Reading back what was written *)

Lemma at_pos_app (data : list byte) (pos : nat) (x y : list byte) :
  at_pos data pos (x ++ y) ->
  at_pos data pos x /\ at_pos data (pos + length x) y.
Proof.
  intros [rest H]. split.
  - exists (y ++ rest). rewrite H, <- app_assoc. reflexivity.
  - exists rest. rewrite <- drop_drop, H, <- app_assoc.
    rewrite drop_app_length. reflexivity.
Qed.

Lemma at_pos_slice (data : list byte) (pos : nat) (bs : list byte) :
  at_pos data pos bs -> slice data pos (length bs) = bs.
Proof.
  intros [rest H]. unfold slice. rewrite H. apply take_app_length.
Qed.

Lemma at_pos_byte (data : list byte) (pos : nat) (b : byte) (bs : list byte) :
  at_pos data pos (b :: bs) ->
  byte_at data pos = Ok (Z_of_byte b) /\ (pos < length data)%nat.
Proof.
  intros [rest H].
  assert (E : data !! pos = Some b).
  { rewrite <- (Nat.add_0_r pos), <- lookup_drop, H. reflexivity. }
  split.
  - unfold byte_at. rewrite E. reflexivity.
  - apply lookup_lt_Some in E. exact E.
Qed.

Lemma at_pos_here (pre bs post : list byte) :
  at_pos (pre ++ bs ++ post) (length pre) bs.
Proof. exists post. rewrite drop_app_length. reflexivity. Qed.

(** The child indices, two bytes each. *)
Lemma read_children_spec (data : list byte) (cs : list nat) :
  forall pos : nat,
    at_pos data pos (concat (map (fun c => be_bytes 2 (Z.of_nat c)) cs)) ->
    Forall (fun c => Z.of_nat c < 65536) cs ->
    read_children data (length cs) pos = (cs, (pos + 2 * length cs)%nat).
Proof.
  induction cs as [|c cs IH]; intros pos Hat Hcs.
  - cbn. f_equal. lia.
  - cbn [map concat] in Hat. apply at_pos_app in Hat as [Hc Hrest].
    rewrite length_be_bytes in Hrest.
    inversion Hcs as [|? ? Hlt Hcs']; subst.
    cbn [length read_children].
    rewrite (IH _ Hrest Hcs').
    apply at_pos_slice in Hc. rewrite length_be_bytes in Hc. rewrite Hc.
    rewrite int_from_bytes_unsigned by (change (256 ^ Z.of_nat 2) with 65536; lia).
    rewrite Nat2Z.id. f_equal. lia.
Qed.

(** The header byte gives back the tag and the number of children. *)
Lemma header_byte_read (t : Tag) (a : nat) :
  (a <= 15)%nat ->
  let hb := header_byte t (Z.of_nat a) in
  0 <= hb < 256
  /\ tag_map (Z.land (Z.shiftr hb 4) 0x0F) = Some t
  /\ Z.to_nat (Z.land hb 0x0F) = a.
Proof.
  intros Ha.
  do 16 (destruct a as [|a]; [destruct t; vm_compute; repeat split; congruence|]).
  lia.
Qed.

Lemma int_to_bytes_unsigned (w : nat) (z : Z) :
  0 <= z < 256 ^ Z.of_nat w -> int_to_bytes w false z = Ok (be_bytes w z).
Proof.
  intros Hz. unfold int_to_bytes.
  rewrite (proj2 (Z.leb_le 0 z)), (proj2 (Z.ltb_lt z _)) by lia. reflexivity.
Qed.

Lemma int_to_bytes_signed (w : nat) (z : Z) :
  - (256 ^ Z.of_nat w / 2) <= z < 256 ^ Z.of_nat w / 2 ->
  int_to_bytes w true z = Ok (be_bytes w (z mod 256 ^ Z.of_nat w)).
Proof.
  intros Hz. unfold int_to_bytes.
  rewrite (proj2 (Z.leb_le _ z)), (proj2 (Z.ltb_lt z _)) by lia. reflexivity.
Qed.

(** The payload of a Primitive node is read back as it was written. *)
Lemma prim_payload_read (op : Z) (d : Data) :
  payload_ok op d = true ->
  exists db : list byte,
    prim_payload op d = Ok (byte_of_Z op :: db)
    /\ forall (data : list byte) (pos : nat),
         at_pos data pos (byte_of_Z op :: db) ->
         read_prim data pos = Ok (op, d, (pos + 1 + length db)%nat).
Proof.
  unfold payload_ok. intros H.
  apply andb_true_iff in H as [Hop H].
  apply andb_true_iff in Hop as [Hop0 Hop1].
  apply Z.leb_le in Hop0. apply Z.ltb_lt in Hop1.
  assert (Hb1 : bytes1 op = Ok [byte_of_Z op]) by (apply bytes1_in_range; lia).
  assert (Hread : forall data pos db,
            at_pos data pos (byte_of_Z op :: db) ->
            byte_at data pos = Ok op /\ at_pos data (pos + 1) db).
  { intros data pos db Hat. split.
    - apply at_pos_byte in Hat as [-> _]. rewrite Z_of_byte_of_Z by lia.
      reflexivity.
    - apply (at_pos_app data pos [byte_of_Z op] db) in Hat as [_ Hat].
      exact Hat. }
  unfold prim_payload, read_prim. rewrite Hb1. cbn [rbind].
  destruct (Z.eqb_spec op PrimOp.INT_LIT) as [Ei|Ei].
  { destruct d as [| |z| |]; try discriminate.
    apply andb_true_iff in H as [Hlo Hhi].
    apply Z.leb_le in Hlo. apply Z.ltb_lt in Hhi.
    cbn [data_as_int default from_option id].
    rewrite (int_to_bytes_signed 8 z)
      by (change (256 ^ Z.of_nat 8 / 2) with (2 ^ 63); lia).
    cbn [rbind]. eexists. split; [reflexivity|].
    intros data pos Hat. apply Hread in Hat as [-> Hat]. cbn [rbind].
    rewrite (proj2 (Z.eqb_eq op PrimOp.INT_LIT) Ei).
    apply at_pos_slice in Hat. rewrite length_be_bytes in Hat.
    rewrite length_be_bytes, Hat.
    rewrite int_from_bytes_signed
      by (try lia; change (256 ^ Z.of_nat 8 / 2) with (2 ^ 63); lia).
    reflexivity. }
  destruct (Z.eqb_spec op PrimOp.FLOAT_LIT) as [Ef|Ef].
  { destruct d as [| | |bits|]; try discriminate.
    apply andb_true_iff in H as [Hlo Hhi].
    apply Z.leb_le in Hlo. apply Z.ltb_lt in Hhi.
    cbn [rbind]. eexists. split; [reflexivity|].
    intros data pos Hat. apply Hread in Hat as [-> Hat]. cbn [rbind].
    rewrite (proj2 (Z.eqb_neq op PrimOp.INT_LIT) Ei).
    rewrite (proj2 (Z.eqb_eq op PrimOp.FLOAT_LIT) Ef).
    apply at_pos_slice in Hat. rewrite length_be_bytes in Hat.
    rewrite length_be_bytes, Hat.
    unfold unpack_double. rewrite length_be_bytes. cbn [Nat.eqb rbind].
    rewrite int_from_bytes_unsigned
      by (change (256 ^ Z.of_nat 8) with (2 ^ 64); lia).
    reflexivity. }
  destruct (Z.eqb_spec op PrimOp.STR_LIT) as [Es|Es].
  { destruct d as [| | | |str]; try discriminate.
    destruct (utf8_encode str) as [enc|] eqn:Henc; [|discriminate].
    apply Z.ltb_lt in H.
    cbn [rbind].
    rewrite (int_to_bytes_unsigned 2)
      by (change (256 ^ Z.of_nat 2) with 65536; lia).
    cbn [rbind]. eexists. split; [reflexivity|].
    intros data pos Hat. apply Hread in Hat as [-> Hat]. cbn [rbind].
    rewrite (proj2 (Z.eqb_neq op PrimOp.INT_LIT) Ei).
    rewrite (proj2 (Z.eqb_neq op PrimOp.FLOAT_LIT) Ef).
    rewrite (proj2 (Z.eqb_eq op PrimOp.STR_LIT) Es).
    apply at_pos_app in Hat as [Hlen Hstr].
    apply at_pos_slice in Hlen. rewrite length_be_bytes in Hlen, Hstr.
    rewrite Hlen.
    rewrite int_from_bytes_unsigned
      by (change (256 ^ Z.of_nat 2) with 65536; lia).
    rewrite Nat2Z.id.
    apply at_pos_slice in Hstr. rewrite Hstr.
    rewrite (utf8_decode_encode str enc Henc). cbn [rbind].
    rewrite length_app, length_be_bytes. do 2 f_equal. lia. }
  destruct (Z.eqb_spec op PrimOp.VAR) as [Ev|Ev].
  { destruct d as [| |z| |]; try discriminate.
    apply andb_true_iff in H as [Hlo Hhi].
    apply Z.leb_le in Hlo. apply Z.ltb_lt in Hhi.
    cbn [data_as_int default from_option id].
    rewrite (int_to_bytes_unsigned 2)
      by (change (256 ^ Z.of_nat 2) with 65536; lia).
    cbn [rbind]. eexists. split; [reflexivity|].
    intros data pos Hat. apply Hread in Hat as [-> Hat]. cbn [rbind].
    rewrite (proj2 (Z.eqb_neq op PrimOp.INT_LIT) Ei).
    rewrite (proj2 (Z.eqb_neq op PrimOp.FLOAT_LIT) Ef).
    rewrite (proj2 (Z.eqb_neq op PrimOp.STR_LIT) Es).
    rewrite (proj2 (Z.eqb_eq op PrimOp.VAR) Ev).
    apply at_pos_slice in Hat. rewrite length_be_bytes in Hat.
    rewrite length_be_bytes, Hat.
    rewrite int_from_bytes_unsigned
      by (change (256 ^ Z.of_nat 2) with 65536; lia).
    reflexivity. }
  destruct d; try discriminate.
  cbn [rbind]. exists []. split; [reflexivity|].
  intros data pos Hat. apply Hread in Hat as [-> Hat]. cbn [rbind].
  rewrite (proj2 (Z.eqb_neq op PrimOp.INT_LIT) Ei).
  rewrite (proj2 (Z.eqb_neq op PrimOp.FLOAT_LIT) Ef).
  rewrite (proj2 (Z.eqb_neq op PrimOp.STR_LIT) Es).
  rewrite (proj2 (Z.eqb_neq op PrimOp.VAR) Ev).
  cbn [length]. do 2 f_equal. lia.
Qed.

Lemma length_edges (cs : list nat) :
  length (concat (map (fun c => be_bytes 2 (Z.of_nat c)) cs))
  = (2 * length cs)%nat.
Proof.
  induction cs as [|c cs IH]; [reflexivity|].
  cbn [map concat length]. rewrite length_app, length_be_bytes, IH. lia.
Qed.

Lemma edges_written (idx : gmap nat nat) (i : nat) (cs : list nat) :
  Z.of_nat i <= 65536 ->
  (forall c, (c < i)%nat -> idx !! c = Some c) ->
  Forall (fun c => (c < i)%nat) cs ->
  mapM (fun c => let* j := index_lookup idx c in int_to_bytes 2 false j) cs
  = Ok (map (fun c => be_bytes 2 (Z.of_nat c)) cs).
Proof.
  intros Hi Hidx Hcs. induction Hcs as [|c cs Hc _ IH]; [reflexivity|].
  cbn [mapM map]. unfold index_lookup at 1. rewrite (Hidx c Hc). cbn [rbind].
  rewrite int_to_bytes_unsigned by (change (256 ^ Z.of_nat 2) with 65536; lia).
  cbn [rbind]. rewrite IH. reflexivity.
Qed.

(** The record of an object of a well-formed table is read back as the
    object, and reading ends where the record ends. *)
Lemma node_record_read (idx : gmap nat nat) (i : nat) (o : Obj) :
  obj_ok i o = true ->
  Z.of_nat i <= 65536 ->
  (forall c, (c < i)%nat -> idx !! c = Some c) ->
  exists rec : list byte,
    node_record idx o = Ok rec
    /\ (0 < length rec)%nat
    /\ forall (data : list byte) (pos : nat),
         at_pos data pos rec ->
         read_node data pos = Ok (o, (pos + length rec)%nat).
Proof.
  destruct o as [t cs op d e l]. unfold obj_ok.
  cbn [o_tag o_children o_prim_op o_data o_effect o_universe_level].
  intros H Hi Hidx.
  apply andb_true_iff in H as [H Hcs]. apply andb_true_iff in H as [Har Hf].
  apply Nat.leb_le in Har.
  assert (Hcs' : Forall (fun c => (c < i)%nat) cs).
  { apply Forall_forall. intros c Hc.
    rewrite forallb_forall in Hcs. apply Nat.ltb_lt, Hcs.
    apply list_elem_of_In, Hc. }
  destruct (header_byte_read t (length cs) Har) as (Hhb & Htag & Harity).
  pose proof (edges_written idx i cs Hi Hidx Hcs') as Hedges.
  assert (Hcs16 : Forall (fun c => Z.of_nat c < 65536) cs).
  { eapply Forall_impl; [exact Hcs'|]. cbn. intros c Hc. lia. }
  unfold node_record.
  cbn [o_tag o_children o_prim_op o_data o_effect o_universe_level].
  rewrite bytes1_in_range by exact Hhb. cbn [rbind].
  rewrite Hedges. cbn [rbind].
  set (hb := header_byte t (Z.of_nat (length cs))) in *.
  set (edges := concat (map (fun c => be_bytes 2 (Z.of_nat c)) cs)).
  assert (Hread : forall data pos tail,
    at_pos data pos ([byte_of_Z hb] ++ edges ++ tail) ->
    read_node data pos
    = match t with
      | PRIM =>
          let* (prim_op, node_data, pos') :=
            read_prim data (pos + 1 + 2 * length cs) in
          Ok (mkObj t cs (Some prim_op) node_data 0 0, pos')
      | UNI =>
          Ok (mkObj t cs None DNone 0
                (int_from_bytes false
                   (slice data (pos + 1 + 2 * length cs) 2)),
              (pos + 1 + 2 * length cs + 2)%nat)
      | EFF =>
          let* effect := byte_at data (pos + 1 + 2 * length cs) in
          Ok (mkObj t cs None DNone effect 0,
              (pos + 1 + 2 * length cs + 1)%nat)
      | _ => Ok (mkObj t cs None DNone 0 0, (pos + 1 + 2 * length cs)%nat)
      end
    /\ at_pos data (pos + 1 + 2 * length cs) tail).
  { intros data pos tail Hat.
    apply at_pos_app in Hat as [Hh Hat]. apply at_pos_app in Hat as [He Hat].
    cbn [length] in He, Hat. unfold edges in Hat. rewrite length_edges in Hat.
    split; [|exact Hat].
    apply at_pos_byte in Hh as [Hbyte Hlt].
    rewrite Z_of_byte_of_Z in Hbyte by exact Hhb.
    unfold read_node.
    rewrite (proj2 (Nat.leb_gt (length data) pos) Hlt).
    rewrite Hbyte. cbn [rbind]. cbv zeta.
    rewrite Htag, Harity.
    rewrite (read_children_spec data cs (pos + 1) He Hcs16).
    destruct t; reflexivity. }
  assert (Hel : length edges = (2 * length cs)%nat) by apply length_edges.
  assert (Hplain : forall tail : list byte,
            tail = [] ->
            (0 < length ([byte_of_Z hb] ++ edges ++ tail))%nat
            /\ forall data pos,
                 at_pos data pos ([byte_of_Z hb] ++ edges ++ tail) ->
                 (pos + 1 + 2 * length cs
                  = pos + length ([byte_of_Z hb] ++ edges ++ tail))%nat).
  { intros tail ->. rewrite !length_app, Hel. cbn [length]. split; lia. }
  destruct t; cbn [fields_ok] in Hf.
  all: repeat match goal with
       | |- context [tag_eqb ?a ?b] =>
           let v := eval vm_compute in (tag_eqb a b) in
           change (tag_eqb a b) with v
       end; cbv beta iota.
  all: try (
    unfold no_payload in Hf;
    destruct op; [discriminate|]; destruct d; try discriminate;
    cbn [andb] in Hf).
  all: repeat match type of Hf with
       | (_ && _) = true =>
           let H := fresh "Hf" in apply andb_true_iff in Hf as [Hf H]
       end.
  all: repeat match goal with
       | H : (_ =? _) = true |- _ => apply Z.eqb_eq in H; subst
       | H : (_ <=? _) = true |- _ => apply Z.leb_le in H
       | H : (_ <? _) = true |- _ => apply Z.ltb_lt in H
       end.
  all: cbn [rbind].
  - (* LAM *)
    eexists. split; [reflexivity|]. destruct (Hplain _ eq_refl) as [Hlen Hpos].
    split; [exact Hlen|]. intros data pos Hat.
    destruct (Hread data pos _ Hat) as [-> _]. rewrite (Hpos data pos Hat).
    reflexivity.
  - eexists. split; [reflexivity|]. destruct (Hplain _ eq_refl) as [Hlen Hpos].
    split; [exact Hlen|]. intros data pos Hat.
    destruct (Hread data pos _ Hat) as [-> _]. rewrite (Hpos data pos Hat).
    reflexivity.
  - eexists. split; [reflexivity|]. destruct (Hplain _ eq_refl) as [Hlen Hpos].
    split; [exact Hlen|]. intros data pos Hat.
    destruct (Hread data pos _ Hat) as [-> _]. rewrite (Hpos data pos Hat).
    reflexivity.
  - eexists. split; [reflexivity|]. destruct (Hplain _ eq_refl) as [Hlen Hpos].
    split; [exact Hlen|]. intros data pos Hat.
    destruct (Hread data pos _ Hat) as [-> _]. rewrite (Hpos data pos Hat).
    reflexivity.
  - (* UNI *)
    rewrite (int_to_bytes_unsigned 2)
      by (change (256 ^ Z.of_nat 2) with 65536; lia).
    cbn [rbind]. eexists. split; [reflexivity|].
    rewrite !app_nil_r, !length_app, Hel, length_be_bytes.
    cbn [length]. split; [lia|]. intros data pos Hat.
    rewrite app_nil_l in Hat.
    destruct (Hread data pos _ Hat) as [-> Hl].
    apply at_pos_slice in Hl. rewrite length_be_bytes in Hl. rewrite Hl.
    rewrite int_from_bytes_unsigned
      by (change (256 ^ Z.of_nat 2) with 65536; lia).
    do 2 f_equal. lia.
  - eexists. split; [reflexivity|]. destruct (Hplain _ eq_refl) as [Hlen Hpos].
    split; [exact Hlen|]. intros data pos Hat.
    destruct (Hread data pos _ Hat) as [-> _]. rewrite (Hpos data pos Hat).
    reflexivity.
  - eexists. split; [reflexivity|]. destruct (Hplain _ eq_refl) as [Hlen Hpos].
    split; [exact Hlen|]. intros data pos Hat.
    destruct (Hread data pos _ Hat) as [-> _]. rewrite (Hpos data pos Hat).
    reflexivity.
  - eexists. split; [reflexivity|]. destruct (Hplain _ eq_refl) as [Hlen Hpos].
    split; [exact Hlen|]. intros data pos Hat.
    destruct (Hread data pos _ Hat) as [-> _]. rewrite (Hpos data pos Hat).
    reflexivity.
  - (* EFF *)
    rewrite bytes1_in_range by lia.
    cbn [rbind]. eexists. split; [reflexivity|].
    rewrite !length_app, Hel.
    cbn [length]. split; [lia|]. intros data pos Hat.
    rewrite !app_nil_l in Hat.
    destruct (Hread data pos _ Hat) as [-> Hl].
    apply at_pos_byte in Hl as [-> _].
    rewrite Z_of_byte_of_Z by lia. cbn [rbind].
    do 2 f_equal. lia.
  - (* PRIM *)
    destruct op as [o|]; [|discriminate].
    apply andb_true_iff in Hf as [Hf Hl]. apply andb_true_iff in Hf as [Hp He].
    apply Z.eqb_eq in Hl, He. subst e l.
    destruct (prim_payload_read o d Hp) as (db & Hw & Hr).
    rewrite Hw. cbn [rbind].
    eexists. split; [reflexivity|].
    rewrite !app_nil_r, !length_app, Hel. cbn [length].
    split; [lia|]. intros data pos Hat.
    destruct (Hread data pos _ Hat) as [-> Hl].
    rewrite (Hr _ _ Hl). cbn [rbind]. do 2 f_equal. lia.
Qed.

(** The records of a well-formed table, one after the other, are read
    back as the table; reading goes on after the last of them. *)
Lemma records_read (idx : gmap nat nat) (os : list Obj) :
  forall base : nat,
    (forall j o, os !! j = Some o -> obj_ok (base + j) o = true) ->
    Z.of_nat (base + length os) <= 65536 ->
    (forall c, (c < base + length os)%nat -> idx !! c = Some c) ->
    exists recs : list (list byte),
      mapM (node_record idx) os = Ok recs
      /\ forall (data : list byte) (pos : nat) (acc : list Obj) (more : nat),
           at_pos data pos (concat recs) ->
           read_nodes data (length os + more) pos acc
           = read_nodes data more (pos + length (concat recs)) (acc ++ os).
Proof.
  induction os as [|o os IH]; intros base Hok Hlen Hidx.
  - exists []. split; [reflexivity|]. intros data pos acc more _.
    cbn [length concat Nat.add]. rewrite app_nil_r, Nat.add_0_r. reflexivity.
  - cbn [length] in Hlen, Hidx.
    destruct (node_record_read idx base o) as (rec & Hw & Hpos & Hr).
    { specialize (Hok O o eq_refl). rewrite Nat.add_0_r in Hok. exact Hok. }
    { lia. }
    { intros c Hc. apply Hidx. lia. }
    destruct (IH (S base)) as (recs & Hws & Hrs).
    { intros j o' Hj. specialize (Hok (S j) o' Hj).
      rewrite Nat.add_succ_r in Hok. exact Hok. }
    { lia. }
    { intros c Hc. apply Hidx. lia. }
    exists (rec :: recs). split.
    + cbn [mapM]. rewrite Hw. cbn [rbind]. rewrite Hws. reflexivity.
    + intros data pos acc more Hat. cbn [concat] in Hat.
      apply at_pos_app in Hat as [Hrec Hrest].
      cbn [length Nat.add read_nodes]. rewrite (Hr data pos Hrec).
      cbn [rbind].
      rewrite (Hrs data _ _ more Hrest), <- app_assoc.
      cbn [concat]. rewrite length_app, Nat.add_assoc. reflexivity.
Qed.

Lemma mapM_get_seq {Y : Type} (f : Obj -> Res Y) (s : Store) :
  forall pre : Store,
    mapM (fun a => let* o := get (pre ++ s) a in f o)
      (seq (length pre) (length s))
    = mapM f s.
Proof.
  induction s as [|o s IH]; intros pre; [reflexivity|].
  cbn [length seq mapM]. unfold get at 1, Store.
  rewrite lookup_app_r, Nat.sub_diag by lia. cbn [lookup list_lookup rbind].
  specialize (IH (pre ++ [o])).
  rewrite <- app_assoc, length_app, Nat.add_comm in IH. cbn in IH.
  rewrite IH. reflexivity.
Qed.

Lemma enumerate_index_seq (k c : nat) :
  (c < k)%nat -> enumerate_index (seq 0 k) !! c = Some c.
Proof.
  intros Hc. unfold enumerate_index. rewrite length_seq.
  apply elem_of_list_to_map_1.
  - rewrite fst_zip by lia. apply NoDup_seq.
  - apply list_elem_of_lookup. exists c.
    apply lookup_zip_with_Some. exists c, c.
    rewrite !lookup_seq. repeat split; lia.
Qed.

Lemma resolve_table (nodes : list Obj) :
  table_ok nodes -> resolve nodes = Ok tt.
Proof.
  intros Hok. unfold resolve.
  assert (H : forall os : list Obj,
            (forall o, o ∈ os ->
               Forall (fun c => (c < length nodes)%nat) (o_children o)) ->
            foldM (fun (_ : unit) node =>
                     foldM (fun (_ : unit) idx =>
                              if (idx <? length nodes)%nat then Ok tt
                              else Raise IndexError) (o_children node) tt)
              os tt = Ok tt).
  { induction os as [|o os IH]; intros Hos; [reflexivity|].
    cbn [foldM].
    assert (E : foldM (fun (_ : unit) idx =>
                         if (idx <? length nodes)%nat then Ok tt
                         else Raise IndexError) (o_children o) tt = Ok tt).
    { specialize (Hos o ltac:(left)). induction Hos as [|c cs Hc _ IHc];
        [reflexivity|].
      cbn [foldM]. rewrite (proj2 (Nat.ltb_lt _ _) Hc). cbn [rbind].
      exact IHc. }
    rewrite E. cbn [rbind]. apply IH. intros o' Ho'. apply Hos. right.
    exact Ho'. }
  apply H. intros o Ho.
  apply list_elem_of_lookup in Ho as [i Hi].
  specialize (Hok i o Hi). unfold obj_ok in Hok.
  apply andb_true_iff in Hok as [_ Hcs].
  apply Forall_forall. intros c Hc.
  rewrite forallb_forall in Hcs.
  specialize (Hcs c (proj1 (list_elem_of_In _ _) Hc)).
  apply Nat.ltb_lt in Hcs. apply lookup_lt_Some in Hi. lia.
Qed.

Lemma collect_root_in_store (depth : nat) (s : Store) (root : nat)
    (r : gset nat * list nat) :
  collect depth s (∅, []) root = Ok r -> (root < length s)%nat.
Proof.
  destruct depth as [|depth]; [discriminate|].
  cbn [collect]. rewrite bool_decide_eq_false_2 by set_solver.
  unfold get. destruct (s !! root) as [o|] eqn:E; [|discriminate].
  intros _. apply lookup_lt_Some in E. exact E.
Qed.

(** The bytes serialize writes for a well-formed table laid out as
    serialize lays a graph out: the header, then records that are read
    back as the table. *)
Lemma serialize_table (depth : nat) (s : Store) (root : nat) :
  in_table_form depth s root ->
  table_ok s ->
  Z.of_nat (length s) < 65536 ->
  (root < length s)%nat
  /\ exists recs : list (list byte),
       serialize depth s root
       = Ok (MAGIC ++ [byte_of_Z FORMAT_VERSION]
               ++ be_bytes 2 (Z.of_nat (length s))
               ++ be_bytes 2 (Z.of_nat root) ++ concat recs)
       /\ forall (data : list byte) (pos : nat) (acc : list Obj) (more : nat),
            at_pos data pos (concat recs) ->
            read_nodes data (length s + more) pos acc
            = read_nodes data more (pos + length (concat recs)) (acc ++ s).
Proof.
  intros [visited Hcol] Hok Hlen.
  pose proof (collect_root_in_store _ _ _ _ Hcol) as Hroot.
  split; [exact Hroot|].
  unfold serialize. rewrite Hcol. cbn [rbind]. rewrite length_seq.
  rewrite (int_to_bytes_unsigned 2)
    by (change (256 ^ Z.of_nat 2) with 65536; lia).
  cbn [rbind]. unfold index_lookup.
  rewrite (enumerate_index_seq _ _ Hroot). cbn [rbind].
  rewrite (int_to_bytes_unsigned 2)
    by (change (256 ^ Z.of_nat 2) with 65536; lia).
  cbn [rbind].
  pose proof (mapM_get_seq
                (node_record (enumerate_index (seq 0 (length s)))) s []) as E.
  cbn [Datatypes.app length] in E. rewrite E. clear E.
  destruct (records_read (enumerate_index (seq 0 (length s))) s O)
    as (recs & Hw & Hr).
  { intros j o Hj. apply Hok. exact Hj. }
  { cbn. lia. }
  { intros c Hc. apply enumerate_index_seq. exact Hc. }
  rewrite Hw. cbn [rbind]. exists recs. split; [reflexivity | exact Hr].
Qed.

(** Reading the header serialize writes, whatever follows it: the node
    count, the root index, and the position of the first record. *)
Lemma deserialize_header (count root : Z) (body : list byte) :
  0 <= count < 65536 -> 0 <= root < 65536 ->
  let data := MAGIC ++ [byte_of_Z FORMAT_VERSION] ++ be_bytes 2 count
                ++ be_bytes 2 root ++ body in
  at_pos data 7 body
  /\ deserialize data
     = (let* nodes := read_nodes data (Z.to_nat count) 7 [] in
        let* _ := resolve nodes in
        if (Z.to_nat root <? length nodes)%nat
        then Ok (nodes, Z.to_nat root) else Raise IndexError).
Proof.
  intros Hcount Hroot data.
  assert (Hat : at_pos data 0
                  (MAGIC ++ [byte_of_Z FORMAT_VERSION] ++ be_bytes 2 count
                   ++ be_bytes 2 root ++ body)).
  { exists []. rewrite app_nil_r. reflexivity. }
  apply at_pos_app in Hat as [Hmagic Hat].
  apply at_pos_app in Hat as [Hver Hat].
  apply at_pos_app in Hat as [Hcountb Hat].
  apply at_pos_app in Hat as [Hrootb Hbody].
  rewrite !length_be_bytes in *.
  change (length MAGIC) with 2%nat in *.
  cbn [length Nat.add] in *.
  split; [exact Hbody|].
  apply at_pos_slice in Hmagic, Hcountb, Hrootb.
  change (length MAGIC) with 2%nat in Hmagic.
  rewrite length_be_bytes in Hcountb, Hrootb.
  apply at_pos_byte in Hver as [Hver Hlen3].
  unfold deserialize.
  assert (Hlen7 : (length data <? 7)%nat = false).
  { apply Nat.ltb_ge. unfold data, MAGIC.
    rewrite !length_app, !length_be_bytes. cbn [length]. lia. }
  rewrite Hlen7, Hmagic.
  change (bytes_eqb MAGIC MAGIC) with true. cbn [negb].
  rewrite Hver. cbn [rbind].
  change (Z_of_byte (byte_of_Z FORMAT_VERSION) =? FORMAT_VERSION) with true.
  cbn [negb]. rewrite Hcountb, Hrootb.
  rewrite !int_from_bytes_unsigned
    by (change (256 ^ Z.of_nat 2) with 65536; lia).
  reflexivity.
Qed.

(** A well-formed table of fewer than 65536 objects, laid out as
    serialize lays a graph out, is written and read back as it is, also
    when other bytes follow. *)
Lemma table_roundtrip (depth : nat) (s : Store) (root : nat) :
  in_table_form depth s root ->
  table_ok s ->
  Z.of_nat (length s) < 65536 ->
  exists bs : list byte,
    serialize depth s root = Ok bs
    /\ forall junk : list byte, deserialize (bs ++ junk) = Ok (s, root).
Proof.
  intros Hform Hok Hlen.
  destruct (serialize_table depth s root Hform Hok Hlen)
    as (Hroot & recs & Hser & Hr).
  eexists. split; [exact Hser|]. intros junk.
  rewrite <- !app_assoc.
  destruct (deserialize_header (Z.of_nat (length s)) (Z.of_nat root)
              (concat recs ++ junk)) as [Hat ->]; [lia | lia |].
  apply at_pos_app in Hat as [Hat _].
  rewrite !Nat2Z.id.
  pose proof (Hr _ 7%nat [] O Hat) as E.
  rewrite Nat.add_0_r in E. rewrite E. cbn [read_nodes rbind Datatypes.app].
  rewrite (resolve_table s Hok). cbn [rbind].
  rewrite (proj2 (Nat.ltb_lt _ _) Hroot). reflexivity.
Qed.

(** ** The store [build] lays out *)

Lemma size_unfold (n : Node) : size n = S (sizes (children n)).
Proof. destruct n; reflexivity. Qed.

Lemma height_unfold (n : Node) : height n = S (heights (children n)).
Proof. destruct n; reflexivity. Qed.

(** The objects [build] creates make a well-formed table after a
    well-formed table. *)
Lemma build_table_ok (n : Node) (s : Store) :
  encodable n = true -> table_ok s ->
  table_ok (fst (build n s))
  /\ (snd (build n s) < length (fst (build n s)))%nat
  /\ (length s <= length (fst (build n s)))%nat.
Proof.
  revert n s.
  apply (build_ind
    (fun n s s' a =>
       encodable n = true -> table_ok s ->
       table_ok s' /\ (a < length s')%nat /\ (length s <= length s')%nat)
    (fun cs s s' addrs =>
       forallb encodable cs = true -> table_ok s ->
       table_ok s' /\ Forall (fun c => (c < length s')%nat) addrs
       /\ length addrs = length cs /\ (length s <= length s')%nat)).
  - intros s _ Hs. repeat split; [exact Hs | constructor | lia].
  - intros c cs s s1 a s2 r HP HQ Henc Hs.
    cbn [forallb] in Henc. apply andb_true_iff in Henc as [Hc Hcs].
    destruct (HP Hc Hs) as (Hs1 & Ha & Hl1).
    destruct (HQ Hcs Hs1) as (Hs2 & Hr & Hlen & Hl2).
    repeat split; [exact Hs2 | | cbn; lia | lia].
    constructor; [lia | exact Hr].
  - intros n s s' addrs HQ Henc Hs.
    destruct n as [t cs op d e l]. cbn [encodable children tag prim_op data
      effect universe_level] in *.
    apply andb_true_iff in Henc as [Henc Hcs].
    apply andb_true_iff in Henc as [Har Hf].
    destruct (HQ Hcs Hs) as (Hs' & Haddrs & Hlen & Hl).
    rewrite length_app. cbn [length]. repeat split; [|lia|lia].
    intros i o Hi. unfold Store in *.
    destruct (Nat.lt_ge_cases i (length s')) as [Hlt|Hge].
    + rewrite lookup_app_l in Hi by exact Hlt. apply Hs'. exact Hi.
    + pose proof (lookup_lt_Some _ _ _ Hi) as Hi'.
      rewrite length_app in Hi'. cbn [length] in Hi'.
      assert (i = length s') as -> by lia.
      rewrite lookup_app_r, Nat.sub_diag in Hi by lia.
      injection Hi as <-. unfold obj_ok.
      cbn [o_children o_tag o_prim_op o_data o_effect o_universe_level].
      rewrite Hlen, Har, Hf. cbn [andb].
      apply forallb_forall. intros c Hc. apply Nat.ltb_lt.
      rewrite Forall_forall in Haddrs. apply Haddrs, list_elem_of_In, Hc.
Qed.

(** The address [build] returns unfolds to the tree it was given. *)
Lemma build_node_of (n : Node) (s : Store) :
  forall (rest : Store) (depth : nat),
    (height n <= depth)%nat ->
    node_of depth (fst (build n s) ++ rest) (snd (build n s)) = Ok n.
Proof.
  cut ((exists objs, fst (build n s) = s ++ objs)
       /\ forall (rest : Store) (depth : nat),
            (height n <= depth)%nat ->
            node_of depth (fst (build n s) ++ rest) (snd (build n s)) = Ok n).
  { intros [_ H]. exact H. }
  revert n s.
  apply (build_ind
    (fun n s s' a =>
       (exists objs, s' = s ++ objs)
       /\ forall rest depth, (height n <= depth)%nat ->
            node_of depth (s' ++ rest) a = Ok n)
    (fun cs s s' addrs =>
       (exists objs, s' = s ++ objs)
       /\ forall rest depth, (heights cs <= depth)%nat ->
            mapM (node_of depth (s' ++ rest)) addrs = Ok cs)).
  - intros s. split; [exists []; rewrite app_nil_r; reflexivity|].
    reflexivity.
  - intros c cs s s1 a s2 r [[o1 ->] HP] [[o2 ->] HQ]. split.
    + exists (o1 ++ o2). rewrite app_assoc. reflexivity.
    + intros rest depth Hd. cbn [heights foldr] in Hd.
      fold (heights cs) in Hd. cbn [mapM].
      rewrite <- (app_assoc (s ++ o1) o2 rest).
      rewrite (HP (o2 ++ rest) depth) by lia. cbn [rbind].
      rewrite (app_assoc (s ++ o1) o2 rest).
      rewrite (HQ rest depth) by lia. reflexivity.
  - intros n s s' addrs [[o ->] HQ]. split.
    + eexists. rewrite <- app_assoc. reflexivity.
    + intros rest depth Hd. rewrite height_unfold in Hd.
      destruct depth as [|depth]; [lia|].
      cbn [node_of]. unfold get, Store.
      rewrite <- app_assoc.
      rewrite lookup_app_r, Nat.sub_diag by lia.
      cbn [Datatypes.app lookup list_lookup rbind o_children o_tag o_prim_op
             o_data o_effect o_universe_level].
      pose proof (HQ ([mkObj (tag n) addrs (prim_op n) (data n) (effect n)
                         (universe_level n)] ++ rest) depth ltac:(lia)) as E.
      cbn [Datatypes.app] in E. unfold Store in *. rewrite E. cbn [rbind].
      destruct n; reflexivity.
Qed.

(** serialize's traversal of the store of a tree visits the objects of
    the tree in the order of their addresses. *)
Lemma build_collect (n : Node) (s : Store) :
  forall (rest : Store) (depth : nat) (visited : gset nat) (nodes : list nat),
    (height n <= depth)%nat ->
    (forall x, (length s <= x < length s + size n)%nat -> x ∉ visited) ->
    collect depth (fst (build n s) ++ rest) (visited, nodes) (snd (build n s))
    = Ok (list_to_set (seq (length s) (size n)) ∪ visited,
          nodes ++ seq (length s) (size n)).
Proof.
  cut ((exists objs, fst (build n s) = s ++ objs /\ length objs = size n)
       /\ forall rest depth (visited : gset nat) nodes,
            (height n <= depth)%nat ->
            (forall x, (length s <= x < length s + size n)%nat ->
                       x ∉ visited) ->
            collect depth (fst (build n s) ++ rest) (visited, nodes)
              (snd (build n s))
            = Ok (list_to_set (seq (length s) (size n)) ∪ visited,
                  nodes ++ seq (length s) (size n))).
  { intros [_ H]. exact H. }
  revert n s.
  apply (build_ind
    (fun n s s' a =>
       (exists objs, s' = s ++ objs /\ length objs = size n)
       /\ forall rest depth (visited : gset nat) nodes,
            (height n <= depth)%nat ->
            (forall x, (length s <= x < length s + size n)%nat ->
                       x ∉ visited) ->
            collect depth (s' ++ rest) (visited, nodes) a
            = Ok (list_to_set (seq (length s) (size n)) ∪ visited,
                  nodes ++ seq (length s) (size n)))
    (fun cs s s' addrs =>
       (exists objs, s' = s ++ objs /\ length objs = sizes cs)
       /\ forall rest depth (visited : gset nat) nodes,
            (heights cs <= depth)%nat ->
            (forall x, (length s <= x < length s + sizes cs)%nat ->
                       x ∉ visited) ->
            foldM (collect depth (s' ++ rest)) addrs (visited, nodes)
            = Ok (list_to_set (seq (length s) (sizes cs)) ∪ visited,
                  nodes ++ seq (length s) (sizes cs)))).
  - intros s. split; [exists []; rewrite app_nil_r; split; reflexivity|].
    intros rest depth visited nodes _ _. cbn [foldM sizes foldr seq].
    rewrite app_nil_r. f_equal. f_equal. set_solver.
  - intros c cs s s1 a s2 r [(o1 & -> & L1) HP] [(o2 & -> & L2) HQ]. split.
    + exists (o1 ++ o2). rewrite app_assoc, length_app.
      split; [reflexivity|]. cbn [sizes foldr]. fold (sizes cs). lia.
    + intros rest depth visited nodes Hd Hfresh.
      cbn [heights foldr] in Hd. fold (heights cs) in Hd.
      cbn [sizes foldr] in *. fold (sizes cs) in *.
      cbn [foldM].
      rewrite <- (app_assoc (s ++ o1) o2 rest).
      rewrite (HP (o2 ++ rest) depth visited nodes)
        by (try lia; intros x Hx; apply Hfresh; lia).
      cbn [rbind]. rewrite (app_assoc (s ++ o1) o2 rest).
      rewrite HQ.
      * rewrite length_app, L1, seq_app, <- app_assoc.
        f_equal. f_equal. rewrite list_to_set_app_L. set_solver.
      * lia.
      * intros x Hx. rewrite length_app, L1 in Hx.
        rewrite elem_of_union, elem_of_list_to_set, elem_of_seq.
        intros [Hin|Hin]; [lia|]. revert Hin. apply Hfresh. lia.
  - intros n s s' addrs [(o & -> & L) HQ]. split.
    + eexists. rewrite <- app_assoc, size_unfold. split; [reflexivity|].
      rewrite length_app. cbn [length]. lia.
    + intros rest depth visited nodes Hd Hfresh.
      rewrite height_unfold in Hd. rewrite size_unfold in *.
      destruct depth as [|depth]; [lia|].
      cbn [collect].
      rewrite bool_decide_eq_false_2
        by (apply Hfresh; rewrite length_app; lia).
      unfold get, Store. rewrite <- (app_assoc (s ++ o)).
      rewrite lookup_app_r, Nat.sub_diag by lia.
      cbn [Datatypes.app lookup list_lookup rbind o_children].
      pose proof (HQ ([mkObj (tag n) addrs (prim_op n) (data n) (effect n)
                         (universe_level n)] ++ rest) depth
                    ({[length (s ++ o)]} ∪ visited) nodes ltac:(lia)) as E.
      cbn [Datatypes.app] in E. unfold Store in *. rewrite E.
      * cbn [rbind]. rewrite length_app, L, seq_S, <- app_assoc.
        f_equal. f_equal.
        rewrite list_to_set_app_L. cbn [list_to_set]. set_solver.
      * intros x Hx.
        rewrite elem_of_union, elem_of_singleton, length_app, L.
        intros [Hin|Hin]; [lia|]. revert Hin. apply Hfresh. lia.
Qed.

(** ** The content hash of an encodable tree *)

Lemma round_length (st : list Z * list Z) (k : Z) :
  length (fst (Sha256.round st k)) = 8%nat.
Proof. destruct st as [v win]. reflexivity. Qed.

Lemma rounds_length (ks : list Z) :
  forall st : list Z * list Z,
    length (fst st) = 8%nat ->
    length (fst (fold_left Sha256.round ks st)) = 8%nat.
Proof.
  induction ks as [|k ks IH]; intros st Hst; [exact Hst|].
  cbn [fold_left]. apply IH, round_length.
Qed.

Lemma compress_length (h block : list Z) :
  length h = 8%nat -> length (Sha256.compress h block) = 8%nat.
Proof.
  intros Hh. unfold Sha256.compress.
  pose proof (rounds_length Sha256.K (h, block) Hh) as Hv.
  destruct (fold_left Sha256.round Sha256.K (h, block)) as [v win].
  cbn [fst] in Hv. rewrite length_zip_with. lia.
Qed.

Lemma blocks_length (n : nat) :
  forall h ws : list Z,
    length h = 8%nat -> length (Sha256.blocks n h ws) = 8%nat.
Proof.
  induction n as [|n IH]; intros h ws Hh; [exact Hh|].
  cbn [Sha256.blocks]. apply IH, compress_length, Hh.
Qed.

(** A digest has 32 bytes. *)
Lemma sha256_length (msg : list byte) : length (Sha256.sha256 msg) = 32%nat.
Proof.
  unfold Sha256.sha256.
  set (p := map Z_of_byte (Sha256.pad msg)).
  set (ws := Sha256.words (length p / 4) p).
  pose proof (blocks_length (length ws / 16) Sha256.H0 ws eq_refl) as H.
  destruct (Sha256.blocks (length ws / 16) Sha256.H0 ws)
    as [|a [|b [|c [|d [|e [|f [|g [|h [|]]]]]]]]]; try discriminate H.
  cbn [map concat]. rewrite !length_app, !length_be_bytes. reflexivity.
Qed.

Lemma payload_ok_hash (op : Z) (d : Data) :
  payload_ok op d = true -> is_ok (hash_payload (Some op) d) = true.
Proof.
  unfold payload_ok, hash_payload. intros H.
  apply andb_true_iff in H as [Hop H].
  apply andb_true_iff in Hop as [Hop0 Hop1].
  apply Z.leb_le in Hop0. apply Z.ltb_lt in Hop1.
  rewrite bytes1_in_range by lia. cbn [rbind].
  destruct d as [|b|z|bits|str]; try reflexivity.
  - repeat match type of H with
           | (if ?c then _ else _) = true => destruct c; try discriminate
           end.
  - assert (Hz : - 2 ^ 63 <= z < 2 ^ 63).
    { repeat match type of H with
             | (if ?c then _ else _) = true => destruct c; try discriminate
             end;
      apply andb_true_iff in H as [Hlo Hhi];
      apply Z.leb_le in Hlo; apply Z.ltb_lt in Hhi; lia. }
    rewrite int_to_bytes_signed
      by (change (256 ^ Z.of_nat 8 / 2) with (2 ^ 63); lia).
    reflexivity.
  - repeat match type of H with
           | (if ?c then _ else _) = true => destruct c; try discriminate
           end.
    destruct (utf8_encode str); [reflexivity|discriminate].
Qed.

Lemma hash_input_encodable (t : Tag) (ar : nat) (ch : list byte)
    (op : option Z) (d : Data) (e l : Z) :
  (ar <= 15)%nat -> fields_ok t op d e l = true ->
  is_ok (hash_input t (Z.of_nat ar) ch op d e l) = true.
Proof.
  intros Har Hf. unfold hash_input.
  destruct (header_byte_read t ar Har) as (Hhb & _ & _).
  rewrite bytes1_in_range by exact Hhb. cbn [rbind].
  destruct t; cbn [fields_ok] in Hf.
  all: repeat match goal with
       | |- context [tag_eqb ?a ?b] =>
           let v := eval vm_compute in (tag_eqb a b) in
           change (tag_eqb a b) with v
       end; cbv beta iota; cbn [rbind]; try reflexivity.
  - (* UNI *)
    apply andb_true_iff in Hf as [Hf Hhi]. apply andb_true_iff in Hf as [_ Hlo].
    apply Z.leb_le in Hlo. apply Z.ltb_lt in Hhi.
    rewrite int_to_bytes_unsigned
      by (change (256 ^ Z.of_nat 4) with 4294967296; lia).
    reflexivity.
  - (* EFF *)
    apply andb_true_iff in Hf as [Hf _]. apply andb_true_iff in Hf as [Hf Hhi].
    apply andb_true_iff in Hf as [_ Hlo].
    apply Z.leb_le in Hlo. apply Z.ltb_lt in Hhi.
    rewrite bytes1_in_range by lia. reflexivity.
  - (* PRIM *)
    destruct op as [o|]; [|discriminate].
    apply andb_true_iff in Hf as [Hf _]. apply andb_true_iff in Hf as [Hp _].
    pose proof (payload_ok_hash o d Hp) as Hh.
    destruct (hash_payload (Some o) d); [reflexivity|discriminate].
Qed.

(** The content hash of an encodable tree is defined, and has 32
    bytes. *)
Lemma content_hash_encodable (n : Node) :
  encodable n = true ->
  exists h : list byte, content_hash n = Ok h /\ length h = 32%nat.
Proof.
  induction n as [t cs op d e l IH] using Node_ind'. intros Henc.
  cbn [encodable children tag prim_op data effect universe_level] in Henc.
  apply andb_true_iff in Henc as [Henc Hcs].
  apply andb_true_iff in Henc as [Har Hf]. apply Nat.leb_le in Har.
  cbn [content_hash children tag prim_op data effect universe_level].
  match goal with
  | |- exists h, (let* ch := ?f cs in _) = _ /\ _ =>
      assert (Hch : exists ch, f cs = Ok ch)
  end.
  { clear Har Hf. induction IH as [|c cs Hc _ IHcs]; [exists []; reflexivity|].
    cbn [forallb] in Hcs. apply andb_true_iff in Hcs as [Hc' Hcs].
    destruct (Hc Hc') as (h & -> & _). cbn [rbind].
    destruct (IHcs Hcs) as (r & ->). cbn [rbind]. eexists. reflexivity. }
  destruct Hch as (ch & ->). cbn [rbind]. unfold arity. cbn [children].
  pose proof (hash_input_encodable t (length cs) ch op d e l Har Hf) as Hin.
  destruct (hash_input t (Z.of_nat (length cs)) ch op d e l) as [input|];
    [|discriminate].
  cbn [rbind]. eexists. split; [reflexivity|]. apply sha256_length.
Qed.

(** ** The codec round trip *)

Lemma store_of_length (n : Node) : length (store_of n) = size n.
Proof.
  unfold store_of. destruct (build_extends n []) as (objs & -> & L & _).
  exact L.
Qed.

(** The store of an encodable tree is a well-formed table laid out as
    serialize lays a graph out, and its root unfolds to the tree. *)
Lemma store_of_tree (depth : nat) (n : Node) :
  encodable n = true -> (height n <= depth)%nat ->
  in_table_form depth (store_of n) (root_of n)
  /\ table_ok (store_of n)
  /\ node_of depth (store_of n) (root_of n) = Ok n.
Proof.
  intros Henc Hd. split; [|split].
  - unfold in_table_form. rewrite store_of_length.
    pose proof (build_collect n [] [] depth ∅ [] Hd) as H.
    rewrite app_nil_r in H. cbn [length Datatypes.app] in H.
    eexists. apply H. intros x _. set_solver.
  - apply (build_table_ok n [] Henc). intros i o Hi. discriminate Hi.
  - pose proof (build_node_of n [] [] depth Hd) as H.
    rewrite app_nil_r in H. exact H.
Qed.

Lemma tree_roundtrip (depth : nat) (n : Node) :
  encodable n = true ->
  Z.of_nat (size n) < 65536 ->
  (height n <= depth)%nat ->
  exists bs : list byte,
    serialize depth (store_of n) (root_of n) = Ok bs
    /\ deserialize bs = Ok (store_of n, root_of n)
    /\ node_of depth (store_of n) (root_of n) = Ok n.
Proof.
  intros Henc Hsize Hd.
  destruct (store_of_tree depth n Henc Hd) as (Hform & Hok & Hnode).
  destruct (table_roundtrip depth (store_of n) (root_of n) Hform Hok)
    as (bs & Hser & Hdes).
  { rewrite store_of_length. exact Hsize. }
  exists bs. repeat split; [exact Hser | | exact Hnode].
  specialize (Hdes []). rewrite app_nil_r in Hdes. exact Hdes.
Qed.

(** Serializing an encodable tree of fewer than 65536 nodes and
    deserializing the bytes gives the tree back: [deserialize(serialize(n))]
    has the fields and the children of [n], node by node. *)
Theorem serialize_deserialize_tree (depth : nat) (n : Node) :
  encodable n = true ->
  Z.of_nat (size n) < 65536 ->
  (height n <= depth)%nat ->
  (let* bs := serialize depth (store_of n) (root_of n) in
   let* (s', root') := deserialize bs in
   node_of depth s' root') = Ok n.
Proof.
  intros Henc Hsize Hd.
  destruct (tree_roundtrip depth n Henc Hsize Hd) as (bs & -> & Hdes & Hnode).
  cbn [rbind]. rewrite Hdes. cbn [rbind]. exact Hnode.
Qed.

(** At the curried sum [3 + 5] with a string literal beside it. *)
Lemma serialize_deserialize_tree_witness :
  let n := B.app (binop PrimOp.INT_ADD 3 5)
             (B.str_lit (ascii_str ["h"; "i"]%byte)) in
  encodable n = true
  /\ Z.of_nat (size n) < 65536
  /\ (height n <= 4)%nat
  /\ (let* bs := serialize 4 (store_of n) (root_of n) in
      let* (s', root') := deserialize bs in
      node_of 4 s' root') = Ok n.
Proof.
  cbv zeta.
  assert (H1 : encodable (B.app (binop PrimOp.INT_ADD 3 5)
                            (B.str_lit (ascii_str ["h"; "i"]%byte))) = true)
    by (vm_compute; reflexivity).
  assert (H2 : Z.of_nat (size (B.app (binop PrimOp.INT_ADD 3 5)
                                 (B.str_lit (ascii_str ["h"; "i"]%byte))))
               < 65536) by (vm_compute; reflexivity).
  assert (H3 : (height (B.app (binop PrimOp.INT_ADD 3 5)
                          (B.str_lit (ascii_str ["h"; "i"]%byte))) <= 4)%nat)
    by (vm_compute; lia).
  split; [exact H1|]. split; [exact H2|]. split; [exact H3|].
  exact (serialize_deserialize_tree 4 _ H1 H2 H3).
Defined.

(** The round trip of an encodable tree of fewer than 65536 nodes
    preserves the content hash. *)
Theorem roundtrip_preserves_hash_tree (depth : nat) (n : Node) :
  encodable n = true ->
  Z.of_nat (size n) < 65536 ->
  (height n <= depth)%nat ->
  roundtrip_preserves_hash depth (store_of n) (root_of n).
Proof.
  intros Henc Hsize Hd.
  destruct (tree_roundtrip depth n Henc Hsize Hd) as (bs & Hser & Hdes & Hnode).
  destruct (content_hash_encodable n Henc) as (h & Hh & _).
  exists bs, (store_of n), (root_of n), h.
  unfold content_hash_at. rewrite Hnode. cbn [rbind].
  repeat split; assumption.
Qed.

Lemma roundtrip_preserves_hash_tree_witness :
  let n := B.effect (B.app (B.lam (B.universe 0) (B.var 0)) (B.int_lit (-7)))
             Effect.IO in
  encodable n = true
  /\ Z.of_nat (size n) < 65536
  /\ (height n <= 4)%nat
  /\ roundtrip_preserves_hash 4 (store_of n) (root_of n).
Proof.
  cbv zeta.
  assert (H1 : encodable
                 (B.effect (B.app (B.lam (B.universe 0) (B.var 0))
                              (B.int_lit (-7))) Effect.IO) = true)
    by (vm_compute; reflexivity).
  assert (H2 : Z.of_nat
                 (size (B.effect (B.app (B.lam (B.universe 0) (B.var 0))
                                    (B.int_lit (-7))) Effect.IO)) < 65536)
    by (vm_compute; reflexivity).
  assert (H3 : (height (B.effect (B.app (B.lam (B.universe 0) (B.var 0))
                                    (B.int_lit (-7))) Effect.IO) <= 4)%nat)
    by (vm_compute; lia).
  split; [exact H1|]. split; [exact H2|]. split; [exact H3|].
  exact (roundtrip_preserves_hash_tree 4 _ H1 H2 H3).
Defined.

(** A graph with shared nodes, stored as a well-formed table of fewer
    than 65536 objects in the order serialize emits them, is written and
    read back as the same table with the same root; bytes that follow
    the last record are ignored. *)
Theorem serialize_deserialize_table (depth : nat) (s : Store) (root : nat) :
  in_table_form depth s root ->
  table_ok s ->
  Z.of_nat (length s) < 65536 ->
  exists bs : list byte,
    serialize depth s root = Ok bs
    /\ forall junk : list byte, deserialize (bs ++ junk) = Ok (s, root).
Proof. apply table_roundtrip. Qed.

(** At the graph of [s ++ s] in which the string literal [s] is one
    shared object. *)
Lemma serialize_deserialize_table_witness :
  in_table_form 3 shared_concat 3
  /\ table_ok shared_concat
  /\ Z.of_nat (length shared_concat) < 65536
  /\ exists bs : list byte,
       serialize 3 shared_concat 3 = Ok bs
       /\ forall junk : list byte,
            deserialize (bs ++ junk) = Ok (shared_concat, 3%nat).
Proof.
  assert (H1 : in_table_form 3 shared_concat 3).
  { exists (list_to_set [0; 1; 2; 3]%nat). vm_compute. reflexivity. }
  assert (H2 : table_ok shared_concat).
  { intros [|[|[|[|i]]]] o H; try discriminate H;
      injection H as <-; vm_compute; reflexivity. }
  assert (H3 : Z.of_nat (length shared_concat) < 65536)
    by (vm_compute; reflexivity).
  split; [exact H1|]. split; [exact H2|]. split; [exact H3|].
  exact (serialize_deserialize_table 3 shared_concat 3 H1 H2 H3).
Defined.

(** ** What deserialize raises, and what it returns *)

Lemma utf8_decode_aux_raises (fuel : nat) :
  forall (bs : list Z) (e : PyExn),
    utf8_decode_aux fuel bs = Raise e -> e = UnicodeError.
Proof.
  induction fuel as [|fuel IH]; intros bs e H; cbn [utf8_decode_aux] in H.
  - destruct bs; congruence.
  - unfold rbind in H.
    repeat match type of H with
           | context [utf8_decode_aux fuel ?r] =>
               let E := fresh "E" in
               destruct (utf8_decode_aux fuel r) eqn:E;
               [|apply IH in E]
           | context [match ?x with _ => _ end] => destruct x
           | context [if ?x then _ else _] => destruct x
           end; congruence.
Qed.

Lemma read_prim_raises (data : list byte) (pos : nat) (e : PyExn) :
  read_prim data pos = Raise e -> read_raises e = true.
Proof.
  unfold read_prim, byte_at. intros H.
  destruct (data !! pos); cbn [rbind] in H; [|injection H as <-; reflexivity].
  destruct (_ =? PrimOp.INT_LIT); [discriminate|].
  destruct (_ =? PrimOp.FLOAT_LIT).
  { unfold unpack_double in H. destruct (Nat.eqb _ 8); cbn [rbind] in H;
      [discriminate | injection H as <-; reflexivity]. }
  destruct (_ =? PrimOp.STR_LIT).
  { unfold utf8_decode in H.
    destruct (utf8_decode_aux _ _) eqn:E; cbn [rbind] in H; [discriminate|].
    apply utf8_decode_aux_raises in E. injection H as <-. subst.
    reflexivity. }
  destruct (_ =? PrimOp.VAR); discriminate.
Qed.

Lemma read_node_raises (data : list byte) (pos : nat) (e : PyExn) :
  read_node data pos = Raise e -> read_raises e = true.
Proof.
  unfold read_node. intros H.
  destruct (length data <=? pos)%nat; [injection H as <-; reflexivity|].
  unfold byte_at in H.
  destruct (data !! pos); cbn [rbind] in H; [|injection H as <-; reflexivity].
  cbv zeta in H.
  destruct (tag_map _) as [t|]; [|injection H as <-; reflexivity].
  destruct (read_children data _ _) as [cs pos'].
  destruct t; try discriminate.
  - unfold byte_at in H. destruct (data !! pos'); cbn [rbind] in H;
      [discriminate | injection H as <-; reflexivity].
  - destruct (read_prim data pos') as [[[op d] p]|e'] eqn:E;
      cbn [rbind] in H; [discriminate|].
    injection H as <-. apply (read_prim_raises _ _ _ E).
Qed.

Lemma read_nodes_raises (data : list byte) (k : nat) :
  forall (pos : nat) (acc : list Obj) (e : PyExn),
    read_nodes data k pos acc = Raise e -> read_raises e = true.
Proof.
  induction k as [|k IH]; intros pos acc e H; [discriminate|].
  cbn [read_nodes] in H.
  destruct (read_node data pos) as [[o pos']|e'] eqn:E; cbn [rbind] in H.
  - apply (IH _ _ _ H).
  - injection H as <-. apply (read_node_raises _ _ _ E).
Qed.

Lemma read_nodes_length (data : list byte) (k : nat) :
  forall (pos : nat) (acc nodes : list Obj),
    read_nodes data k pos acc = Ok nodes ->
    length nodes = (length acc + k)%nat.
Proof.
  induction k as [|k IH]; intros pos acc nodes H.
  - injection H as <-. lia.
  - cbn [read_nodes] in H.
    destruct (read_node data pos) as [[o pos']|e']; cbn [rbind] in H;
      [|discriminate].
    apply IH in H. rewrite length_app in H. cbn [length] in H. lia.
Qed.

Lemma resolve_spec (nodes : list Obj) :
  match resolve nodes with
  | Ok _ =>
      Forall (fun o => Forall (fun c => (c < length nodes)%nat)
                         (o_children o)) nodes
  | Raise e => e = IndexError
  end.
Proof.
  unfold resolve. generalize (length nodes) as k. intros k.
  assert (Hin : forall cs : list nat,
            match foldM (fun (_ : unit) idx =>
                           if (idx <? k)%nat then Ok tt else Raise IndexError)
                    cs tt with
            | Ok _ => Forall (fun c => (c < k)%nat) cs
            | Raise e => e = IndexError
            end).
  { induction cs as [|c cs IH]; [constructor|].
    cbn [foldM]. destruct (Nat.ltb_spec c k) as [Hc|Hc]; cbn [rbind];
      [|reflexivity].
    destruct (foldM _ cs tt) as [[]|e]; [constructor; assumption | exact IH]. }
  induction nodes as [|o os IH]; [constructor|].
  cbn [foldM]. specialize (Hin (o_children o)).
  destruct (foldM _ (o_children o) tt) as [[]|e]; cbn [rbind]; [|exact Hin].
  destruct (foldM _ os tt) as [[]|e]; [constructor; assumption | exact IH].
Qed.

Lemma read_children_length (data : list byte) (k : nat) :
  forall pos : nat, length (fst (read_children data k pos)) = k.
Proof.
  induction k as [|k IH]; intros pos; [reflexivity|].
  cbn [read_children]. specialize (IH (pos + 2)%nat).
  destruct (read_children data k (pos + 2)) as [rest pos'].
  cbn [fst length] in *. rewrite IH. reflexivity.
Qed.

Lemma read_node_arity (data : list byte) (pos pos' : nat) (o : Obj) :
  read_node data pos = Ok (o, pos') -> (length (o_children o) <= 15)%nat.
Proof.
  unfold read_node. destruct (length data <=? pos)%nat; [discriminate|].
  destruct (byte_at data pos) as [b|]; [|discriminate]. cbn [rbind]. cbv zeta.
  destruct (tag_map _) as [t|]; [|discriminate].
  pose proof (read_children_length data (Z.to_nat (Z.land b 15)) (pos + 1))
    as Hlen.
  destruct (read_children data _ _) as [cs p]. cbn [fst] in Hlen.
  assert (Hcs : (length cs <= 15)%nat).
  { rewrite Hlen. change 15 with (Z.ones 4). rewrite Z.land_ones by lia.
    pose proof (Z.mod_pos_bound b (2 ^ 4) ltac:(lia)).
    change (2 ^ 4) with 16 in *. lia. }
  intros H.
  destruct t;
    try (injection H as <- _; exact Hcs).
  - destruct (byte_at data p); [|discriminate]. cbn [rbind] in H.
    injection H as <- _. exact Hcs.
  - destruct (read_prim data p) as [[[op d] q]|]; [|discriminate].
    cbn [rbind] in H. injection H as <- _. exact Hcs.
Qed.

Lemma read_nodes_arity (data : list byte) (k : nat) :
  forall (pos : nat) (acc nodes : list Obj),
    read_nodes data k pos acc = Ok nodes ->
    Forall (fun o => (length (o_children o) <= 15)%nat) acc ->
    Forall (fun o => (length (o_children o) <= 15)%nat) nodes.
Proof.
  induction k as [|k IH]; intros pos acc nodes H Hacc.
  - injection H as <-. exact Hacc.
  - cbn [read_nodes] in H.
    destruct (read_node data pos) as [[o pos']|] eqn:E; [|discriminate].
    cbn [rbind] in H. apply (IH _ _ _ H).
    apply Forall_app. split; [exact Hacc|].
    constructor; [|constructor]. apply (read_node_arity _ _ _ _ E).
Qed.

(** The exceptions deserialize raises are [DeserializeError],
    [IndexError], [struct.error] and [UnicodeDecodeError], and no
    other. *)
Theorem deserialize_exceptions (data : list byte) (e : PyExn) :
  deserialize data = Raise e -> deserialize_raises e = true.
Proof.
  unfold deserialize. intros H.
  destruct (length data <? 7)%nat; [injection H as <-; reflexivity|].
  destruct (negb _); [injection H as <-; reflexivity|].
  unfold byte_at in H. destruct (data !! 2%nat); cbn [rbind] in H;
    [|injection H as <-; reflexivity].
  destruct (negb _); [injection H as <-; reflexivity|].
  destruct (read_nodes data _ 7 []) as [nodes|e'] eqn:E; cbn [rbind] in H.
  - pose proof (resolve_spec nodes) as Hr.
    destruct (resolve nodes) as [[]|e']; cbn [rbind] in H.
    + destruct (_ <? _)%nat; [discriminate | injection H as <-; reflexivity].
    + injection H as <-. subst e'. reflexivity.
  - injection H as <-. apply read_nodes_raises in E.
    destruct e' as [| m | | | | | | | | | |]; try discriminate E; reflexivity.
Qed.

Lemma deserialize_exceptions_witness :
  deserialize [xce; x9e; x01; x00; x01; x00; x00; x90; x04; x00]
  = Raise StructError
  /\ deserialize_raises StructError = true.
Proof.
  assert (H : deserialize [xce; x9e; x01; x00; x01; x00; x00; x90; x04; x00]
              = Raise StructError) by (vm_compute; reflexivity).
  split; [exact H|]. exact (deserialize_exceptions _ _ H).
Defined.

(** The three checks of the header. deserialize reports "File too short"
    exactly for a buffer of fewer than 7 bytes, "Invalid magic" exactly
    for a longer buffer that does not start with CE 9E, and "Unsupported
    version" exactly for one that does and whose third byte is not the
    format version. *)
Theorem deserialize_header_errors (data : list byte) :
  (deserialize data = Raise (DeserializeError FileTooShort)
   <-> (length data < 7)%nat)
  /\ (deserialize data = Raise (DeserializeError InvalidMagic)
      <-> (7 <= length data)%nat /\ slice data 0 2 <> MAGIC)
  /\ (deserialize data = Raise (DeserializeError UnsupportedVersion)
      <-> (7 <= length data)%nat /\ slice data 0 2 = MAGIC
          /\ byte_at data 2 <> Ok FORMAT_VERSION).
Proof.
  assert (Hrest : forall (count root : nat) (m : DesMsg),
    (let* nodes := read_nodes data count 7 [] in
     let* _ := resolve nodes in
     if (root <? length nodes)%nat then Ok (nodes, root) else Raise IndexError)
    = Raise (DeserializeError m) ->
    m = UnexpectedEOF \/ m = UnknownTag).
  { intros count root m H.
    destruct (read_nodes data count 7 []) as [nodes|e'] eqn:E;
      cbn [rbind] in H.
    - pose proof (resolve_spec nodes) as Hr.
      destruct (resolve nodes) as [[]|e']; cbn [rbind] in H.
      + destruct (_ <? _)%nat; discriminate.
      + injection H as ->. discriminate.
    - injection H as ->. apply read_nodes_raises in E.
      destruct m; try discriminate E; auto. }
  unfold deserialize.
  destruct (Nat.ltb_spec (length data) 7) as [Hshort|Hlong].
  { split; [|split]; split.
    - intros _. exact Hshort.
    - reflexivity.
    - intros H. discriminate H.
    - intros [H _]. lia.
    - intros H. discriminate H.
    - intros [H _]. lia. }
  destruct (bytes_eqb (slice data 0 2) MAGIC) eqn:Emagic; cbn [negb].
  - apply bytes_eqb_eq in Emagic.
    assert (Hb : exists b, byte_at data 2 = Ok (Z_of_byte b)).
    { unfold byte_at. destruct (data !! 2%nat) as [b|] eqn:E; [eauto|].
      apply lookup_ge_None in E. lia. }
    destruct Hb as [b Hb]. rewrite Hb. cbn [rbind].
    destruct (Z.eqb_spec (Z_of_byte b) FORMAT_VERSION) as [Ev|Ev]; cbn [negb].
    + split; [|split]; split.
      * intros H. apply Hrest in H as [H|H]; discriminate H.
      * intros H. lia.
      * intros H. apply Hrest in H as [H|H]; discriminate H.
      * intros [_ H]. contradiction.
      * intros H. apply Hrest in H as [H|H]; discriminate H.
      * intros (_ & _ & H). rewrite Ev in H. contradiction.
    + split; [|split]; split.
      * intros H. discriminate H.
      * intros H. lia.
      * intros H. discriminate H.
      * intros [_ H]. contradiction.
      * intros _. split; [exact Hlong|]. split; [exact Emagic|].
        intros [= H]. contradiction.
      * reflexivity.
  - assert (Hne : slice data 0 2 <> MAGIC).
    { intros E. rewrite E in Emagic. discriminate Emagic. }
    split; [|split]; split.
    + intros H. discriminate H.
    + intros H. lia.
    + intros _. split; assumption.
    + reflexivity.
    + intros H. discriminate H.
    + intros (_ & H & _). contradiction.
Qed.

(** What deserialize returns: a table of as many objects as the header
    announces, in which every child index, and the root index, is an
    index into the table, and every object has at most 15 children. *)
Theorem deserialize_closed_table (data : list byte) (s : Store) (root : nat) :
  deserialize data = Ok (s, root) ->
  (7 <= length data)%nat
  /\ length s = Z.to_nat (int_from_bytes false (slice data 3 2))
  /\ root = Z.to_nat (int_from_bytes false (slice data 5 2))
  /\ (root < length s)%nat
  /\ Forall (fun o =>
       (length (o_children o) <= 15)%nat
       /\ Forall (fun c => (c < length s)%nat) (o_children o)) s.
Proof.
  unfold deserialize. intros H.
  destruct (Nat.ltb_spec (length data) 7) as [|Hlen]; [discriminate|].
  destruct (negb _); [discriminate|].
  destruct (byte_at data 2); [|discriminate]. cbn [rbind] in H.
  destruct (negb _); [discriminate|].
  destruct (read_nodes data _ 7 []) as [nodes|] eqn:E; [|discriminate].
  cbn [rbind] in H.
  pose proof (resolve_spec nodes) as Hr.
  destruct (resolve nodes) as [[]|]; [|discriminate]. cbn [rbind] in H.
  destruct (Nat.ltb_spec (Z.to_nat (int_from_bytes false (slice data 5 2)))
              (length nodes)) as [Hroot|]; [|discriminate].
  injection H as <- <-.
  pose proof (read_nodes_length _ _ _ _ _ E) as Hk.
  pose proof (read_nodes_arity _ _ _ _ _ E ltac:(constructor)) as Har.
  repeat split; try assumption.
  rewrite Forall_forall in *. intros o Ho. split; [apply Har | apply Hr];
    exact Ho.
Qed.

Lemma deserialize_closed_table_witness :
  let data := [xce; x9e; x01; x00; x03; x00; x02;
               x90; x01; x90; x03; x00; x00; x00; x00; x00; x00; x00; x07;
               x12; x00; x00; x00; x01]%byte in
  let s := [mkObj PRIM [] (Some PrimOp.PRINT) DNone 0 0;
            mkObj PRIM [] (Some PrimOp.INT_LIT) (DInt 7) 0 0;
            mkObj APP [0; 1]%nat None DNone 0 0] in
  deserialize data = Ok (s, 2%nat)
  /\ (2 < length s)%nat
  /\ Forall (fun o =>
       (length (o_children o) <= 15)%nat
       /\ Forall (fun c => (c < length s)%nat) (o_children o)) s.
Proof.
  cbv zeta.
  assert (H : deserialize
                [xce; x9e; x01; x00; x03; x00; x02;
                 x90; x01; x90; x03; x00; x00; x00; x00; x00; x00; x00; x07;
                 x12; x00; x00; x00; x01]%byte
              = Ok ([mkObj PRIM [] (Some PrimOp.PRINT) DNone 0 0;
                     mkObj PRIM [] (Some PrimOp.INT_LIT) (DInt 7) 0 0;
                     mkObj APP [0; 1]%nat None DNone 0 0], 2%nat))
    by (vm_compute; reflexivity).
  split; [exact H|].
  pose proof (deserialize_closed_table _ _ _ H) as (_ & _ & _ & H4 & H5).
  split; [exact H4 | exact H5].
Defined.

(** When the header announces more nodes than there are records,
    deserialize raises "Unexpected EOF": here the file serialize wrote
    for a table, with a larger node count put in its header. *)
Theorem deserialize_missing_records (depth : nat) (s : Store) (root : nat)
    (more : nat) :
  in_table_form depth s root ->
  table_ok s ->
  Z.of_nat (length s + S more) < 65536 ->
  exists body : list byte,
    serialize depth s root
    = Ok (MAGIC ++ [byte_of_Z FORMAT_VERSION]
            ++ be_bytes 2 (Z.of_nat (length s))
            ++ be_bytes 2 (Z.of_nat root) ++ body)
    /\ deserialize (MAGIC ++ [byte_of_Z FORMAT_VERSION]
                      ++ be_bytes 2 (Z.of_nat (length s + S more))
                      ++ be_bytes 2 (Z.of_nat root) ++ body)
       = Raise (DeserializeError UnexpectedEOF).
Proof.
  intros Hform Hok Hlen.
  destruct (serialize_table depth s root Hform Hok ltac:(lia))
    as (Hroot & recs & Hser & Hr).
  exists (concat recs). split; [exact Hser|].
  destruct (deserialize_header (Z.of_nat (length s + S more)) (Z.of_nat root)
              (concat recs)) as [Hat ->]; [lia | lia |].
  rewrite Nat2Z.id.
  rewrite (Hr _ 7%nat [] (S more) Hat). cbn [read_nodes].
  rewrite read_node_eof; [reflexivity|].
  unfold MAGIC. rewrite !length_app, !length_be_bytes. cbn [length]. lia.
Qed.

Lemma deserialize_missing_records_witness :
  in_table_form 3 shared_concat 3
  /\ table_ok shared_concat
  /\ Z.of_nat (length shared_concat + 1) < 65536
  /\ exists body : list byte,
       serialize 3 shared_concat 3
       = Ok (MAGIC ++ [byte_of_Z FORMAT_VERSION]
               ++ be_bytes 2 (Z.of_nat (length shared_concat))
               ++ be_bytes 2 (Z.of_nat 3) ++ body)
       /\ deserialize (MAGIC ++ [byte_of_Z FORMAT_VERSION]
                         ++ be_bytes 2 (Z.of_nat (length shared_concat + 1))
                         ++ be_bytes 2 (Z.of_nat 3) ++ body)
          = Raise (DeserializeError UnexpectedEOF).
Proof.
  assert (H1 : in_table_form 3 shared_concat 3).
  { exists (list_to_set [0; 1; 2; 3]%nat). vm_compute. reflexivity. }
  assert (H2 : table_ok shared_concat).
  { intros [|[|[|[|i]]]] o H; try discriminate H;
      injection H as <-; vm_compute; reflexivity. }
  assert (H3 : Z.of_nat (length shared_concat + 1) < 65536)
    by (vm_compute; reflexivity).
  split; [exact H1|]. split; [exact H2|]. split; [exact H3|].
  exact (deserialize_missing_records 3 shared_concat 3 0 H1 H2 H3).
Defined.

(** ** The reduction counter and the output *)

Section Advances.
Variable bound : Z -> Prop.

Lemma advances_ret {A : Type} (a : A) : advances bound (ret a).
Proof.
  intros st a' st' [= <- <-]. split; [lia|]. split; [right; reflexivity|].
  exists []. rewrite app_nil_r. reflexivity.
Qed.

Lemma advances_raise {A : Type} (e : PyExn) : advances bound (@raise A e).
Proof. intros st a st' H. discriminate H. Qed.

Lemma advances_lift {A : Type} (r : Res A) : advances bound (lift r).
Proof.
  intros st a st' H. unfold lift in H. destruct r; [|discriminate].
  injection H as <- <-. split; [lia|]. split; [right; reflexivity|].
  exists []. rewrite app_nil_r. reflexivity.
Qed.

Lemma advances_bind {A B' : Type} (m : M A) (k : A -> M B') :
  advances bound m -> (forall a, advances bound (k a)) ->
  advances bound (bind m k).
Proof.
  intros Hm Hk st b st' H. unfold bind in H.
  destruct (m st) as [[a st1]|] eqn:E; [|discriminate].
  destruct (Hm _ _ _ E) as (H1 & H2 & out1 & H3).
  destruct (Hk a _ _ _ H) as (H4 & H5 & out2 & H6).
  split; [lia|]. split.
  - destruct H5 as [H5|H5]; [left; exact H5|].
    destruct H2 as [H2|H2]; [left; rewrite H5; exact H2 | right; lia].
  - exists (out1 ++ out2). rewrite H6, H3, app_assoc. reflexivity.
Qed.

Lemma advances_print (v : Value) : advances bound (print v).
Proof.
  intros st a st' [= <- <-]. cbn. split; [lia|]. split; [right; reflexivity|].
  exists [v]. reflexivity.
Qed.

Lemma advances_apply_unary (op : option Z) (v : Value) :
  advances bound (Interpreter._apply_unary op v).
Proof.
  unfold Interpreter._apply_unary.
  repeat match goal with
         | |- advances _ (if ?b then _ else _) => destruct b
         end;
    first [ apply advances_lift | apply advances_ret | apply advances_raise
          | apply advances_bind;
            [apply advances_print | intros; apply advances_ret] ].
Qed.

End Advances.

(** Taking a step of the base interpreter, whatever the bound. *)
Lemma advances_tick : advances (fun _ => True) tick.
Proof.
  intros st a st' [= <- <-]. cbn. split; [lia|]. split; [left; exact I|].
  exists []. rewrite app_nil_r. reflexivity.
Qed.

(** Taking a step of the extended interpreter: the counter is within the
    limit afterwards. *)
Lemma advances_count_step :
  advances (fun r => r <= MatchInterpreter.reduction_limit)
    MatchInterpreter.count_step.
Proof.
  intros st a st' H. unfold MatchInterpreter.count_step, bind, tick in H.
  cbn [reductions printed] in H.
  destruct (Z.ltb_spec MatchInterpreter.reduction_limit (reductions st + 1))
    as [|Hle]; [discriminate|].
  injection H as <- <-. cbn. split; [lia|]. split; [left; exact Hle|].
  exists []. rewrite app_nil_r. reflexivity.
Qed.

(** Solving [advances] goals on the bodies of the interpreters. *)
Ltac advance IH :=
  repeat first
    [ apply advances_ret
    | apply advances_raise
    | apply advances_lift
    | apply advances_apply_unary
    | apply IH
    | apply advances_bind; [|intros ?]
    | match goal with
      | |- advances _ (if ?b then _ else _) => destruct b
      | |- advances _ (match ?x with _ => _ end) => destruct x
      end ].

Lemma advances_eval_node (ev : Node -> M Value) (n : Node) :
  (forall m, advances (fun _ => True) (ev m)) ->
  advances (fun _ => True) (Interpreter.eval_node ev n).
Proof.
  intros IH. unfold Interpreter.eval_node. advance IH.
Qed.

Lemma advances_eval (depth : nat) :
  forall n : Node, advances (fun _ => True) (Interpreter._eval depth n).
Proof.
  induction depth as [|depth IH]; intros n; [apply advances_raise|].
  cbn [Interpreter._eval]. unfold Interpreter.eval_step.
  apply advances_bind; [apply advances_tick|]. intros _.
  apply advances_eval_node, IH.
Qed.

Section AdvancesMatch.
Variable bound : Z -> Prop.
Variable ev : Node -> M Value.
Hypothesis IH : forall m, advances bound (ev m).

Lemma advances_eval_args (args : list Node) :
  advances bound (MatchInterpreter.eval_args ev args).
Proof.
  induction args as [|a args IHargs]; cbn [MatchInterpreter.eval_args].
  - apply advances_ret.
  - apply advances_bind; [apply IH|]. intros v.
    apply advances_bind; [apply IHargs|]. intros vs. apply advances_ret.
Qed.

Lemma advances_build_constructor (n : Node) :
  advances bound (MatchInterpreter._build_constructor ev n).
Proof.
  unfold MatchInterpreter._build_constructor.
  apply advances_bind; [apply advances_lift|]. intros [current args].
  apply advances_bind; [apply advances_eval_args|]. intros vs.
  apply advances_ret.
Qed.

Lemma advances_reduce_match (scrutinee : Node) (branches : list Node) :
  advances bound (MatchInterpreter._reduce_match ev scrutinee branches).
Proof.
  unfold MatchInterpreter._reduce_match.
  apply advances_bind; [apply IH|]. intros val.
  apply advances_bind.
  - destruct val; advance IH.
  - intros [idx args]. advance IH.
Qed.

Lemma advances_eval_app (n : Node) :
  advances bound (MatchInterpreter._eval_app ev n).
Proof.
  unfold MatchInterpreter._eval_app.
  apply advances_bind; [apply advances_lift|]. intros func.
  apply advances_bind; [apply advances_lift|]. intros arg.
  apply advances_bind; [apply advances_lift|]. intros [[scrutinee branches]|].
  { apply advances_reduce_match. }
  destruct (tag_eqb (tag func) PRIM && op_is (prim_op func) CONSTR).
  { advance IH. }
  apply advances_bind; [apply advances_lift|]. intros [|].
  { apply advances_bind; [apply advances_build_constructor|].
    intros [index args]. advance IH. }
  destruct (tag_eqb (tag func) LAM).
  { advance IH. }
  destruct (tag_eqb (tag func) PRIM && negb (op_is (prim_op func) MATCH)).
  { advance IH. }
  apply advances_bind.
  { destruct (tag_eqb (tag func) APP); advance IH. }
  intros [op|]; advance IH.
Qed.

Lemma advances_match_eval_node (n : Node) :
  advances bound (MatchInterpreter.eval_node ev n).
Proof.
  unfold MatchInterpreter.eval_node.
  destruct (tag n); try apply advances_eval_app; advance IH.
Qed.

End AdvancesMatch.

Lemma advances_match_eval (depth : nat) :
  forall n : Node,
    advances (fun r => r <= MatchInterpreter.reduction_limit)
      (MatchInterpreter._eval depth n).
Proof.
  induction depth as [|depth IH]; intros n; [apply advances_raise|].
  cbn [MatchInterpreter._eval]. unfold MatchInterpreter.eval_step.
  apply advances_bind; [apply advances_count_step|]. intros _.
  apply advances_match_eval_node, IH.
Qed.

(** An evaluation that returns has counted at least one reduction, and
    has only added to what was printed; the extended interpreter never
    returns with its counter above 5,000,000. After [run], the counter is
    the number of reductions of that run. *)
Theorem eval_counts_reductions (depth : nat) (n : Node) (st st' : IState)
    (v : Value) :
  (Interpreter._eval depth n st = Ok (v, st') ->
   reductions st < reductions st'
   /\ exists out, printed st' = printed st ++ out)
  /\ (MatchInterpreter._eval depth n st = Ok (v, st') ->
      reductions st < reductions st' <= 5000000
      /\ exists out, printed st' = printed st ++ out)
  /\ (MatchInterpreter.run depth n st = Ok (v, st') ->
      1 <= reductions st' <= 5000000).
Proof.
  assert (Hm : forall st0,
    MatchInterpreter._eval depth n st0 = Ok (v, st') ->
    reductions st0 < reductions st' <= 5000000
    /\ exists out, printed st' = printed st0 ++ out).
  { intros st0 H. destruct depth as [|depth]; [discriminate|].
    cbn [MatchInterpreter._eval] in H.
    unfold MatchInterpreter.eval_step, bind in H.
    destruct (MatchInterpreter.count_step st0) as [[[] st1]|] eqn:E;
      [|discriminate].
    destruct (advances_count_step _ _ _ E) as (_ & _ & out1 & Hp1).
    assert (Hr1 : reductions st1 = reductions st0 + 1
                  /\ reductions st1 <= 5000000).
    { unfold MatchInterpreter.count_step, bind, tick in E.
      cbn [reductions printed] in E.
      destruct (Z.ltb_spec MatchInterpreter.reduction_limit
                  (reductions st0 + 1)) as [|Hle]; [discriminate|].
      injection E as <-. cbn. split; [reflexivity | exact Hle]. }
    destruct (advances_match_eval_node _ _ (advances_match_eval depth) n
                _ _ _ H) as (H1 & H2 & out2 & Hp2).
    split.
    - destruct H2 as [H2|H2];
        unfold MatchInterpreter.reduction_limit in *; lia.
    - exists (out1 ++ out2). rewrite Hp2, Hp1, app_assoc. reflexivity. }
  split; [|split].
  - intros H. destruct depth as [|depth]; [discriminate|].
    cbn [Interpreter._eval] in H. unfold Interpreter.eval_step, bind in H.
    cbn [tick] in H.
    destruct (advances_eval_node _ n (advances_eval depth) _ _ _ H)
      as (H1 & _ & out & Hp).
    cbn [reductions printed] in *. split; [lia|]. exists out. exact Hp.
  - apply Hm.
  - unfold MatchInterpreter.run. intros H. apply Hm in H as [H _].
    cbn [reductions] in H. lia.
Qed.

(** At [print (3 + 5)], evaluated under an effect annotation. *)
Lemma eval_counts_reductions_witness :
  let n := B.effect (B.app (B.prim PrimOp.PRINT) (binop PrimOp.INT_ADD 3 5))
             Effect.IO in
  let st' := mkIState 5 [VInt 8] in
  MatchInterpreter._eval 4 n fresh = Ok (VNone, st')
  /\ reductions fresh < reductions st' <= 5000000
  /\ exists out, printed st' = printed fresh ++ out.
Proof.
  cbv zeta.
  assert (H : MatchInterpreter._eval 4
                (B.effect (B.app (B.prim PrimOp.PRINT)
                             (binop PrimOp.INT_ADD 3 5)) Effect.IO) fresh
              = Ok (VNone, mkIState 5 [VInt 8])) by (vm_compute; reflexivity).
  split; [exact H|].
  exact (proj1 (proj2 (eval_counts_reductions 4 _ fresh _ VNone)) H).
Defined.

(** ** The values of the base interpreter *)

Lemma returns_bind {A B' : Type} (Q : A -> Prop) (P : B' -> Prop)
    (m : M A) (k : A -> M B') :
  returns Q m -> (forall a, Q a -> returns P (k a)) ->
  returns P (bind m k).
Proof.
  intros Hm Hk st b st' H. unfold bind in H.
  destruct (m st) as [[a st1]|] eqn:E; [|discriminate].
  apply (Hk a (Hm _ _ _ E) _ _ _ H).
Qed.

Lemma returns_any {A : Type} (m : M A) : returns (fun _ => True) m.
Proof. intros st a st' _. exact I. Qed.

Lemma returns_ret {A : Type} (P : A -> Prop) (a : A) :
  P a -> returns P (ret a).
Proof. intros Ha st a' st' [= <- _]. exact Ha. Qed.

Lemma returns_raise {A : Type} (P : A -> Prop) (e : PyExn) :
  returns P (@raise A e).
Proof. intros st a st' H. discriminate H. Qed.

Lemma returns_lift {A : Type} (P : A -> Prop) (r : Res A) :
  (forall a, r = Ok a -> P a) -> returns P (lift r).
Proof.
  intros Hr st a st' H. unfold lift in H. destruct r; [|discriminate].
  injection H as <- _. apply Hr. reflexivity.
Qed.

Lemma apply_unary_result (op : option Z) (val : Value) :
  returns (fun v => is_result v = true) (Interpreter._apply_unary op val).
Proof.
  unfold Interpreter._apply_unary.
  repeat match goal with
         | |- returns _ (if ?b then _ else _) => destruct b
         end.
  - eapply returns_bind; [apply returns_any|]. intros _ _.
    apply returns_ret. reflexivity.
  - apply returns_lift. unfold py_neg. intros a H.
    destruct (as_int val); [injection H as <-; reflexivity|].
    destruct (is_float val); discriminate.
  - apply returns_ret. reflexivity.
  - apply returns_lift. unfold py_len. intros a H.
    destruct val; try discriminate. injection H as <-. reflexivity.
  - apply returns_raise.
Qed.

Lemma apply_binary_result (op : option Z) (a b v : Value) :
  is_result a = true -> is_result b = true ->
  Interpreter._apply_binary op a b = Ok v -> is_result v = true.
Proof.
  intros Ha Hb. unfold Interpreter._apply_binary.
  repeat match goal with
         | |- (if ?c then _ else _) = _ -> _ => destruct c
         end.
  - unfold py_add, non_int_arith.
    destruct (as_int a), (as_int b); try (intros [= <-]; reflexivity);
      destruct a, b; try (intros [= <-]; reflexivity);
      cbn; try discriminate.
  - unfold py_sub, non_int_arith.
    destruct (as_int a), (as_int b); try (intros [= <-]; reflexivity);
      destruct (_ && _); discriminate.
  - unfold py_mul, non_int_arith.
    destruct (as_int a), (as_int b); try (intros [= <-]; reflexivity);
      destruct a, b; try (intros [= <-]; reflexivity);
      cbn; try discriminate.
  - unfold py_floordiv, non_int_arith.
    destruct (as_int a), (as_int b);
      try (destruct (_ =? 0); [discriminate | intros [= <-]; reflexivity]);
      destruct (_ && _); discriminate.
  - unfold py_mod, non_int_arith.
    destruct (as_int a), (as_int b);
      try (destruct (_ =? 0); [discriminate | intros [= <-]; reflexivity]);
      destruct a; try discriminate; destruct (_ && _); discriminate.
  - unfold py_eq.
    destruct (as_int a), (as_int b); try (intros [= <-]; reflexivity);
      (destruct (_ && _); [discriminate|]);
      destruct a, b; try (intros [= <-]; reflexivity);
      destruct (node_eq _ _); try discriminate; intros [= <-]; reflexivity.
  - unfold py_lt, non_int_arith.
    destruct (as_int a), (as_int b); try (intros [= <-]; reflexivity);
      destruct a, b; try (intros [= <-]; reflexivity);
      cbn; try discriminate.
  - unfold py_gt, py_lt, non_int_arith.
    destruct (as_int b), (as_int a); try (intros [= <-]; reflexivity);
      destruct a, b; try (intros [= <-]; reflexivity);
      cbn; try discriminate.
  - intros [= <-]. unfold py_and. destruct (truthy a); assumption.
  - intros [= <-]. unfold py_or. destruct (truthy a); assumption.
  - destruct (py_str a); [|discriminate]. cbn [rbind].
    destruct (py_str b); [|discriminate]. cbn [rbind].
    intros [= <-]. reflexivity.
  - discriminate.
Qed.

Lemma eval_node_result (ev : Node -> M Value) (n : Node) :
  (forall m, returns (fun v => is_result v = true) (ev m)) ->
  returns (fun v => is_result v = true) (Interpreter.eval_node ev n).
Proof.
  intros IH. unfold Interpreter.eval_node.
  destruct (tag n) eqn:Htag;
    try apply returns_raise;
    try (apply returns_ret; unfold is_result, self_evaluating;
         rewrite Htag; reflexivity).
  - (* APP *)
    eapply returns_bind; [apply returns_any|]. intros func _.
    eapply returns_bind; [apply returns_any|]. intros arg _.
    eapply returns_bind; [apply IH|]. intros val Hval. cbv beta in Hval.
    destruct (tag_eqb (tag func) PRIM); [apply apply_unary_result|].
    eapply returns_bind; [apply returns_any|]. intros [f0|] _.
    + eapply returns_bind; [apply returns_any|]. intros l _.
      eapply returns_bind; [apply IH|]. intros lhs Hlhs. cbv beta in Hlhs.
      apply returns_lift. intros v Hv.
      apply (apply_binary_result _ _ _ _ Hlhs Hval Hv).
    + destruct (tag_eqb (tag func) LAM); [|apply returns_raise].
      eapply returns_bind; [apply returns_any|]. intros body _.
      eapply returns_bind; [apply returns_any|]. intros substituted _.
      apply IH.
  - (* UNI *)
    apply returns_ret. reflexivity.
  - (* FIX *)
    eapply returns_bind; [apply returns_any|]. intros body _.
    eapply returns_bind; [apply returns_any|]. intros unfolded _.
    apply IH.
  - (* EFF *)
    eapply returns_bind; [apply returns_any|]. intros c _. apply IH.
  - (* PRIM *)
    destruct (op_is (prim_op n) PrimOp.STR_LIT) eqn:E1.
    { apply returns_ret. destruct (data n); reflexivity. }
    destruct (op_is (prim_op n) PrimOp.INT_LIT) eqn:E2.
    { apply returns_ret. destruct (data n); reflexivity. }
    destruct (op_is (prim_op n) PrimOp.FLOAT_LIT) eqn:E3.
    { apply returns_ret. destruct (data n); reflexivity. }
    destruct (op_is (prim_op n) PrimOp.UNIT) eqn:E4.
    { apply returns_ret. reflexivity. }
    destruct (op_is (prim_op n) PrimOp.BOOL_TRUE) eqn:E5.
    { apply returns_ret. reflexivity. }
    destruct (op_is (prim_op n) PrimOp.BOOL_FALSE) eqn:E6.
    { apply returns_ret. reflexivity. }
    destruct (op_is (prim_op n) PrimOp.VAR) eqn:E7.
    { apply returns_raise. }
    apply returns_ret. unfold is_result, self_evaluating. rewrite Htag.
    destruct (prim_op n) as [o|]; [|reflexivity].
    cbn [op_in existsb op_is] in *.
    rewrite E1, E2, E3, E4, E5, E6, E7. reflexivity.
Qed.

Lemma eval_result (depth : nat) :
  forall n : Node,
    returns (fun v => is_result v = true) (Interpreter._eval depth n).
Proof.
  induction depth as [|depth IH]; intros n; [apply returns_raise|].
  cbn [Interpreter._eval]. unfold Interpreter.eval_step.
  eapply returns_bind; [apply returns_any|]. intros _ _.
  apply eval_node_result, IH.
Qed.

(** The node of a value evaluates to the value, in one reduction. *)
Lemma result_evaluates_to_itself (v : Value) (depth : nat) (st : IState) :
  is_result v = true ->
  Interpreter._eval (S depth) (Interpreter._to_node v) st
  = Ok (v, mkIState (reductions st + 1) (printed st)).
Proof.
  intros Hv. cbn [Interpreter._eval].
  unfold Interpreter.eval_step, bind, tick.
  destruct v as [|b|z|f|s|n|index args]; try reflexivity; [|discriminate].
  cbn [Interpreter._to_node]. unfold is_result, self_evaluating in Hv.
  unfold Interpreter.eval_node.
  destruct (tag n); try discriminate; try reflexivity.
  destruct (prim_op n) as [o|]; [|reflexivity].
  cbn [op_in existsb op_is] in *.
  apply negb_true_iff in Hv.
  repeat (apply orb_false_iff in Hv as [?E Hv]).
  rewrite E, E0, E1, E2, E3, E4, E5. reflexivity.
Qed.

(** What the base interpreter returns is a value that evaluates to
    itself: evaluating the node [_to_node] makes of it gives it back, in
    one reduction and without output. It is never a [Constructor]. *)
Theorem eval_returns_a_value (depth depth' : nat) (n : Node)
    (st st' st2 : IState) (v : Value) :
  Interpreter._eval depth n st = Ok (v, st') ->
  is_result v = true
  /\ Interpreter._eval (S depth') (Interpreter._to_node v) st2
     = Ok (v, mkIState (reductions st2 + 1) (printed st2)).
Proof.
  intros H. pose proof (eval_result depth n _ _ _ H) as Hv.
  split; [exact Hv|]. apply result_evaluates_to_itself, Hv.
Qed.

(** At [not (1 < 2)]: the value is [False], whose node is an integer
    literal carrying [False]. *)
Lemma eval_returns_a_value_witness :
  let n := B.app (B.prim PrimOp.BOOL_NOT) (binop PrimOp.INT_LT 1 2) in
  Interpreter._eval 3 n fresh = Ok (VBool false, mkIState 4 [])
  /\ is_result (VBool false) = true
  /\ Interpreter._eval 1 (Interpreter._to_node (VBool false)) fresh
     = Ok (VBool false, mkIState 1 []).
Proof.
  cbv zeta.
  assert (H : Interpreter._eval 3
                (B.app (B.prim PrimOp.BOOL_NOT) (binop PrimOp.INT_LT 1 2))
                fresh = Ok (VBool false, mkIState 4 []))
    by (vm_compute; reflexivity).
  split; [exact H|].
  exact (eval_returns_a_value 3 0 _ fresh _ fresh _ H).
Defined.

(** ** The extended interpreter on what the base interpreter evaluates *)

Lemma refines_refl {A : Type} (m : M A) : refines m m.
Proof. intros st a st' H _. exact H. Qed.

Lemma refines_raise {A : Type} (e : PyExn) (m : M A) : refines (raise e) m.
Proof. intros st a st' H. discriminate H. Qed.

Lemma refines_bind {A B' : Type} (Q : A -> Prop) (m1 m2 : M A)
    (k1 k2 : A -> M B') :
  refines m1 m2 ->
  returns Q m1 ->
  (forall a, Q a -> refines (k1 a) (k2 a)) ->
  (forall a, advances (fun _ => True) (k1 a)) ->
  refines (bind m1 k1) (bind m2 k2).
Proof.
  intros Hm HQ Hk Hadv st b st' H Hlim. unfold bind in *.
  destruct (m1 st) as [[a st1]|] eqn:E; [|discriminate].
  destruct (Hadv a _ _ _ H) as (Hle & _).
  rewrite (Hm _ _ _ E) by lia. apply (Hk a (HQ _ _ _ E) _ _ _ H Hlim).
Qed.

Lemma refines_ext {A : Type} (base ext ext' : M A) :
  (forall st, ext st = ext' st) -> refines base ext' -> refines base ext.
Proof. intros E H st a st' Hb Hlim. rewrite E. apply (H _ _ _ Hb Hlim). Qed.

(** The three shapes of application the base interpreter evaluates, as
    the extended interpreter evaluates them. *)
Lemma eval_app_unary (ev : Node -> M Value) (func arg : Node)
    (rest : list Node) (op : option Z) (d : Data) (e l : Z) (st : IState) :
  tag func = PRIM ->
  op_is (prim_op func) MATCH = false ->
  op_is (prim_op func) CONSTR = false ->
  MatchInterpreter._eval_app ev
    (mkNode APP (func :: arg :: rest) op d e l) st
  = (let! val := ev arg in Interpreter._apply_unary (prim_op func) val) st.
Proof.
  intros Ht Hm Hc. destruct func as [ft fcs fop fd fe fl].
  cbn [tag prim_op] in *. subst ft.
  unfold MatchInterpreter._eval_app, _decompose_match, _is_constr_chain.
  cbn [child children lookup list_lookup lift bind app_spine app_head
         rbind tag prim_op tag_eqb tag_code].
  unfold bind, lift. cbn [child children lookup list_lookup].
  cbn [app_spine rbind tag prim_op].
  change (tag_eqb PRIM PRIM) with true. change (tag_eqb PRIM LAM) with false.
  cbn [andb]. rewrite Hm, Hc. cbn [negb andb rbind].
  reflexivity.
Qed.

Lemma eval_app_binary (ev : Node -> M Value) (f0 lhs arg : Node)
    (frest rest : list Node) (fop op : option Z) (fd d : Data)
    (fe fl e l : Z) (st : IState) :
  tag f0 = PRIM ->
  op_is (prim_op f0) MATCH = false ->
  op_is (prim_op f0) CONSTR = false ->
  MatchInterpreter._eval_app ev
    (mkNode APP (mkNode APP (f0 :: lhs :: frest) fop fd fe fl :: arg :: rest)
       op d e l) st
  = (let! val := ev arg in
     let! x := ev lhs in
     lift (Interpreter._apply_binary (prim_op f0) x val)) st.
Proof.
  intros Ht Hm Hc. destruct f0 as [t cs pop pd pe pl].
  cbn [tag prim_op] in *. subst t.
  unfold MatchInterpreter._eval_app, _decompose_match, _is_constr_chain.
  unfold bind, lift. cbn [child children lookup list_lookup].
  cbn [app_spine app_head rbind tag prim_op].
  change (tag_eqb PRIM PRIM) with true. change (tag_eqb APP PRIM) with false.
  change (tag_eqb APP LAM) with false. change (tag_eqb APP APP) with true.
  cbn [andb]. rewrite Hm, Hc. cbn [negb andb rbind].
  unfold ret. cbn [child children lookup list_lookup prim_op tag].
  reflexivity.
Qed.

Lemma eval_app_lambda (ev : Node -> M Value) (func arg : Node)
    (rest : list Node) (op : option Z) (d : Data) (e l : Z) (st : IState) :
  tag func = LAM ->
  MatchInterpreter._eval_app ev
    (mkNode APP (func :: arg :: rest) op d e l) st
  = (let! val := ev arg in
     let! body := lift (child func 1) in
     let! substituted :=
       lift (Interpreter._substitute body 0 (MatchInterpreter._to_node val)) in
     ev substituted) st.
Proof.
  intros Ht. destruct func as [ft fcs fop fd fe fl].
  cbn [tag] in Ht. subst ft.
  unfold MatchInterpreter._eval_app, _decompose_match, _is_constr_chain.
  unfold bind, lift. cbn [child children lookup list_lookup].
  cbn [app_spine app_head rbind tag prim_op].
  change (tag_eqb LAM PRIM) with false. change (tag_eqb LAM LAM) with true.
  cbn [andb rbind]. reflexivity.
Qed.

Lemma apply_unary_known (op : option Z) (val : Value) (st : IState)
    (r : Value * IState) :
  Interpreter._apply_unary op val st = Ok r ->
  op_is op MATCH = false /\ op_is op CONSTR = false.
Proof.
  destruct op as [o|]; [|split; reflexivity]. cbn [op_is].
  destruct (Z.eqb_spec o MATCH) as [->|_]; [discriminate|].
  destruct (Z.eqb_spec o CONSTR) as [->|_]; [discriminate|].
  split; reflexivity.
Qed.

Lemma apply_binary_known (op : option Z) (a b r : Value) :
  Interpreter._apply_binary op a b = Ok r ->
  op_is op MATCH = false /\ op_is op CONSTR = false.
Proof.
  destruct op as [o|]; [|split; reflexivity]. cbn [op_is].
  destruct (Z.eqb_spec o MATCH) as [->|_]; [discriminate|].
  destruct (Z.eqb_spec o CONSTR) as [->|_]; [discriminate|].
  split; reflexivity.
Qed.

Lemma to_node_result (v : Value) :
  is_result v = true ->
  MatchInterpreter._to_node v = Interpreter._to_node v.
Proof. destruct v; try reflexivity. discriminate. Qed.

Section Refines.
Variables evb evm : Node -> M Value.
Hypothesis IH : forall m, refines (evb m) (evm m).
Hypothesis Hadv : forall m, advances (fun _ => True) (evb m).
Hypothesis Hres : forall m, returns (fun v => is_result v = true) (evb m).

Lemma refines_eval_node (n : Node) :
  refines (Interpreter.eval_node evb n) (MatchInterpreter.eval_node evm n).
Proof.
  destruct n as [t cs op d e l].
  unfold Interpreter.eval_node, MatchInterpreter.eval_node. cbn [tag].
  destruct t; try apply refines_refl; try apply refines_raise.
  - (* APP *)
    intros st v st' H Hlim.
    destruct cs as [|func [|arg rest]]; try discriminate H.
    unfold bind at 1 2, lift at 1 2 in H.
    cbn [child children lookup list_lookup] in H.
    destruct (tag func) eqn:Htag.
    all: try (unfold bind, lift, ret, raise in H;
              destruct (evb arg st) as [[val st1]|]; discriminate H).
    + (* LAM *)
      rewrite eval_app_lambda by exact Htag.
      change (tag_eqb LAM PRIM) with false in H. cbv iota in H.
      unfold bind at 2, ret at 1 in H.
      change (tag_eqb LAM APP) with false in H.
      change (tag_eqb LAM LAM) with true in H. cbv iota beta in H.
      revert H Hlim. revert st v st'.
      change (refines
                (let! val := evb arg in
                 let! body := lift (child func 1) in
                 let! substituted :=
                   lift (Interpreter._substitute body 0
                           (Interpreter._to_node val)) in
                 evb substituted)
                (let! val := evm arg in
                 let! body := lift (child func 1) in
                 let! substituted :=
                   lift (Interpreter._substitute body 0
                           (MatchInterpreter._to_node val)) in
                 evm substituted)).
      eapply refines_bind; [apply IH | apply Hres | | ].
      * intros val Hval. cbv beta in Hval. rewrite (to_node_result _ Hval).
        eapply refines_bind;
          [apply refines_refl | apply returns_any | | ].
        -- intros body _.
           eapply refines_bind;
             [apply refines_refl | apply returns_any | | ].
           ++ intros s _. apply IH.
           ++ intros s. apply Hadv.
        -- intros body. advance Hadv.
      * intros val. advance Hadv.
    + (* APP *)
      change (tag_eqb APP PRIM) with false in H. cbv iota in H.
      change (tag_eqb APP APP) with true in H. cbv iota in H.
      change (tag_eqb APP LAM) with false in H.
      destruct func as [ft fcs fop fd fe fl]. cbn [tag] in Htag. subst ft.
      destruct fcs as [|f0 fcs].
      { unfold bind, lift, ret, raise in H. cbn [child children lookup
          list_lookup] in H.
        destruct (evb arg st) as [[val st1]|]; discriminate H. }
      destruct (tag_eqb (tag f0) PRIM) eqn:Hf0.
      2:{ unfold bind, lift, ret, raise in H. cbn [child children lookup
            list_lookup] in H. rewrite Hf0 in H.
          destruct (evb arg st) as [[val st1]|]; discriminate H. }
      destruct fcs as [|lhs frest].
      { unfold bind, lift, ret, raise in H. cbn [child children lookup
          list_lookup] in H. rewrite Hf0 in H.
        destruct (evb arg st) as [[val st1]|]; discriminate H. }
      assert (Hprim : tag f0 = PRIM) by (destruct (tag f0); try discriminate; reflexivity).
      assert (H' : (let! val := evb arg in
                    let! x := evb lhs in
                    lift (Interpreter._apply_binary (prim_op f0) x val)) st
                   = Ok (v, st')).
      { rewrite <- H. unfold bind, lift, ret.
        cbn [child children lookup list_lookup]. rewrite Hf0.
        destruct (evb arg st) as [[val st1]|]; reflexivity. }
      clear H.
      assert (Hknown : op_is (prim_op f0) MATCH = false
                       /\ op_is (prim_op f0) CONSTR = false).
      { unfold bind, lift in H'.
        destruct (evb arg st) as [[val st1]|]; [|discriminate].
        destruct (evb lhs st1) as [[x st2]|]; [|discriminate].
        destruct (Interpreter._apply_binary (prim_op f0) x val) eqn:E;
          [|discriminate].
        apply (apply_binary_known _ _ _ _ E). }
      destruct Hknown as [Hm Hc].
      rewrite eval_app_binary by assumption.
      revert H' Hlim. revert st v st'.
      change (refines
                (let! val := evb arg in
                 let! x := evb lhs in
                 lift (Interpreter._apply_binary (prim_op f0) x val))
                (let! val := evm arg in
                 let! x := evm lhs in
                 lift (Interpreter._apply_binary (prim_op f0) x val))).
      eapply refines_bind; [apply IH | apply returns_any | | ].
      * intros val _.
        eapply refines_bind; [apply IH | apply returns_any | | ].
        -- intros x _. apply refines_refl.
        -- intros x. advance Hadv.
      * intros val. advance Hadv.
    + (* PRIM *)
      change (tag_eqb PRIM PRIM) with true in H. cbv iota in H.
      assert (Hknown : op_is (prim_op func) MATCH = false
                       /\ op_is (prim_op func) CONSTR = false).
      { unfold bind in H.
        destruct (evb arg st) as [[val st1]|]; [|discriminate].
        apply (apply_unary_known _ _ _ _ H). }
      destruct Hknown as [Hm Hc].
      rewrite eval_app_unary by assumption.
      revert H Hlim. revert st v st'.
      change (refines
                (let! val := evb arg in
                 Interpreter._apply_unary (prim_op func) val)
                (let! val := evm arg in
                 Interpreter._apply_unary (prim_op func) val)).
      eapply refines_bind; [apply IH | apply returns_any | | ].
      * intros val _. apply refines_refl.
      * intros val. advance Hadv.
  - (* FIX *)
    eapply refines_bind; [apply refines_refl | apply returns_any | | ].
    + intros body _.
      eapply refines_bind; [apply refines_refl | apply returns_any | | ].
      * intros s _. apply IH.
      * intros s. apply Hadv.
    + intros body. advance Hadv.
  - (* EFF *)
    eapply refines_bind; [apply refines_refl | apply returns_any | | ].
    + intros c _. apply IH.
    + intros c. apply Hadv.
Qed.

End Refines.

Lemma refines_tick : refines tick MatchInterpreter.count_step.
Proof.
  intros st a st' H Hlim. unfold tick in H. injection H as <- <-.
  unfold MatchInterpreter.count_step, bind, tick. cbn [reductions printed] in *.
  rewrite (proj2 (Z.ltb_ge _ _) Hlim). reflexivity.
Qed.

Lemma refines_eval (depth : nat) :
  forall n : Node,
    refines (Interpreter._eval depth n) (MatchInterpreter._eval depth n).
Proof.
  induction depth as [|depth IH]; intros n; [apply refines_raise|].
  cbn [Interpreter._eval MatchInterpreter._eval].
  unfold Interpreter.eval_step, MatchInterpreter.eval_step.
  eapply refines_bind; [apply refines_tick | apply returns_any | | ].
  - intros _ _. apply refines_eval_node.
    + exact IH.
    + apply advances_eval.
    + apply eval_result.
  - intros _. apply advances_eval_node, advances_eval.
Qed.

(** *** The recursion depth of the extended interpreter *)

Lemma agrees_refl {A : Type} (m : M A) : agrees m m.
Proof. intros st r H. left. exact H. Qed.

Lemma agrees_bind {A B' : Type} (m1 m2 : M A) (k1 k2 : A -> M B') :
  agrees m1 m2 -> (forall a, agrees (k1 a) (k2 a)) ->
  agrees (bind m1 k1) (bind m2 k2).
Proof.
  intros Hm Hk st r H. unfold bind in *.
  destruct (m1 st) as [[a st1]|] eqn:E; [|discriminate].
  destruct (Hm _ _ E) as [-> | ->]; [|right; reflexivity].
  apply (Hk a _ _ H).
Qed.

(** Solving [agrees] goals on the bodies of the extended interpreter. *)
Ltac agree IH :=
  repeat first
    [ apply IH
    | apply agrees_refl
    | apply agrees_bind; [|intros ?]
    | match goal with
      | |- agrees (if ?b then _ else _) (if ?b then _ else _) => destruct b
      | |- agrees (match ?x with _ => _ end) (match ?x with _ => _ end) =>
          destruct x
      end ].

Section AgreesMatch.
Variables ev1 ev2 : Node -> M Value.
Hypothesis IH : forall m, agrees (ev1 m) (ev2 m).

Lemma agrees_eval_args (args : list Node) :
  agrees (MatchInterpreter.eval_args ev1 args)
    (MatchInterpreter.eval_args ev2 args).
Proof.
  induction args as [|a args IHargs]; cbn [MatchInterpreter.eval_args].
  - apply agrees_refl.
  - apply agrees_bind; [apply IH|]. intros v.
    apply agrees_bind; [apply IHargs|]. intros vs. apply agrees_refl.
Qed.

Lemma agrees_build_constructor (n : Node) :
  agrees (MatchInterpreter._build_constructor ev1 n)
    (MatchInterpreter._build_constructor ev2 n).
Proof.
  unfold MatchInterpreter._build_constructor.
  apply agrees_bind; [apply agrees_refl|]. intros [current args].
  apply agrees_bind; [apply agrees_eval_args|]. intros vs.
  apply agrees_refl.
Qed.

Lemma agrees_reduce_match (scrutinee : Node) (branches : list Node) :
  agrees (MatchInterpreter._reduce_match ev1 scrutinee branches)
    (MatchInterpreter._reduce_match ev2 scrutinee branches).
Proof.
  unfold MatchInterpreter._reduce_match.
  apply agrees_bind; [apply IH|]. intros val.
  apply agrees_bind; [apply agrees_refl|].
  intros [idx args]. agree IH.
Qed.

Lemma agrees_eval_app (n : Node) :
  agrees (MatchInterpreter._eval_app ev1 n) (MatchInterpreter._eval_app ev2 n).
Proof.
  unfold MatchInterpreter._eval_app.
  apply agrees_bind; [apply agrees_refl|]. intros func.
  apply agrees_bind; [apply agrees_refl|]. intros arg.
  apply agrees_bind; [apply agrees_refl|]. intros [[scrutinee branches]|].
  { apply agrees_reduce_match. }
  destruct (tag_eqb (tag func) PRIM && op_is (prim_op func) CONSTR).
  { agree IH. }
  apply agrees_bind; [apply agrees_refl|]. intros [|].
  { apply agrees_bind; [apply agrees_build_constructor|].
    intros [index args]. agree IH. }
  destruct (tag_eqb (tag func) LAM).
  { agree IH. }
  destruct (tag_eqb (tag func) PRIM && negb (op_is (prim_op func) MATCH)).
  { agree IH. }
  apply agrees_bind; [apply agrees_refl|].
  intros [op|]; agree IH.
Qed.

Lemma agrees_match_eval_node (n : Node) :
  agrees (MatchInterpreter.eval_node ev1 n) (MatchInterpreter.eval_node ev2 n).
Proof.
  unfold MatchInterpreter.eval_node.
  destruct (tag n); try apply agrees_eval_app; agree IH.
Qed.

End AgreesMatch.

(** What the extended interpreter returns does not depend on the
    recursion depth it is given: with another depth it returns the same,
    or it raises [RecursionError]. *)
Lemma agrees_match_eval (depth : nat) :
  forall (depth' : nat) (n : Node),
    agrees (MatchInterpreter._eval depth n) (MatchInterpreter._eval depth' n).
Proof.
  induction depth as [|depth IH]; intros depth' n; [intros st r H; discriminate|].
  destruct depth' as [|depth']; [intros st r _; right; reflexivity|].
  cbn [MatchInterpreter._eval]. unfold MatchInterpreter.eval_step.
  apply agrees_bind; [apply agrees_refl|]. intros _.
  apply agrees_match_eval_node. intros m. apply IH.
Qed.

(** The extended interpreter agrees with the base interpreter: whenever
    the base interpreter evaluates a graph to a value in at most
    5,000,000 reductions, the extended interpreter evaluates it to the
    same value, with the same reduction count and the same output, when
    it has the recursion depth for it; and with any recursion depth it
    returns this or raises [RecursionError]. (It needs more depth than the
    base interpreter: an application takes a frame of [_eval_app] on top of
    the frame of [_eval].) *)
Theorem match_interpreter_extends (depth depth' : nat) (n : Node)
    (st st' : IState) (v : Value) :
  Interpreter.run depth n st = Ok (v, st') ->
  reductions st' <= 5000000 ->
  (exists d : nat, MatchInterpreter.run d n st = Ok (v, st'))
  /\ (MatchInterpreter.run depth' n st = Ok (v, st')
      \/ MatchInterpreter.run depth' n st = Raise RecursionError).
Proof.
  unfold Interpreter.run, MatchInterpreter.run. intros H Hlim.
  pose proof (refines_eval depth n _ _ _ H Hlim) as Hm.
  split; [exists depth; exact Hm|].
  apply (agrees_match_eval depth depth' n _ _ Hm).
Qed.

(** At [print ((\x. x + x) 21)]: the same result with depth 4, and
    [RecursionError] with depth 3. *)
Lemma match_interpreter_extends_witness :
  let double :=
    B.lam (B.universe 0)
      (B.app (B.app (B.prim PrimOp.INT_ADD) (B.var 0)) (B.var 0)) in
  let n := B.app (B.prim PrimOp.PRINT) (B.app double (B.int_lit 21)) in
  let st' := mkIState 6 [VInt 42] in
  Interpreter.run 4 n fresh = Ok (VNone, st')
  /\ reductions st' <= 5000000
  /\ (exists d : nat, MatchInterpreter.run d n fresh = Ok (VNone, st'))
  /\ (MatchInterpreter.run 3 n fresh = Ok (VNone, st')
      \/ MatchInterpreter.run 3 n fresh = Raise RecursionError).
Proof.
  cbv zeta.
  assert (H1 : Interpreter.run 4
                 (B.app (B.prim PrimOp.PRINT)
                    (B.app (B.lam (B.universe 0)
                              (B.app (B.app (B.prim PrimOp.INT_ADD) (B.var 0))
                                 (B.var 0)))
                       (B.int_lit 21))) fresh
               = Ok (VNone, mkIState 6 [VInt 42])) by (vm_compute; reflexivity).
  assert (H2 : reductions (mkIState 6 [VInt 42]) <= 5000000)
    by (vm_compute; discriminate).
  split; [exact H1|]. split; [exact H2|].
  exact (match_interpreter_extends 4 3 _ fresh _ VNone H1 H2).
Defined.

(** ** Substitution *)

Lemma height_child (c : Node) (cs : list Node) :
  c ∈ cs -> (height c <= heights cs)%nat.
Proof.
  unfold heights. induction 1 as [c cs|c c' cs _ IH]; cbn [foldr]; lia.
Qed.

(** With the frames counted, [_substitute] returns what the definition
    without them returns. *)
Lemma frames_substitute_sound (depth : nat) :
  forall (n : Node) (k : Z) (val r : Node),
    Frames._substitute depth n k val = Ok r ->
    Interpreter._substitute n k val = Ok r.
Proof.
  induction depth as [|depth IH]; intros n k val r; [discriminate|].
  destruct n as [t cs op d e l].
  cbn [Frames._substitute Interpreter._substitute tag prim_op data children
         effect universe_level].
  destruct (tag_eqb t PRIM && op_is op PrimOp.VAR).
  - destruct d as [|b|z| |]; cbn [data_as_int default from_option id];
      try discriminate.
    + destruct (Z.b2z b =? k); [tauto|].
      destruct (Z.b2z b >? k); [|tauto].
      destruct depth; [discriminate|]. tauto.
    + destruct (z =? k); [tauto|].
      destruct (z >? k); [|tauto].
      destruct depth; [discriminate|]. tauto.
  - match goal with
    | |- (let* _ := ?f O cs in _) = _ -> (let* _ := ?g O cs in _) = _ =>
        assert (Hcs : forall i rs, f i cs = Ok rs -> g i cs = Ok rs)
    end.
    { induction cs as [|c cs IHcs]; intros i rs; [tauto|].
      destruct ((tag_eqb t LAM || tag_eqb t FIX) && Nat.eqb i 1).
      - destruct (Frames._substitute depth c (k + 1) val) as [c'|] eqn:Ec;
          [|discriminate].
        rewrite (IH _ _ _ _ Ec). cbn [rbind].
        match goal with
        | |- (let* _ := ?x in _) = _ -> _ => destruct x as [rs'|] eqn:Ers
        end; [|discriminate].
        rewrite (IHcs _ _ Ers). tauto.
      - destruct (Frames._substitute depth c k val) as [c'|] eqn:Ec;
          [|discriminate].
        rewrite (IH _ _ _ _ Ec). cbn [rbind].
        match goal with
        | |- (let* _ := ?x in _) = _ -> _ => destruct x as [rs'|] eqn:Ers
        end; [|discriminate].
        rewrite (IHcs _ _ Ers). tauto. }
    match goal with
    | |- (let* _ := ?x in _) = _ -> _ => destruct x as [rs|] eqn:Ers
    end; [|discriminate].
    rewrite (Hcs _ _ Ers). cbn [rbind].
    destruct depth; [discriminate|]. tauto.
Qed.

(** Substituting for an index that no variable of the term reaches
    leaves the term as it is, when the recursion depth left is more than
    the height of the term; the method recurses once for every level of
    the term, and building a node takes a frame. *)
Theorem substitute_closed (depth : nat) (n : Node) :
  forall (k : Z) (val : Node),
    closed_below k n = true -> (height n < depth)%nat ->
    Frames._substitute depth n k val = Ok n.
Proof.
  revert depth. induction n as [t cs op d e l IH] using Node_ind'.
  intros depth k val Hclosed Hheight.
  rewrite height_unfold in Hheight. cbn [children] in Hheight.
  destruct depth as [|depth]; [lia|].
  revert Hclosed.
  cbn [closed_below Frames._substitute tag prim_op data children
         effect universe_level].
  destruct (tag_eqb t PRIM && op_is op PrimOp.VAR).
  - destruct d as [|b|z| |]; cbn [data_as_int default from_option id];
      try discriminate; intros H; apply Z.ltb_lt in H.
    + rewrite (proj2 (Z.eqb_neq _ _)) by lia.
      destruct (Z.gtb_spec (Z.b2z b) k); [lia | reflexivity].
    + rewrite (proj2 (Z.eqb_neq _ _)) by lia.
      destruct (Z.gtb_spec z k); [lia | reflexivity].
  - match goal with
    | |- ?f O cs = true -> (let* _ := ?g O cs in _) = _ =>
        assert (Hcs : forall i, f i cs = true -> g i cs = Ok cs)
    end.
    { assert (Hh : Forall (fun c => (height c < depth)%nat) cs).
      { apply Forall_forall. intros c Hc.
        pose proof (height_child c cs Hc). lia. }
      clear Hheight.
      induction IH as [|c cs Hc _ IHcs]; intros i H; [reflexivity|].
      apply Forall_cons in Hh as [Hhc Hhcs].
      apply andb_true_iff in H as [H1 H2].
      destruct ((tag_eqb t LAM || tag_eqb t FIX) && Nat.eqb i 1);
        rewrite (Hc _ _ _ H1 Hhc); cbn [rbind];
        rewrite (IHcs Hhcs _ H2); reflexivity. }
    intros H. rewrite (Hcs O H). cbn [rbind].
    destruct depth as [|depth]; [lia|]. reflexivity.
Qed.

(** At the closure [\x. x + 1], in which the only variable is bound, with
    five frames for its four levels. *)
Lemma substitute_closed_witness :
  let n := B.lam (B.universe 0)
             (B.app (B.app (B.prim PrimOp.INT_ADD) (B.var 0)) (B.int_lit 1)) in
  closed_below 0 n = true
  /\ (height n < 5)%nat
  /\ Frames._substitute 5 n 0 (B.int_lit 7) = Ok n.
Proof.
  cbv zeta.
  assert (H : closed_below 0
                (B.lam (B.universe 0)
                   (B.app (B.app (B.prim PrimOp.INT_ADD) (B.var 0))
                      (B.int_lit 1))) = true) by (vm_compute; reflexivity).
  assert (Hh : (height
                  (B.lam (B.universe 0)
                     (B.app (B.app (B.prim PrimOp.INT_ADD) (B.var 0))
                        (B.int_lit 1))) < 5)%nat) by (vm_compute; lia).
  split; [exact H|]. split; [exact Hh|].
  exact (substitute_closed 5 _ 0 (B.int_lit 7) H Hh).
Defined.

(** ** Constructors *)

(** A constructor expression is recognised as one, with the index and
    the arguments it was built from: [Constructor.from_node] inverts
    [constr] (and so [Constructor.to_node]), the chain test accepts it, and
    match decomposition does not fire on it. *)
Theorem constructor_from_node (index : Data) (args : list Node) :
  from_node (constr index args) = Ok (Some (index, args))
  /\ from_node (MatchInterpreter._to_node (VConstr index args))
     = Ok (Some (index, args))
  /\ _is_constr_chain (constr index args) = Ok true
  /\ _decompose_match (constr index args) = Ok None.
Proof.
  assert (H : from_node (constr index args) = Ok (Some (index, args))).
  { unfold from_node, constr. rewrite app_spine_chain, app_nil_r.
    reflexivity. }
  split; [exact H|]. split; [exact H|]. split.
  - unfold _is_constr_chain, constr. rewrite app_head_chain. reflexivity.
  - unfold _decompose_match, constr. rewrite app_spine_chain. reflexivity.
Qed.

(** A match whose scrutinee evaluates to [None], a string, a float or a
    closure fails with "Match on non-constructor". *)
Theorem match_on_non_constructor (depth : nat) (scrut : Node)
    (branches : list Node) (st st1 st2 : IState) (v : Value) :
  MatchInterpreter.count_step st = Ok (tt, st1) ->
  MatchInterpreter._eval depth scrut st1 = Ok (v, st2) ->
  match v with
  | VNone | VStr _ | VFloat _ => True
  | VNode n => tag n = LAM
  | _ => False
  end ->
  MatchInterpreter._eval (S depth) (match_expr scrut branches) st
  = Raise (XiError MatchNonConstructor).
Proof.
  intros Hstep Hs Hv. rewrite eval_match_expr.
  unfold bind at 1. rewrite Hstep.
  unfold MatchInterpreter._reduce_match, bind at 1. rewrite Hs.
  destruct v as [|b|z|f|s|n|i a]; try contradiction; try reflexivity.
  destruct n as [t cs op d e l]. cbn [tag] in Hv. subst t. reflexivity.
Qed.

(** At [match "abc" { 1 | 0 }]. *)
Lemma match_on_non_constructor_witness :
  let scrut := B.str_lit (ascii_str ["a"; "b"; "c"]%byte) in
  MatchInterpreter.count_step fresh = Ok (tt, mkIState 1 [])
  /\ MatchInterpreter._eval 1 scrut (mkIState 1 [])
     = Ok (VStr (ascii_str ["a"; "b"; "c"]%byte), mkIState 2 [])
  /\ MatchInterpreter._eval 2
       (match_expr scrut [B.int_lit 1; B.int_lit 0]) fresh
     = Raise (XiError MatchNonConstructor).
Proof.
  cbv zeta.
  assert (H1 : MatchInterpreter.count_step fresh = Ok (tt, mkIState 1 []))
    by (vm_compute; reflexivity).
  assert (H2 : MatchInterpreter._eval 1
                 (B.str_lit (ascii_str ["a"; "b"; "c"]%byte)) (mkIState 1 [])
               = Ok (VStr (ascii_str ["a"; "b"; "c"]%byte), mkIState 2 []))
    by (vm_compute; reflexivity).
  split; [exact H1|]. split; [exact H2|].
  exact (match_on_non_constructor 1 _ [B.int_lit 1; B.int_lit 0] fresh _ _ _
           H1 H2 I).
Defined.

(** ** Natural numbers: [nat] and [nat_to_int] *)

Lemma triangle_S (k : nat) : triangle (S k) = triangle k + Z.of_nat k + 1.
Proof.
  unfold triangle. rewrite Nat2Z.inj_succ.
  replace (Z.succ (Z.of_nat k) * (Z.succ (Z.of_nat k) + 1))
    with (Z.of_nat k * (Z.of_nat k + 1) + (Z.of_nat k + 1) * 2) by lia.
  rewrite Z.div_add by lia. lia.
Qed.

Lemma triangle_nonneg (k : nat) : 0 <= triangle k.
Proof. unfold triangle. apply Z.div_pos; nia. Qed.

Lemma to_node_nat_value (k : nat) :
  MatchInterpreter._to_node (nat_value k) = nat_ k.
Proof. destruct k; reflexivity. Qed.

Lemma count_step_ok (st : IState) :
  reductions st + 1 <= MatchInterpreter.reduction_limit ->
  MatchInterpreter.count_step st = Ok (tt, after 1 st).
Proof.
  intros H. unfold MatchInterpreter.count_step, bind, tick.
  cbn [reductions printed]. rewrite (proj2 (Z.ltb_ge _ _) H). reflexivity.
Qed.

Lemma count_step_limit (st : IState) :
  MatchInterpreter.reduction_limit < reductions st + 1 ->
  MatchInterpreter.count_step st = Raise (XiError ReductionLimit).
Proof.
  intros H. unfold MatchInterpreter.count_step, bind, tick.
  cbn [reductions printed]. rewrite (proj2 (Z.ltb_lt _ _) H). reflexivity.
Qed.

Lemma after_after (a b : Z) (st : IState) :
  after b (after a st) = after (a + b) st.
Proof. unfold after. cbn. f_equal. lia. Qed.

(** Evaluating [nat(v)] takes [v + 1] reductions. *)
Lemma eval_nat (v : nat) :
  forall (depth : nat) (st : IState),
    (v < depth)%nat ->
    reductions st + Z.of_nat v + 1 <= MatchInterpreter.reduction_limit ->
    MatchInterpreter._eval depth (nat_ v) st
    = Ok (nat_value v, after (Z.of_nat v + 1) st).
Proof.
  induction v as [|k IH]; intros depth st Hd Hr;
    (destruct depth as [|depth]; [lia|]); rewrite match_eval_S;
    unfold bind at 1; rewrite count_step_ok by lia.
  - reflexivity.
  - change (nat_ (S k)) with (constr (DInt 1) [nat_ k]).
    rewrite eval_node_constr. cbn [MatchInterpreter.eval_args].
    unfold bind at 1 2. rewrite IH by (cbn [after reductions]; lia).
    rewrite to_node_nat_value, after_after.
    unfold bind, ret. cbn [constr_value nat_value]. do 3 f_equal. lia.
Qed.

(** ... and fails when the counter passes the limit on the way. *)
Lemma eval_nat_limit (v : nat) :
  forall (depth : nat) (st : IState),
    (v < depth)%nat ->
    MatchInterpreter.reduction_limit < reductions st + Z.of_nat v + 1 ->
    MatchInterpreter._eval depth (nat_ v) st = Raise (XiError ReductionLimit).
Proof.
  induction v as [|k IH]; intros depth st Hd Hr;
    (destruct depth as [|depth]; [lia|]); rewrite match_eval_S;
    unfold bind at 1.
  - rewrite count_step_limit by lia. reflexivity.
  - destruct (Z_lt_le_dec MatchInterpreter.reduction_limit
                (reductions st + 1)) as [Hlt|Hle].
    + rewrite count_step_limit by lia. reflexivity.
    + rewrite count_step_ok by lia.
      change (nat_ (S k)) with (constr (DInt 1) [nat_ k]).
      rewrite eval_node_constr. cbn [MatchInterpreter.eval_args].
      unfold bind at 1 2. rewrite IH by (cbn [after reductions]; lia).
      reflexivity.
Qed.

(** Counting the successors of the value of [nat(v)]: every successor
    costs the evaluation of its argument. *)
Lemma nat_to_int_loop_value (v : nat) :
  forall (limit depth : nat) (count : Z) (st : IState),
    (v + 2 <= limit)%nat -> (v <= depth)%nat ->
    reductions st + triangle v <= MatchInterpreter.reduction_limit ->
    nat_to_int_loop limit depth count (nat_value v) st
    = Ok (count + Z.of_nat v, after (triangle v) st).
Proof.
  induction v as [|k IH]; intros limit depth count st Hl Hd Hr.
  - destruct limit as [|[|limit]]; try lia.
    cbn. unfold after, ret. destruct st. cbn.
    change (triangle 0) with 0. rewrite !Z.add_0_r. reflexivity.
  - destruct limit as [|limit]; [lia|].
    rewrite triangle_S in *. pose proof (triangle_nonneg k).
    cbn [nat_to_int_loop nat_value].
    change (data_eq (DInt 1) (DInt 0)) with (Some false).
    change (data_eq (DInt 1) (DInt 1)) with (Some true).
    cbv iota. unfold bind at 1. rewrite eval_nat by lia.
    rewrite IH by (cbn [after reductions]; lia).
    rewrite after_after. do 2 f_equal; [lia | f_equal; lia].
Qed.

Lemma nat_to_int_loop_limit (v : nat) :
  forall (limit depth : nat) (count : Z) (st : IState),
    (v + 2 <= limit)%nat -> (v <= depth)%nat ->
    reductions st <= MatchInterpreter.reduction_limit ->
    MatchInterpreter.reduction_limit < reductions st + triangle v ->
    nat_to_int_loop limit depth count (nat_value v) st
    = Raise (XiError ReductionLimit).
Proof.
  induction v as [|k IH]; intros limit depth count st Hl Hd Hr0 Hr.
  - change (triangle 0) with 0 in Hr. lia.
  - destruct limit as [|limit]; [lia|].
    rewrite triangle_S in *. pose proof (triangle_nonneg k).
    cbn [nat_to_int_loop nat_value].
    change (data_eq (DInt 1) (DInt 0)) with (Some false).
    change (data_eq (DInt 1) (DInt 1)) with (Some true).
    cbv iota. unfold bind at 1.
    destruct (Z_lt_le_dec MatchInterpreter.reduction_limit
                (reductions st + Z.of_nat k + 1)) as [Hlt|Hle].
    + rewrite eval_nat_limit by lia. reflexivity.
    + rewrite eval_nat by lia.
      apply IH; cbn [after reductions]; lia.
Qed.

(** [nat_to_int(interp, interp.run(nat(v)))] gives [v] back as long as
    [(v + 1) * (v + 2) / 2] reductions are within the limit of 5,000,000,
    that is, up to [v = 3160]; from 3161 on (and as far as the recursion
    limit lets [nat(v)] be evaluated) it fails with "Reduction limit
    exceeded", because counting the successors evaluates every argument
    again on the same counter. *)
Theorem nat_to_int_of_nat (v : nat) :
  ((Z.of_nat v + 1) * (Z.of_nat v + 2) <= 10000000 ->
   nat_result (nat_ v) = Ok (Z.of_nat v))
  /\ (10000000 < (Z.of_nat v + 1) * (Z.of_nat v + 2) ->
      Z.of_nat v <= 20000 ->
      nat_result (nat_ v) = Raise (XiError ReductionLimit)).
Proof.
  assert (Ht : 2 * triangle v = Z.of_nat v * (Z.of_nat v + 1)).
  { unfold triangle.
    assert (E : Z.of_nat v * (Z.of_nat v + 1) mod 2 = 0).
    { rewrite Z.mul_mod by lia.
      destruct (Z.mod_pos_bound (Z.of_nat v) 2 ltac:(lia)) as [? ?].
      assert (Z.of_nat v mod 2 = 0 \/ Z.of_nat v mod 2 = 1) as [E|E] by lia.
      - rewrite E. reflexivity.
      - replace ((Z.of_nat v + 1) mod 2) with 0; [rewrite E; reflexivity|].
        rewrite Z.add_mod, E by lia. reflexivity. }
    pose proof (Z.div_mod (Z.of_nat v * (Z.of_nat v + 1)) 2 ltac:(lia)). lia. }
  unfold nat_result, result, MatchInterpreter.run, nat_to_int, recursion_limit,
    fresh.
  unfold MatchInterpreter.reduction_limit in *.
  split; intros H.
  - assert (Hv : Z.of_nat v <= 3161) by nia.
    unfold bind.
    rewrite eval_nat
      by (try (apply Nat2Z.inj_lt; rewrite Z2Nat.id; lia);
          unfold MatchInterpreter.reduction_limit; cbn [reductions]; nia).
    rewrite nat_to_int_loop_value
      by (try (apply Nat2Z.inj_le; try rewrite Nat2Z.inj_add;
               rewrite Z2Nat.id; lia);
          unfold MatchInterpreter.reduction_limit; cbn [after reductions];
          nia).
    reflexivity.
  - intros Hv. unfold bind.
    rewrite eval_nat
      by (try (apply Nat2Z.inj_lt; rewrite Z2Nat.id; lia);
          unfold MatchInterpreter.reduction_limit; cbn [reductions]; nia).
    rewrite nat_to_int_loop_limit
      by (try (apply Nat2Z.inj_le; try rewrite Nat2Z.inj_add;
               rewrite Z2Nat.id; lia);
          unfold MatchInterpreter.reduction_limit; cbn [after reductions];
          nia).
    reflexivity.
Qed.

(** At [v = 5]. *)
Lemma nat_to_int_of_nat_witness :
  (Z.of_nat 5 + 1) * (Z.of_nat 5 + 2) <= 10000000
  /\ nat_result (nat_ 5) = Ok (Z.of_nat 5).
Proof.
  assert (H : (Z.of_nat 5 + 1) * (Z.of_nat 5 + 2) <= 10000000)
    by (vm_compute; discriminate).
  split; [exact H|]. exact (proj1 (nat_to_int_of_nat 5) H).
Defined.

(** ** The optimizer passes build on the graph they are given *)

Lemma closed_store_alloc (s : Store) (o : Obj) :
  closed_store s ->
  Forall (fun c => (c < length s)%nat) (o_children o) ->
  closed_store (s ++ [o]).
Proof.
  intros Hs Ho a o' Ha. rewrite length_app. cbn [length].
  destruct (Nat.lt_ge_cases a (length s)) as [Hlt|Hge].
  - unfold Store in *. rewrite lookup_app_l in Ha by exact Hlt.
    eapply Forall_impl; [apply (Hs a o' Ha)|]. cbn. intros c Hc. lia.
  - pose proof (lookup_lt_Some _ _ _ Ha) as Ha'.
    unfold Store in *. rewrite length_app in Ha'. cbn [length] in Ha'.
    assert (a = length s) as -> by lia.
    rewrite lookup_app_r, Nat.sub_diag in Ha by lia. injection Ha as <-.
    eapply Forall_impl; [exact Ho|]. cbn. intros c Hc. lia.
Qed.

Lemma value_to_node_leaf (val : Value) (o : Obj) :
  _value_to_node val = Some o -> o_children o = [].
Proof. destruct val as [|[]| | | | |]; intros [= <-]; reflexivity. Qed.

Lemma try_fold_leaf (computed : Res Value) (o : Obj) :
  try_fold computed = Ok (Some o) -> o_children o = [].
Proof.
  unfold try_fold. destruct computed as [val|[]]; try discriminate.
  intros [= H]. apply (value_to_node_leaf _ _ H).
Qed.

(** [fold] either keeps the node it arrived at or puts a new literal in
    its place. *)
Lemma fold_result_cases (st st' : FoldState) (nid result r : nat) :
  fold_result st nid result = Ok (st', r) ->
  (st' = mkFold (fold_store st) (<[nid := result]> (cache st))
           (folded_count st)
   /\ r = result)
  \/ exists o : Obj,
       o_children o = []
       /\ st' = mkFold (fold_store st ++ [o])
                  (<[nid := length (fold_store st)]> (cache st))
                  (folded_count st + 1)
       /\ r = length (fold_store st).
Proof.
  unfold fold_result, alloc. intros H.
  assert (Hunary :
    (let* u := unary_redex (fold_store st) result in
     match u with
     | Some (op, arg) =>
         let* folded :=
           try_fold (result_value (Interpreter._apply_unary op arg)) in
         match folded with
         | Some o =>
             Ok (mkFold (fold_store st ++ [o])
                   (<[nid := length (fold_store st)]> (cache st))
                   (folded_count st + 1), length (fold_store st))
         | None =>
             Ok (mkFold (fold_store st) (<[nid := result]> (cache st))
                   (folded_count st), result)
         end
     | None =>
         Ok (mkFold (fold_store st) (<[nid := result]> (cache st))
               (folded_count st), result)
     end) = Ok (st', r) ->
    (st' = mkFold (fold_store st) (<[nid := result]> (cache st))
             (folded_count st) /\ r = result)
    \/ exists o : Obj,
         o_children o = []
         /\ st' = mkFold (fold_store st ++ [o])
                    (<[nid := length (fold_store st)]> (cache st))
                    (folded_count st + 1)
         /\ r = length (fold_store st)).
  { clear H. intros H.
    destruct (unary_redex (fold_store st) result) as [[[op arg]|]|];
      cbn [rbind] in H; try discriminate.
    - destruct (try_fold _) as [[o|]|] eqn:E; cbn [rbind] in H;
        try discriminate.
      + injection H as <- <-. right. exists o.
        split; [apply (try_fold_leaf _ _ E)|]. split; reflexivity.
      + injection H as <- <-. left. split; reflexivity.
    - injection H as <- <-. left. split; reflexivity. }
  destruct (binary_redex (fold_store st) result) as [[[[op lhs] rhs]|]|];
    cbn [rbind] in H; try discriminate.
  - destruct (try_fold _) as [[o|]|] eqn:E; cbn [rbind] in H;
      try discriminate.
    + injection H as <- <-. right. exists o.
      split; [apply (try_fold_leaf _ _ E)|]. split; reflexivity.
    + apply Hunary, H.
  - apply Hunary, H.
Qed.

Lemma fold_result_inv (st st' : FoldState) (nid result r : nat) :
  fold_result st nid result = Ok (st', r) ->
  fold_inv st -> (result < length (fold_store st))%nat ->
  fold_inv st' /\ (r < length (fold_store st'))%nat
  /\ fold_store st `prefix_of` fold_store st'.
Proof.
  intros H [Hclosed Hcache] Hres.
  apply fold_result_cases in H as [[-> ->]|(o & Ho & -> & ->)];
    cbn [fold_store cache].
  - split; [split|split]; [exact Hclosed| |exact Hres|reflexivity].
    intros n r. cbn [cache fold_store].
    destruct (decide (n = nid)) as [->|Hne].
    + rewrite lookup_insert_eq. intros [= <-]. exact Hres.
    + rewrite lookup_insert_ne by congruence. apply Hcache.
  - rewrite length_app. cbn [length]. split; [split|split].
    + apply closed_store_alloc; [exact Hclosed|]. rewrite Ho. constructor.
    + intros n r. cbn [cache fold_store]. rewrite length_app. cbn [length].
      destruct (decide (n = nid)) as [->|Hne].
      * rewrite lookup_insert_eq. intros [= <-]. lia.
      * rewrite lookup_insert_ne by congruence. intros Hn.
        apply Hcache in Hn. lia.
    + lia.
    + apply prefix_app_r. reflexivity.
Qed.

Lemma fold_invariant (depth : nat) :
  forall (st : FoldState) (node : nat) (st' : FoldState) (r : nat),
    fold depth st node = Ok (st', r) ->
    fold_inv st -> (node < length (fold_store st))%nat ->
    fold_inv st' /\ (r < length (fold_store st'))%nat
    /\ fold_store st `prefix_of` fold_store st'.
Proof.
  induction depth as [|depth IH]; intros st node st' r H Hinv Hnode;
    [discriminate|].
  cbn [fold] in H.
  destruct (cache st !! node) as [r0|] eqn:Ecache.
  { injection H as <- <-. split; [exact Hinv|].
    split; [apply (proj2 Hinv node r0 Ecache) | reflexivity]. }
  unfold get in H.
  destruct (fold_store st !! node) as [o|] eqn:Eo; [|discriminate].
  cbn [rbind] in H.
  match type of H with
  | (let* (_, _) := foldM ?F _ _ in _) = _ =>
      assert (Hch : forall (cs : list nat) (st0 : FoldState) (acc : list nat)
                      (st1 : FoldState) (out : list nat),
                foldM F cs (st0, acc) = Ok (st1, out) ->
                fold_inv st0 ->
                Forall (fun c => (c < length (fold_store st0))%nat) cs ->
                Forall (fun c => (c < length (fold_store st0))%nat) acc ->
                fold_inv st1
                /\ Forall (fun c => (c < length (fold_store st1))%nat) out
                /\ fold_store st0 `prefix_of` fold_store st1)
  end.
  { clear - IH. induction cs as [|c cs IHcs];
      intros st0 acc st1 out H Hinv Hcs Hacc.
    - injection H as <- <-. split; [exact Hinv|]. split; [exact Hacc|].
      reflexivity.
    - cbn [foldM] in H.
      destruct (fold depth st0 c) as [[stc c']|] eqn:Ec; [|discriminate].
      cbn [rbind] in H.
      inversion Hcs as [|? ? Hc Hcs']; subst.
      destruct (IH _ _ _ _ Ec Hinv Hc) as (Hinvc & Hc' & Hpre).
      pose proof (prefix_length _ _ Hpre) as Hlen.
      destruct (IHcs _ _ _ _ H Hinvc) as (H1 & H2 & H3).
      + eapply Forall_impl; [exact Hcs'|]. cbn. intros x Hx. lia.
      + apply Forall_app. split.
        * eapply Forall_impl; [exact Hacc|]. cbn. intros x Hx. lia.
        * constructor; [exact Hc' | constructor].
      + split; [exact H1|]. split; [exact H2|].
        etransitivity; eassumption. }
  destruct (foldM _ (o_children o) (st, [])) as [[st1 new_children]|] eqn:Ef;
    [|discriminate].
  cbn [rbind] in H.
  destruct (Hch _ _ _ _ _ Ef Hinv (proj1 Hinv node o Eo) ltac:(constructor))
    as (Hinv1 & Hnew & Hpre1).
  pose proof (prefix_length _ _ Hpre1) as Hlen1.
  destruct (negb (bool_decide (new_children = o_children o))).
  - unfold alloc in H.
    apply fold_result_inv in H as (H1 & H2 & H3).
    + split; [exact H1|]. split; [exact H2|].
      cbn [fold_store] in H3. etransitivity; [exact Hpre1|].
      etransitivity; [|exact H3]. apply prefix_app_r. reflexivity.
    + split; cbn [fold_store cache].
      * apply closed_store_alloc; [apply Hinv1 | exact Hnew].
      * intros n r0 Hn. rewrite length_app. cbn [length].
        apply (proj2 Hinv1) in Hn. lia.
    + cbn [fold_store]. rewrite length_app. cbn [length]. lia.
  - apply fold_result_inv in H as (H1 & H2 & H3).
    + split; [exact H1|]. split; [exact H2|].
      cbn [fold_store] in H3. etransitivity; eassumption.
    + destruct st1. exact Hinv1.
    + cbn [fold_store]. lia.
Qed.

Lemma constant_fold_invariant (depth : nat) (s s' : Store) (root r : nat)
    (stats stats' : OptimizerStats) :
  constant_fold depth s root stats = Ok (s', r, stats') ->
  closed_store s -> (root < length s)%nat ->
  closed_store s' /\ (r < length s')%nat /\ s `prefix_of` s'.
Proof.
  unfold constant_fold. intros H Hs Hroot.
  destruct (fold depth (mkFold s ∅ 0) root) as [[st r0]|] eqn:E;
    [|discriminate].
  cbn [rbind] in H. injection H as <- <- _.
  apply fold_invariant in E as (H1 & H2 & H3).
  - split; [apply H1|]. split; [exact H2 | exact H3].
  - split; [exact Hs|]. intros n r1 Hn. cbn [cache] in Hn.
    rewrite lookup_empty in Hn. discriminate.
  - exact Hroot.
Qed.

Lemma canonical_lookup_in (canonical : list (Key * nat)) (key : Key) (v : nat) :
  canonical_lookup canonical key = Ok (Some v) ->
  exists k : Key, (k, v) ∈ canonical.
Proof.
  induction canonical as [|[k w] rest IH]; [discriminate|].
  cbn [canonical_lookup].
  destruct (key_eq k key) as [[|]|]; try discriminate.
  - intros [= <-]. exists k. left.
  - intros H. destruct (IH H) as [k' Hk']. exists k'. right. exact Hk'.
Qed.

Lemma cse_step_invariant (st st' : CseState) (node : nat) :
  cse_step st node = Ok st' ->
  cse_inv st ->
  cse_inv st' /\ cse_store st `prefix_of` cse_store st'.
Proof.
  unfold cse_step. intros H (Hclosed & Hrep & Hcan).
  unfold get in H.
  destruct (cse_store st !! node) as [o|] eqn:Eo; [|discriminate].
  cbn [rbind] in H.
  set (new_children :=
         map (fun c => default c (replacement st !! c)) (o_children o)) in *.
  assert (Hnew : Forall (fun c => (c < length (cse_store st))%nat)
                   new_children).
  { unfold new_children. apply Forall_fmap.
    eapply Forall_impl; [apply (Hclosed node o Eo)|]. cbn. intros c Hc.
    destruct (replacement st !! c) as [r|] eqn:Er; cbn; [|exact Hc].
    apply (Hrep c r Er). }
  assert (Hnode : (node < length (cse_store st))%nat)
    by (apply lookup_lt_Some in Eo; exact Eo).
  match type of H with
  | (let '(_, _) := ?p in _) = _ => destruct p as [s' new_node] eqn:Ealloc
  end.
  assert (Hs' : closed_store s' /\ (new_node < length s')%nat
                /\ cse_store st `prefix_of` s').
  { destruct (negb _).
    - unfold alloc in Ealloc. injection Ealloc as <- <-.
      split; [apply closed_store_alloc; assumption|].
      rewrite length_app. cbn [length]. split; [lia|].
      apply prefix_app_r. reflexivity.
    - injection Ealloc as <- <-. split; [exact Hclosed|].
      split; [exact Hnode | reflexivity]. }
  destruct Hs' as (Hclosed' & Hnew_node & Hpre).
  pose proof (prefix_length _ _ Hpre) as Hlen.
  destruct (s' !! new_node) as [o'|] eqn:Eo'; [|discriminate].
  cbn [rbind] in H.
  destruct (canonical_lookup (canonical st) (_structural_key o'))
    as [[c|]|] eqn:Ec; [| |discriminate]; cbn [rbind] in H;
    injection H as <-; split; try exact Hpre.
  - apply canonical_lookup_in in Ec as [k Hk].
    pose proof (proj1 (Forall_forall _ _) Hcan _ Hk) as Hc. cbn [snd] in Hc.
    split; [exact Hclosed'|]. cbn [cse_store replacement canonical]. split.
    + intros n r. destruct (decide (n = node)) as [->|Hne].
      * rewrite lookup_insert_eq. intros [= <-]. lia.
      * rewrite lookup_insert_ne by congruence. intros Hn.
        apply Hrep in Hn. lia.
    + eapply Forall_impl; [exact Hcan|]. cbn. intros kv Hkv. lia.
  - split; [exact Hclosed'|]. cbn [cse_store replacement canonical]. split.
    + intros n r. destruct (decide (n = node)) as [->|Hne].
      * rewrite lookup_insert_eq. intros [= <-]. exact Hnew_node.
      * rewrite lookup_insert_ne by congruence. intros Hn.
        apply Hrep in Hn. lia.
    + apply Forall_app. split.
      * eapply Forall_impl; [exact Hcan|]. cbn. intros kv Hkv. lia.
      * constructor; [exact Hnew_node | constructor].
Qed.

Lemma cse_invariant (depth : nat) (s s' : Store) (root r : nat)
    (stats stats' : OptimizerStats) :
  cse depth s root stats = Ok (s', r, stats') ->
  closed_store s -> (root < length s)%nat ->
  closed_store s' /\ (r < length s')%nat /\ s `prefix_of` s'.
Proof.
  unfold cse. intros H Hs Hroot.
  destruct (collect depth s (∅, []) root) as [[visited order]|];
    [|discriminate].
  cbn [rbind] in H.
  destruct (foldM cse_step order (mkCse s [] ∅ 0)) as [st|] eqn:E;
    [|discriminate].
  cbn [rbind] in H. injection H as <- <- _.
  assert (Hloop : forall (nodes : list nat) (st0 st1 : CseState),
            foldM cse_step nodes st0 = Ok st1 -> cse_inv st0 ->
            cse_inv st1 /\ cse_store st0 `prefix_of` cse_store st1).
  { clear. induction nodes as [|n nodes IH]; intros st0 st1 H Hinv.
    - injection H as <-. split; [exact Hinv | reflexivity].
    - cbn [foldM] in H.
      destruct (cse_step st0 n) as [stn|] eqn:En; [|discriminate].
      cbn [rbind] in H.
      destruct (cse_step_invariant _ _ _ En Hinv) as [Hinvn Hpren].
      destruct (IH _ _ H Hinvn) as [H1 H2].
      split; [exact H1 | etransitivity; eassumption]. }
  destruct (Hloop _ _ _ E) as ((Hclosed & Hrep & _) & Hpre).
  { split; [exact Hs|]. split; [|constructor].
    intros n r0 Hn. cbn [replacement] in Hn. rewrite lookup_empty in Hn.
    discriminate. }
  cbn [cse_store] in Hpre. pose proof (prefix_length _ _ Hpre) as Hlen.
  split; [exact Hclosed|]. split; [|exact Hpre].
  destruct (replacement st !! root) as [r0|] eqn:Er; cbn.
  - apply (Hrep root r0 Er).
  - lia.
Qed.

(** ** Reachability *)

Lemma pending_visit (l : list Obj) :
  forall (base i : nat) (o : Obj) (visited : gset nat),
    l !! i = Some o -> (base + i)%nat ∉ visited ->
    (pending l base ({[(base + i)%nat]} ∪ visited) + length (o_children o)
     = pending l base visited)%nat.
Proof.
  assert (Hout : forall (l : list Obj) (base n : nat) (visited : gset nat),
            (n < base)%nat ->
            pending l base ({[n]} ∪ visited) = pending l base visited).
  { clear. induction l as [|x l IH]; intros base n visited Hn; [reflexivity|].
    cbn [pending]. rewrite (IH (S base) n visited) by lia.
    destruct (decide (base ∈ visited)) as [Hin|Hin].
    - rewrite !bool_decide_eq_true_2 by set_solver. reflexivity.
    - rewrite !bool_decide_eq_false_2; [reflexivity|exact Hin|].
      intros [Heq%elem_of_singleton|?]%elem_of_union; [lia|contradiction]. }
  induction l as [|x l IH]; intros base i o visited Hi Hnot; [discriminate|].
  cbn [pending]. destruct i as [|i].
  - injection Hi as ->. rewrite Nat.add_0_r in *.
    rewrite bool_decide_eq_true_2 by set_solver.
    rewrite bool_decide_eq_false_2 by exact Hnot.
    rewrite Hout by lia. lia.
  - cbn in Hi. replace (base + S i)%nat with (S base + i)%nat in * by lia.
    specialize (IH (S base) i o visited Hi Hnot).
    assert (Hb : base ∈ ({[(S base + i)%nat]} ∪ visited : gset nat)
                 <-> base ∈ visited).
    { rewrite elem_of_union, elem_of_singleton. split; [|tauto].
      intros [?|?]; [lia|assumption]. }
    destruct (decide (base ∈ visited)) as [Hin|Hin].
    + rewrite !bool_decide_eq_true_2 by tauto. lia.
    + rewrite !bool_decide_eq_false_2 by tauto. lia.
Qed.

Lemma pending_empty (s : Store) :
  loop_bound s = S (pending s 0 ∅).
Proof.
  unfold loop_bound. f_equal.
  assert (H : forall base : nat,
            foldr (fun o acc => (length (o_children o) + acc)%nat) O s
            = pending s base ∅).
  { induction s as [|o s IH]; intros base; [reflexivity|].
    cbn [foldr pending]. rewrite bool_decide_eq_false_2 by set_solver.
    rewrite <- IH. reflexivity. }
  apply H.
Qed.

Lemma reach_loop_spec (s : Store) (root : nat) :
  closed_store s ->
  forall (bound : nat) (stack : list nat) (visited : gset nat),
    reach_inv s root stack visited ->
    (length stack + pending s 0 visited <= bound)%nat ->
    exists v : gset nat,
      reach_loop bound s stack visited = Ok v
      /\ forall a : nat, a ∈ v <-> rtc (edge s) root a.
Proof.
  intros Hclosed.
  assert (Hdone : forall visited : gset nat,
            reach_inv s root [] visited ->
            forall a : nat, a ∈ visited <-> rtc (edge s) root a).
  { intros visited (_ & Hv & _ & Hstep & Hroot) a. split; [apply Hv|].
    assert (Hr : root ∈ visited)
      by (destruct Hroot as [?|H]; [assumption|inversion H]).
    assert (Hclosure : forall x y : nat,
              rtc (edge s) x y -> x ∈ visited -> y ∈ visited).
    { intros x y Hpath. induction Hpath as [x|x y z Hxy _ IH]; [tauto|].
      intros Hx. apply IH.
      destruct (Hstep x y Hx Hxy) as [?|H]; [assumption|inversion H]. }
    intros Hpath. apply (Hclosure root a Hpath Hr). }
  induction bound as [|bound IH]; intros stack visited Hinv Hw.
  - destruct stack; [|cbn in Hw; lia].
    exists visited. split; [reflexivity|]. apply Hdone. exact Hinv.
  - cbn [reach_loop].
    destruct (reverse stack) as [|node rest] eqn:Erev.
    + assert (stack = []) as ->.
      { apply (f_equal reverse) in Erev. rewrite reverse_involutive in Erev.
        exact Erev. }
      exists visited. split; [reflexivity|]. apply Hdone. exact Hinv.
    + assert (Hstack : stack = reverse rest ++ [node]).
      { apply (f_equal reverse) in Erev. rewrite reverse_involutive in Erev.
        rewrite reverse_cons in Erev. exact Erev. }
      subst stack. rewrite length_app in Hw. cbn [length] in Hw.
      destruct Hinv as (Hlt & Hv & Hs & Hstep & Hroot).
      apply Forall_app in Hlt as [Hlt Hnode].
      apply (proj1 (Forall_singleton _ _)) in Hnode. cbn beta in Hnode.
      destruct (decide (node ∈ visited)) as [Hin|Hin].
      * rewrite bool_decide_eq_true_2 by exact Hin.
        apply IH; [|lia]. repeat split.
        -- exact Hlt.
        -- exact Hv.
        -- intros a Ha. apply Hs. apply elem_of_app. left. exact Ha.
        -- intros a b Ha Hab. destruct (Hstep a b Ha Hab) as [?|Hb];
             [left; assumption|].
           apply elem_of_app in Hb as [Hb|Hb%list_elem_of_singleton];
             [right; exact Hb | left; subst b; exact Hin].
        -- destruct Hroot as [?|Hb]; [left; assumption|].
           apply elem_of_app in Hb as [Hb|Hb%list_elem_of_singleton];
             [right; exact Hb | left; subst node; exact Hin].
      * rewrite bool_decide_eq_false_2 by exact Hin.
        unfold get.
        destruct (s !! node) as [o|] eqn:Eo;
          [|apply lookup_ge_None in Eo; lia].
        cbn [rbind].
        assert (Hreach : rtc (edge s) root node).
        { apply Hs. apply elem_of_app. right. left. }
        pose proof (pending_visit s 0 node o visited Eo Hin) as Hp.
        cbn [Nat.add] in Hp.
        apply IH; [|rewrite length_app; lia]. repeat split.
        -- apply Forall_app. split; [exact Hlt|]. apply (Hclosed node o Eo).
        -- intros a [->%elem_of_singleton|Ha]%elem_of_union;
             [exact Hreach | apply Hv; exact Ha].
        -- intros a [Ha|Ha]%elem_of_app.
           ++ apply Hs. apply elem_of_app. left. exact Ha.
           ++ eapply rtc_r; [exact Hreach|]. exists o. split; assumption.
        -- intros a b [->%elem_of_singleton|Ha]%elem_of_union Hab.
           ++ right. apply elem_of_app. right.
              destruct Hab as (o' & Eo' & Hb). rewrite Eo in Eo'.
              injection Eo' as <-. exact Hb.
           ++ destruct (Hstep a b Ha Hab) as [Hb|Hb].
              ** left. apply elem_of_union. right. exact Hb.
              ** apply elem_of_app in Hb as [Hb|Hb%list_elem_of_singleton].
                 --- right. apply elem_of_app. left. exact Hb.
                 --- left. apply elem_of_union. left.
                     apply elem_of_singleton. exact Hb.
        -- destruct Hroot as [Hr|Hr].
           ++ left. apply elem_of_union. right. exact Hr.
           ++ apply elem_of_app in Hr as [Hr|Hr%list_elem_of_singleton].
              ** right. apply elem_of_app. left. exact Hr.
              ** left. apply elem_of_union. left.
                 apply elem_of_singleton. exact Hr.
Qed.

Lemma collect_reachable_closed (s : Store) (root : nat) :
  closed_store s -> (root < length s)%nat ->
  exists v : gset nat,
    reach_loop (loop_bound s) s [root] ∅ = Ok v
    /\ forall a : nat, a ∈ v <-> rtc (edge s) root a.
Proof.
  intros Hclosed Hroot. apply reach_loop_spec; [exact Hclosed| |].
  - repeat split.
    + constructor; [exact Hroot|constructor].
    + intros a Ha. set_solver.
    + intros a ->%list_elem_of_singleton. constructor.
    + intros a b Ha. set_solver.
    + right. left.
  - rewrite pending_empty. cbn [length]. lia.
Qed.

Lemma closed_store_Forall (s : Store) :
  Forall (fun o => Forall (fun c => (c < length s)%nat) (o_children o)) s ->
  closed_store s.
Proof.
  intros H a o Ha. apply (proj1 (Forall_forall _ _) H).
  apply list_elem_of_lookup. exists a. exact Ha.
Qed.

Lemma shared_concat_closed : closed_store shared_concat.
Proof.
  apply closed_store_Forall. unfold shared_concat.
  repeat constructor; cbn; lia.
Qed.

(** On a graph whose child references all point into the graph,
    [_collect_reachable] returns, and the set it returns holds exactly the
    nodes that a path of child references leads to from the root (the
    root among them). *)
Theorem collect_reachable_spec (s : Store) (root : nat) :
  closed_store s -> (root < length s)%nat ->
  exists v : gset nat,
    _collect_reachable s root = Ok v
    /\ forall a : nat, a ∈ v <-> rtc (edge s) root a.
Proof.
  intros Hclosed Hroot. unfold _collect_reachable.
  apply collect_reachable_closed; assumption.
Qed.

(** At the graph of [s ++ s] with its shared operand. *)
Lemma collect_reachable_spec_witness :
  closed_store shared_concat /\ (3 < length shared_concat)%nat
  /\ exists v : gset nat,
       _collect_reachable shared_concat 3 = Ok v
       /\ forall a : nat, a ∈ v <-> rtc (edge shared_concat) 3%nat a.
Proof.
  assert (Hlt : (3 < length shared_concat)%nat) by (cbn; lia).
  split; [exact shared_concat_closed|]. split; [exact Hlt|].
  exact (collect_reachable_spec shared_concat 3 shared_concat_closed Hlt).
Defined.

(** [eliminate_dead_nodes] removes nothing: on a graph whose child
    references all point into the graph it returns the root it was given
    and a count of 0, and it leaves the statistics as they were. *)
Theorem eliminate_dead_nodes_removes_nothing (s : Store) (root : nat)
    (stats : OptimizerStats) :
  closed_store s -> (root < length s)%nat ->
  eliminate_dead_nodes s root stats = Ok (root, 0, stats).
Proof.
  intros Hclosed Hroot. unfold eliminate_dead_nodes, _collect_reachable.
  destruct (collect_reachable_closed s root Hclosed Hroot) as (v & -> & _).
  cbn [rbind]. rewrite Z.sub_diag, Z.add_0_r. destruct stats. reflexivity.
Qed.

(** At the graph of [s ++ s], with statistics that already count. *)
Lemma eliminate_dead_nodes_removes_nothing_witness :
  closed_store shared_concat /\ (3 < length shared_concat)%nat
  /\ eliminate_dead_nodes shared_concat 3 (mkStats 4 5 6)
     = Ok (3%nat, 0, mkStats 4 5 6).
Proof.
  assert (Hlt : (3 < length shared_concat)%nat) by (cbn; lia).
  split; [exact shared_concat_closed|]. split; [exact Hlt|].
  exact (eliminate_dead_nodes_removes_nothing shared_concat 3 (mkStats 4 5 6)
           shared_concat_closed Hlt).
Defined.

(** The optimizer never changes the graph it is given: when
    [optimize] returns, every node of the input is still there and is the
    same object, the nodes it made come after them, every child reference
    of the result points into the result, the new root is a node of the
    result, and the dead-node pass has counted nothing. *)
Theorem optimize_builds_on_input (depth : nat) (s s' : Store) (root r : nat)
    (stats : OptimizerStats) :
  optimize depth s root = Ok (s', r, stats) ->
  closed_store s -> (root < length s)%nat ->
  s `prefix_of` s' /\ closed_store s' /\ (r < length s')%nat
  /\ dead_eliminated stats = 0.
Proof.
  unfold optimize, optimize_passes. cbn [foldM]. intros H Hclosed Hroot.
  destruct (constant_fold depth s root (mkStats 0 0 0))
    as [[[s1 r1] st1]|] eqn:E1; [|discriminate].
  cbn [rbind] in H.
  destruct (constant_fold_invariant _ _ _ _ _ _ _ E1 Hclosed Hroot)
    as (Hc1 & Hr1 & Hp1).
  assert (Hd1 : dead_eliminated st1 = 0).
  { unfold constant_fold in E1.
    destruct (fold depth (mkFold s ∅ 0) root) as [[st r0]|]; [|discriminate].
    cbn [rbind] in E1. injection E1 as _ _ <-. reflexivity. }
  destruct (cse depth s1 r1 st1) as [[[s2 r2] st2]|] eqn:E2; [|discriminate].
  cbn [rbind] in H.
  destruct (cse_invariant _ _ _ _ _ _ _ E2 Hc1 Hr1) as (Hc2 & Hr2 & Hp2).
  assert (Hd2 : dead_eliminated st2 = 0).
  { unfold cse in E2.
    destruct (collect depth s1 (∅, []) r1) as [[vis order]|]; [|discriminate].
    cbn [rbind] in E2.
    destruct (foldM cse_step order (mkCse s1 [] ∅ 0)); [|discriminate].
    cbn [rbind] in E2. injection E2 as _ _ <-. exact Hd1. }
  unfold eliminate_dead_nodes, _collect_reachable in H.
  destruct (collect_reachable_closed s2 r2 Hc2 Hr2) as (v & Hv & _).
  rewrite Hv in H. cbn [rbind] in H. injection H as <- <- <-.
  split; [etransitivity; eassumption|]. split; [exact Hc2|].
  split; [exact Hr2|]. cbn [dead_eliminated]. rewrite Hd2, Z.sub_diag.
  reflexivity.
Qed.

(** At the graph of [s ++ s], which the optimizer folds to one literal. *)
Lemma optimize_builds_on_input_witness :
  exists (s' : Store) (r : nat) (stats : OptimizerStats),
    optimize 5 shared_concat 3 = Ok (s', r, stats)
    /\ closed_store shared_concat /\ (3 < length shared_concat)%nat
    /\ shared_concat `prefix_of` s' /\ closed_store s' /\ (r < length s')%nat
    /\ dead_eliminated stats = 0.
Proof.
  assert (Hlt : (3 < length shared_concat)%nat) by (cbn; lia).
  assert (E : exists (s' : Store) (r : nat) (stats : OptimizerStats),
            optimize 5 shared_concat 3 = Ok (s', r, stats)).
  { vm_compute. eexists _, _, _. reflexivity. }
  destruct E as (s' & r & stats & E). exists s', r, stats.
  split; [exact E|]. split; [exact shared_concat_closed|].
  split; [exact Hlt|].
  exact (optimize_builds_on_input 5 shared_concat s' 3 r stats E
           shared_concat_closed Hlt).
Defined.

(** ** Common subexpression elimination keeps the tree *)

Lemma pystr_eqb_eq (s t : pystr) : pystr_eqb s t = true -> s = t.
Proof.
  revert t. induction s as [|c s IH]; intros [|d t]; cbn [pystr_eqb];
    try discriminate; [reflexivity|].
  intros [Hc Hs]%andb_true_iff. apply Z.eqb_eq in Hc.
  f_equal; [exact Hc | apply IH, Hs].
Qed.

Lemma data_eq_plain (d1 d2 : Data) :
  plain_data d1 -> plain_data d2 ->
  data_eq d1 d2 = Some true /\ d1 = d2 \/ data_eq d1 d2 = Some false.
Proof.
  destruct d1, d2; cbn; try contradiction; intros _ _;
    try (right; reflexivity); try (left; split; reflexivity).
  - destruct (Z.eqb_spec z z0);
      [left; subst; split; reflexivity | right; reflexivity].
  - destruct (pystr_eqb s s0) eqn:E;
      [left; apply pystr_eqb_eq in E; subst; split; reflexivity
      | right; reflexivity].
Qed.

Lemma opt_eqb_eq (a b : option Z) : opt_eqb a b = true -> a = b.
Proof.
  destruct a, b; cbn; try discriminate; [|reflexivity].
  intros H%Z.eqb_eq. congruence.
Qed.

(** On objects in builder form the structural key decides equality. *)
Lemma key_eq_builder (o1 o2 : Obj) :
  builder_form o1 -> builder_form o2 ->
  key_eq (_structural_key o1) (_structural_key o2) = Some true /\ o1 = o2
  \/ key_eq (_structural_key o1) (_structural_key o2) = Some false.
Proof.
  destruct o1 as [t1 c1 p1 d1 e1 l1], o2 as [t2 c2 p2 d2 e2 l2].
  unfold builder_form, _structural_key.
  cbn [o_tag o_children o_prim_op o_data o_effect o_universe_level].
  destruct t1, t2; cbn [key_eq];
    try (intros _ _; right; reflexivity);
    repeat match goal with
           | |- context [tag_eqb ?a ?b] =>
               let v := eval vm_compute in (tag_eqb a b) in
               change (tag_eqb a b) with v
           end;
    cbn [andb];
    try (intros _ _; right; reflexivity);
    intros H1 H2; destruct_and?; subst.
  all: try (destruct (decide (c1 = c2)) as [->|Hne];
            [rewrite bool_decide_eq_true_2 by reflexivity; left;
             split; reflexivity
            |rewrite bool_decide_eq_false_2 by exact Hne; right;
             reflexivity]).
  - destruct (l1 =? l2) eqn:E; [left|right; reflexivity].
    apply Z.eqb_eq in E. subst. split; reflexivity.
  - destruct (e1 =? e2) eqn:E; cbn [andb]; [|right; reflexivity].
    apply Z.eqb_eq in E. subst.
    destruct (decide (c1 = c2)) as [->|Hne];
      [rewrite bool_decide_eq_true_2 by reflexivity; left; split; reflexivity
      |rewrite bool_decide_eq_false_2 by exact Hne; right; reflexivity].
  - destruct (opt_eqb p1 p2) eqn:Ep; cbn [negb]; [|right; reflexivity].
    apply opt_eqb_eq in Ep. subst.
    destruct (data_eq_plain d1 d2) as [[-> ->]| ->]; try assumption;
      [left; split; reflexivity | right; reflexivity].
Qed.

Lemma mapM_replace {X Y : Type} (f g : X -> Res Y) (h : X -> X)
    (xs : list X) (ys : list Y) :
  (forall (x : X) (y : Y), x ∈ xs -> f x = Ok y -> g (h x) = Ok y) ->
  mapM f xs = Ok ys -> mapM g (map h xs) = Ok ys.
Proof.
  revert ys. induction xs as [|x xs IH]; intros ys Hfg; [intros H; exact H|].
  cbn [mapM map].
  destruct (f x) as [y|] eqn:Ex; [|discriminate]. cbn [rbind].
  destruct (mapM f xs) as [ys'|] eqn:Exs; [|discriminate]. cbn [rbind].
  intros [= <-]. rewrite (Hfg x y (list_elem_of_here x xs) Ex). cbn [rbind].
  rewrite (IH ys'); [reflexivity| |reflexivity].
  intros x' y' Hx'. apply Hfg. right. exact Hx'.
Qed.

Lemma node_of_prefix (s s' : Store) :
  s `prefix_of` s' ->
  forall (d a : nat) (t : Node),
    node_of d s a = Ok t -> node_of d s' a = Ok t.
Proof.
  intros Hpre. induction d as [|d IH]; intros a t; [discriminate|].
  cbn [node_of]. unfold get. unfold Store in *.
  destruct (s !! a) as [o|] eqn:Eo; [|discriminate].
  rewrite (prefix_lookup_Some _ _ _ _ Eo Hpre). cbn [rbind].
  destruct (mapM (node_of d s) (o_children o)) as [cs|] eqn:Ecs;
    [|discriminate].
  cbn [rbind]. intros [= <-].
  pose proof (mapM_replace (node_of d s) (node_of d s') id (o_children o) cs)
    as H.
  rewrite map_id in H. rewrite H; [reflexivity| |exact Ecs].
  intros x y _. apply IH.
Qed.

(** The tree of an address is read off the object stored there. *)
Lemma node_of_same_object (s : Store) (a b : nat) (o : Obj) (d : nat) :
  s !! a = Some o -> s !! b = Some o -> node_of d s a = node_of d s b.
Proof.
  intros Ha Hb. destruct d as [|d]; [reflexivity|].
  cbn [node_of]. unfold get. unfold Store in *. rewrite Ha, Hb. reflexivity.
Qed.

Lemma canonical_lookup_cases (canonical : list (Key * nat)) (key : Key) :
  Forall (fun kv => key_eq (fst kv) key <> None) canonical ->
  canonical_lookup canonical key = Ok None
  \/ exists (k : Key) (c : nat),
       (k, c) ∈ canonical /\ key_eq k key = Some true
       /\ canonical_lookup canonical key = Ok (Some c).
Proof.
  induction canonical as [|[k c] rest IH]; intros H; [left; reflexivity|].
  apply Forall_cons in H as [Hk Hrest]. cbn [fst] in Hk.
  cbn [canonical_lookup].
  destruct (key_eq k key) as [[|]|] eqn:E; [| |contradiction].
  - right. exists k, c. split; [left|]. split; [exact E|reflexivity].
  - destruct (IH Hrest) as [H|(k' & c' & Hin & Hk' & H)]; [left; exact H|].
    right. exists k', c'. split; [right; exact Hin|]. split; assumption.
Qed.

Lemma cse_step_tree (s0 : Store) (st : CseState) (node : nat) :
  cse_tree_inv s0 st -> is_Some (s0 !! node) ->
  exists st' : CseState,
    cse_step st node = Ok st' /\ cse_tree_inv s0 st'.
Proof.
  intros (Hpre & Hform & Hrep & Hcan) [o Eo].
  assert (Ecur : cse_store st !! node = Some o)
    by exact (prefix_lookup_Some _ _ _ _ Eo Hpre).
  unfold cse_step, get. rewrite Ecur. cbn [rbind].
  set (new_children :=
         map (fun c => default c (replacement st !! c)) (o_children o)).
  set (o1 := mkObj (o_tag o) new_children (o_prim_op o) (o_data o)
               (o_effect o) (o_universe_level o)).
  assert (Ho : builder_form o).
  { apply (proj1 (Forall_forall _ _) Hform). apply list_elem_of_lookup.
    exists node. exact Ecur. }
  assert (Ho1 : builder_form o1).
  { unfold builder_form in *. subst o1.
    cbn [o_tag o_children o_prim_op o_data o_effect o_universe_level].
    unfold new_children.
    destruct (o_tag o); try exact Ho;
      destruct Ho as (-> & Hrest); (split; [reflexivity|exact Hrest]). }
  assert (Hcont : forall (s' : Store) (new_node : nat),
            cse_store st `prefix_of` s' -> s' !! new_node = Some o1 ->
            Forall builder_form s' ->
            exists st' : CseState,
              (let* o' := get s' new_node in
               let* found :=
                 canonical_lookup (canonical st) (_structural_key o') in
               match found with
               | Some c =>
                   Ok (mkCse s' (canonical st)
                         (<[node := c]> (replacement st))
                         (shared_count st + 1))
               | None =>
                   Ok (mkCse s'
                         (canonical st ++ [(_structural_key o', new_node)])
                         (<[node := new_node]> (replacement st))
                         (shared_count st))
               end) = Ok st' /\ cse_tree_inv s0 st').
  { intros s' new_node Hpre' Enew Hform'. unfold get.
    rewrite Enew. cbn [rbind].
    assert (Hpre0 : s0 `prefix_of` s') by (etransitivity; eassumption).
    assert (Htree : forall (d : nat) (t : Node),
              node_of d s0 node = Ok t -> node_of d s' new_node = Ok t).
    { intros [|d] t; [discriminate|]. cbn [node_of]. unfold get.
      rewrite Eo, Enew. cbn [rbind].
      destruct (mapM (node_of d s0) (o_children o)) as [cs|] eqn:Ecs;
        [|discriminate].
      cbn [rbind]. intros [= <-]. subst o1.
      cbn [o_tag o_children o_prim_op o_data o_effect o_universe_level].
      unfold new_children.
      rewrite (mapM_replace (node_of d s0) (node_of d s')
                 (fun c => default c (replacement st !! c)) (o_children o) cs);
        [reflexivity| |exact Ecs].
      intros c t _ Hc. destruct (replacement st !! c) as [r|] eqn:Er; cbn.
      - apply (node_of_prefix _ _ Hpre'). apply (Hrep c r Er). exact Hc.
      - apply (node_of_prefix _ _ Hpre0). exact Hc. }
    assert (Hcan' : Forall (fun kv => exists o : Obj,
                       s' !! snd kv = Some o /\ fst kv = _structural_key o)
                      (canonical st)).
    { eapply Forall_impl; [exact Hcan|]. cbn beta.
      intros kv (oc & Eoc & Hk). exists oc.
      split; [exact (prefix_lookup_Some _ _ _ _ Eoc Hpre')|exact Hk]. }
    assert (Hrep' : forall n r : nat,
              replacement st !! n = Some r ->
              forall (d : nat) (t : Node),
                node_of d s0 n = Ok t -> node_of d s' r = Ok t).
    { intros n r Hn d t Ht. apply (node_of_prefix _ _ Hpre').
      apply (Hrep n r Hn). exact Ht. }
    destruct (canonical_lookup_cases (canonical st) (_structural_key o1))
      as [->|(k & c & Hin & Hk & ->)].
    - apply Forall_forall. intros [k c] Hin.
      destruct (proj1 (Forall_forall _ _) Hcan' _ Hin) as (oc & Eoc & Hkc).
      cbn [fst snd] in *. subst k.
      assert (Hoc : builder_form oc).
      { apply (proj1 (Forall_forall _ _) Hform'). apply list_elem_of_lookup.
        exists c. exact Eoc. }
      destruct (key_eq_builder oc o1 Hoc Ho1) as [[-> _]| ->]; discriminate.
    - cbn [rbind]. eexists. split; [reflexivity|].
      split; [exact Hpre0|]. split; [exact Hform'|].
      cbn [cse_store replacement canonical]. split.
      + intros n r. destruct (decide (n = node)) as [->|Hne].
        * rewrite lookup_insert_eq. intros [= <-]. exact Htree.
        * rewrite lookup_insert_ne by congruence. apply Hrep'.
      + apply Forall_app. split; [exact Hcan'|].
        constructor; [|constructor]. exists o1.
        split; [exact Enew|reflexivity].
    - cbn [rbind]. eexists. split; [reflexivity|].
      split; [exact Hpre0|]. split; [exact Hform'|].
      cbn [cse_store replacement canonical]. split; [|exact Hcan'].
      destruct (proj1 (Forall_forall _ _) Hcan' _ Hin) as (oc & Eoc & Hkc).
      cbn [fst snd] in *. subst k.
      assert (Hoc : builder_form oc).
      { apply (proj1 (Forall_forall _ _) Hform'). apply list_elem_of_lookup.
        exists c. exact Eoc. }
      destruct (key_eq_builder oc o1 Hoc Ho1) as [[_ ->]|Hf];
        [|rewrite Hf in Hk; discriminate].
      intros n r. destruct (decide (n = node)) as [->|Hne].
      + rewrite lookup_insert_eq. intros [= <-] d t Ht.
        rewrite (node_of_same_object s' c new_node o1 d Eoc Enew).
        apply Htree. exact Ht.
      + rewrite lookup_insert_ne by congruence. apply Hrep'. }
  destruct (decide (new_children = o_children o)) as [Heq|Hne].
  - rewrite bool_decide_eq_true_2 by exact Heq. cbn [negb].
    apply Hcont; [reflexivity| |exact Hform].
    etransitivity; [exact Ecur|]. f_equal.
    subst o1. rewrite Heq. destruct o. reflexivity.
  - rewrite bool_decide_eq_false_2 by exact Hne. cbn [negb].
    unfold alloc. apply Hcont.
    + apply prefix_app_r. reflexivity.
    + unfold Store in *. rewrite lookup_app_r by lia.
      rewrite Nat.sub_diag. reflexivity.
    + apply Forall_app. split; [exact Hform|].
      constructor; [exact Ho1|constructor].
Qed.

(** The post-order walk returns on a graph that unfolds to a tree within
    the depth, and it lists nodes of the graph. *)
Lemma collect_returns (s : Store) :
  forall (d a : nat) (t : Node) (st : gset nat * list nat),
    node_of d s a = Ok t ->
    Forall (fun n => is_Some (s !! n)) (snd st) ->
    exists st' : gset nat * list nat,
      collect d s st a = Ok st'
      /\ Forall (fun n => is_Some (s !! n)) (snd st').
Proof.
  induction d as [|d IH]; intros a t [visited nodes] Ht Hn; [discriminate|].
  cbn [node_of] in Ht. cbn [collect].
  destruct (bool_decide (a ∈ visited));
    [eexists; split; [reflexivity|exact Hn]|].
  unfold get in *. destruct (s !! a) as [o|] eqn:Eo; [|discriminate].
  cbn [rbind] in *.
  destruct (mapM (node_of d s) (o_children o)) as [cs|] eqn:Ecs;
    [|discriminate].
  assert (Hkids : forall (kids : list nat) (ts : list Node)
                    (st0 : gset nat * list nat),
            mapM (node_of d s) kids = Ok ts ->
            Forall (fun n => is_Some (s !! n)) (snd st0) ->
            exists st1 : gset nat * list nat,
              foldM (collect d s) kids st0 = Ok st1
              /\ Forall (fun n => is_Some (s !! n)) (snd st1)).
  { clear -IH. induction kids as [|k kids IHk]; intros ts st0 Hm H0.
    - eexists. split; [reflexivity|exact H0].
    - cbn [mapM] in Hm.
      destruct (node_of d s k) as [tk|] eqn:Ek; [|discriminate].
      cbn [rbind] in Hm.
      destruct (mapM (node_of d s) kids) as [tks|] eqn:Em; [|discriminate].
      destruct (IH k tk st0 Ek H0) as (st1 & E1 & H1).
      cbn [foldM]. rewrite E1. cbn [rbind]. apply (IHk tks st1 eq_refl H1). }
  match goal with
  | |- context [@foldM ?A ?X ?f ?kids ?st0] =>
      destruct (Hkids kids cs st0 Ecs Hn) as ([visited' nodes'] & E & H');
      change (@foldM A X f kids st0) with (foldM (collect d s) kids st0);
      rewrite E
  end.
  cbn [rbind]. eexists. split; [reflexivity|]. cbn [snd] in *.
  apply Forall_app. split; [exact H'|].
  constructor; [exists o; exact Eo|constructor].
Qed.

Lemma cse_loop_tree (s0 : Store) (order : list nat) :
  forall st : CseState,
    cse_tree_inv s0 st ->
    Forall (fun n => is_Some (s0 !! n)) order ->
    exists st' : CseState,
      foldM cse_step order st = Ok st' /\ cse_tree_inv s0 st'.
Proof.
  induction order as [|n order IH]; intros st Hinv Hord.
  - exists st. split; [reflexivity|exact Hinv].
  - apply Forall_cons in Hord as [Hn Hord].
    destruct (cse_step_tree s0 st n Hinv Hn) as (st1 & E1 & Hinv1).
    cbn [foldM]. rewrite E1. cbn [rbind]. apply IH; assumption.
Qed.

Lemma cse_tree (depth : nat) (s : Store) (root : nat)
    (stats : OptimizerStats) (t : Node) :
  Forall builder_form s ->
  node_of depth s root = Ok t ->
  exists (s' : Store) (r : nat) (stats' : OptimizerStats),
    cse depth s root stats = Ok (s', r, stats')
    /\ node_of depth s' r = Ok t.
Proof.
  intros Hform Ht. unfold cse.
  destruct (collect_returns s depth root t (∅, []) Ht)
    as ([visited order] & E & Hord); [constructor|].
  rewrite E. cbn [rbind]. cbn [snd] in Hord.
  destruct (cse_loop_tree s order (mkCse s [] ∅ 0)) as (st & Est & Hinv);
    [|exact Hord|].
  { split; [reflexivity|]. split; [exact Hform|].
    cbn [cse_store replacement canonical]. split; [|constructor].
    intros n r Hn. rewrite lookup_empty in Hn. discriminate. }
  rewrite Est. cbn [rbind]. eexists _, _, _. split; [reflexivity|].
  destruct Hinv as (Hpre & _ & Hrep & _).
  destruct (replacement st !! root) as [r|] eqn:Er; cbn [default from_option id].
  - apply (Hrep root r Er). exact Ht.
  - apply (node_of_prefix _ _ Hpre). exact Ht.
Qed.

(** Common subexpression elimination changes the sharing of a graph
    and nothing else: on a graph whose nodes are as the builders make
    them (payloads that are None, an int or a str), [cse] returns, and
    the node it returns unfolds to the same tree as the node it was
    given, so it has the same content hash. *)
Theorem cse_preserves_tree (depth : nat) (s : Store) (root : nat)
    (stats : OptimizerStats) (t : Node) :
  Forall builder_form s ->
  node_of depth s root = Ok t ->
  exists (s' : Store) (r : nat) (stats' : OptimizerStats),
    cse depth s root stats = Ok (s', r, stats')
    /\ node_of depth s' r = Ok t
    /\ content_hash_at depth s' r = content_hash_at depth s root.
Proof.
  intros Hform Ht.
  destruct (cse_tree depth s root stats t Hform Ht)
    as (s' & r & stats' & E & Ht').
  exists s', r, stats'. split; [exact E|]. split; [exact Ht'|].
  unfold content_hash_at. rewrite Ht, Ht'. reflexivity.
Qed.

(** At the graph of [s ++ s] with its shared operand. *)
Lemma cse_preserves_tree_witness :
  let lit := B.str_lit (replicate 13 97) in
  let t := B.app (B.app (B.prim PrimOp.STR_CONCAT) lit) lit in
  Forall builder_form shared_concat
  /\ node_of 3 shared_concat 3 = Ok t
  /\ exists (s' : Store) (r : nat) (stats' : OptimizerStats),
       cse 3 shared_concat 3 (mkStats 0 0 0) = Ok (s', r, stats')
       /\ node_of 3 s' r = Ok t
       /\ content_hash_at 3 s' r = content_hash_at 3 shared_concat 3.
Proof.
  cbv zeta.
  assert (Hform : Forall builder_form shared_concat).
  { unfold shared_concat. repeat constructor. }
  assert (Ht : node_of 3 shared_concat 3
               = Ok (B.app (B.app (B.prim PrimOp.STR_CONCAT)
                              (B.str_lit (replicate 13 97)))
                       (B.str_lit (replicate 13 97))))
    by (vm_compute; reflexivity).
  split; [exact Hform|]. split; [exact Ht|].
  exact (cse_preserves_tree 3 shared_concat 3 (mkStats 0 0 0) _ Hform Ht).
Defined.

(** ** Constant folding of a binary primitive on integer literals *)

(** Folding a foldable binary primitive applied to two integer
    literals: when the application evaluates to a value, [constant_fold]
    puts one new literal node in its place, which evaluates to the same
    value, and counts one fold; when the application raises (division or
    modulo by zero), the graph is returned as it is and nothing is
    counted. *)
Theorem constant_fold_binop (depth : nat) (op a b : Z)
    (stats : OptimizerStats) :
  In op _FOLDABLE_BINARY ->
  let g := store_of (binop op a b) in
  (forall v : Value,
     result (Interpreter.run 2 (binop op a b)) = Ok v ->
     exists (o : Obj) (lit : Node),
       constant_fold (3 + depth) g (root_of (binop op a b)) stats
       = Ok (g ++ [o], length g,
             mkStats (dead_eliminated stats) (cse_shared stats)
               (constants_folded stats + 1))
       /\ node_of 1 (g ++ [o]) (length g) = Ok lit
       /\ result (Interpreter.run 1 lit) = Ok v)
  /\ (forall e : PyExn,
        result (Interpreter.run 2 (binop op a b)) = Raise e ->
        constant_fold (3 + depth) g (root_of (binop op a b)) stats
        = Ok (g, root_of (binop op a b), stats)).
Proof.
  intros Hop g. subst g. rewrite (run_binop_int 0).
  unfold constant_fold. destruct stats as [sd sc sf].
  cbn [dead_eliminated cse_shared constants_folded].
  unfold _FOLDABLE_BINARY in Hop. cbn [In] in Hop.
  change (3 + depth)%nat with (S (S (S depth))).
  repeat (destruct Hop as [<-|Hop]); [..|contradiction].
  all: destruct b as [|p|p].
  all: match goal with
       | |- context [fold ?d ?st ?n] =>
           let v := eval vm_compute in (fold d st n) in
           let E := fresh "E" in
           assert (E : fold d st n = v) by (vm_compute; reflexivity);
           rewrite E; clear E
       end.
  all: cbn [rbind fold_store folded_count].
  all: split; [intros v Hv|intros e He].
  all: vm_compute in Hv || vm_compute in He.
  all: try discriminate.
  all: try (injection Hv as <-; eexists _, _;
            split; [reflexivity|]; split; [reflexivity|];
            vm_compute; reflexivity).
  all: try (rewrite Z.add_0_r; reflexivity).
  all: injection Hv as <-; eexists _, _;
    split; [reflexivity|]; split; [reflexivity|];
    match goal with
    | |- context [if ?c then 48 else 49] => destruct c
    end; vm_compute; reflexivity.
Qed.

(** At [-7 // 2], which folds to the literal [-4]. *)
Lemma constant_fold_binop_witness :
  In PrimOp.INT_DIV _FOLDABLE_BINARY
  /\ exists (o : Obj) (lit : Node),
       constant_fold 3 (store_of (binop PrimOp.INT_DIV (-7) 2))
         (root_of (binop PrimOp.INT_DIV (-7) 2)) (mkStats 0 0 0)
       = Ok (store_of (binop PrimOp.INT_DIV (-7) 2) ++ [o],
             length (store_of (binop PrimOp.INT_DIV (-7) 2)),
             mkStats 0 0 1)
       /\ node_of 1 (store_of (binop PrimOp.INT_DIV (-7) 2) ++ [o])
            (length (store_of (binop PrimOp.INT_DIV (-7) 2))) = Ok lit
       /\ result (Interpreter.run 1 lit) = Ok (VInt (-4)).
Proof.
  assert (Hin : In PrimOp.INT_DIV _FOLDABLE_BINARY)
    by (do 3 right; left; reflexivity).
  split; [exact Hin|].
  apply (proj1 (constant_fold_binop 0 PrimOp.INT_DIV (-7) 2 (mkStats 0 0 0)
                  Hin) (VInt (-4))).
  vm_compute. reflexivity.
Defined.

(** ** The content hash is defined on what the codec carries *)

(** With the frames counted and more of them than the tree is high,
    [content_hash] is the definition without them. *)
Lemma frames_content_hash (n : Node) :
  forall depth : nat,
    (height n < depth)%nat -> Frames.content_hash depth n = content_hash n.
Proof.
  induction n as [t cs op d e l IH] using Node_ind'. intros depth Hh.
  rewrite height_unfold in Hh. cbn [children] in Hh.
  destruct depth as [|depth]; [lia|].
  cbn [Frames.content_hash content_hash children tag prim_op data effect
         universe_level].
  destruct depth as [|depth]; [lia|].
  match goal with
  | |- rbind (?f cs) _ = rbind (?g cs) _ =>
      assert (Hcs : f cs = g cs)
  end.
  { assert (Hc : Forall (fun c => (height c < S depth)%nat) cs).
    { apply Forall_forall. intros c Hc.
      pose proof (height_child c cs Hc). lia. }
    clear Hh. induction IH as [|c cs Hi _ IHcs]; [reflexivity|].
    apply Forall_cons in Hc as [Hc Hcs]. cbn [rbind].
    rewrite (Hi _ Hc), (IHcs Hcs). reflexivity. }
  rewrite Hcs. reflexivity.
Qed.

(** [content_hash] on a tree the binary format can carry: with more
    frames left than the tree is high it returns a digest of 32 bytes,
    and with fewer it raises [RecursionError] (a leaf takes two frames,
    one for the method and one for reading the property [arity]); it
    raises nothing else. *)
Theorem content_hash_defined (depth : nat) (n : Node) :
  encodable n = true ->
  ((height n < depth)%nat ->
   exists h : list byte,
     Frames.content_hash depth n = Ok h /\ length h = 32%nat)
  /\ ((depth <= height n)%nat ->
      Frames.content_hash depth n = Raise RecursionError).
Proof.
  intros Henc. split.
  - intros Hh. rewrite (frames_content_hash n depth Hh).
    apply content_hash_encodable, Henc.
  - revert depth Henc.
    induction n as [t cs op d e l IH] using Node_ind'. intros depth Henc Hh.
    rewrite height_unfold in Hh. cbn [children] in Hh.
    destruct depth as [|depth]; [reflexivity|].
    cbn [encodable children] in Henc.
    apply andb_true_iff in Henc as [_ Hcs].
    cbn [Frames.content_hash children tag prim_op data effect
           universe_level].
    destruct depth as [|depth]; [reflexivity|].
    match goal with
    | |- (let* ch := ?f cs in _) = _ =>
        assert (Hch : f cs = Raise RecursionError)
    end.
    { assert (Hd : (S depth <= heights cs)%nat) by lia. clear Hh.
      induction IH as [|c cs Hi _ IHcs]; [cbn in Hd; lia|].
      cbn [forallb] in Hcs. apply andb_true_iff in Hcs as [Hc Hcs].
      destruct (Nat.le_gt_cases (S depth) (height c)) as [Hle|Hgt];
        cbn [rbind].
      - rewrite (Hi _ Hc Hle). reflexivity.
      - rewrite (frames_content_hash c (S depth) Hgt).
        destruct (content_hash_encodable c Hc) as (h & -> & _).
        cbn [rbind]. rewrite IHcs; [reflexivity|exact Hcs|].
        unfold heights in *. cbn [foldr] in Hd. lia. }
    rewrite Hch. reflexivity.
Qed.

(** At the curried sum [3 + 5], a tree of height 3: four frames are
    enough, three are not. *)
Lemma content_hash_defined_witness :
  encodable (binop PrimOp.INT_ADD 3 5) = true
  /\ (exists h : list byte,
        Frames.content_hash 4 (binop PrimOp.INT_ADD 3 5) = Ok h
        /\ length h = 32%nat)
  /\ Frames.content_hash 3 (binop PrimOp.INT_ADD 3 5) = Raise RecursionError.
Proof.
  assert (H : encodable (binop PrimOp.INT_ADD 3 5) = true)
    by (vm_compute; reflexivity).
  split; [exact H|]. split.
  - apply (proj1 (content_hash_defined 4 _ H)). vm_compute. lia.
  - apply (proj2 (content_hash_defined 3 _ H)). vm_compute. lia.
Defined.
